(** * E-commerce customer-support chatbot: a shallow embedding and its properties

    The development follows the Python sources of the chatbot package:
    - [performance_tuning.py]  : [LRUCache], the [cache_result] decorator,
                                 [QueryOptimizer] and [ConnectionPool],
    - [order_tracker.py]       : [OrderTracker],
    - [intent_classifier.py]   : [IntentClassifier],
    - [ir_based_qa.py]         : [IRBasedQA],
    - [response_generator.py]  : [ResponseGenerator],
    - [dialogue_system.py]     : [DialogueSystem],
    - [api_wrapper.py]         : [ChatbotAPIWrapper].

    Conventions of the embedding.
    - Python [str] is [string]; the model is exact on ASCII text
      ([str.lower], [str.upper], [str.split] and the regular expression
      classes are written out for the 7-bit range, other bytes are left
      alone).
    - Python [int] is [Z]; the scores, which are floats built from the
      literals 2.0 and 0.5 or produced by the similarity routine, are
      rationals ([Q]): every finite double is a rational and comparisons of
      doubles are comparisons of those rationals.
    - A [dict] whose iteration order is observed is an association list in
      insertion order; a [dict] only looked up is a [gmap].
    - Mutation is explicit state passing; a raised exception is a value of
      [outcome].
    - [datetime.now()] and [random.choice] read the world: the clock value
      and the random draw are arguments of the functions that use them.
    - The routines of scikit-learn and numpy that the retriever calls are
      not part of the package: the similarity routine and [np.argsort] are
      fields of the index, and what a statement needs of them is one of
      its hypotheses. *)

From Stdlib Require Import ZArith QArith Qminmax String Ascii List Bool Lia Sorted Permutation.
From stdpp Require Import gmap strings list.

Open Scope string_scope.

(** ** Exceptions and results *)

Inductive exn : Set :=
  | KeyError
  | StopIteration
  | IndexError
  | OverflowError.

Inductive outcome (A : Type) : Type :=
  | Return (a : A)
  | Raise (e : exn).

Arguments Return {A} a.
Arguments Raise {A} e.

(** Values held by a cache ([Any] in the source): [None], numbers, text. *)
Inductive value : Set :=
  | VNone
  | VInt (z : Z)
  | VStr (s : string).

Definition is_none (v : value) : bool :=
  match v with VNone => true | _ => false end.

(** ** Python string primitives (ASCII) *)

Module PyStr.

Definition is_upper (c : ascii) : bool :=
  let n := nat_of_ascii c in (65 <=? n)%nat && (n <=? 90)%nat.

Definition is_lower (c : ascii) : bool :=
  let n := nat_of_ascii c in (97 <=? n)%nat && (n <=? 122)%nat.

Definition is_digit (c : ascii) : bool :=
  let n := nat_of_ascii c in (48 <=? n)%nat && (n <=? 57)%nat.

(** [str.isspace] on the 7-bit range: TAB, LF, VT, FF, CR, the four
    separators 0x1C-0x1F and the blank. *)
Definition is_space (c : ascii) : bool :=
  let n := nat_of_ascii c in
  ((9 <=? n)%nat && (n <=? 13)%nat)
  || ((28 <=? n)%nat && (n <=? 31)%nat)
  || (n =? 32)%nat.

Definition lower_char (c : ascii) : ascii :=
  if is_upper c then ascii_of_nat (nat_of_ascii c + 32) else c.

Definition upper_char (c : ascii) : ascii :=
  if is_lower c then ascii_of_nat (nat_of_ascii c - 32) else c.

Fixpoint map_chars (f : ascii -> ascii) (s : string) : string :=
  match s with
  | EmptyString => EmptyString
  | String c s' => String (f c) (map_chars f s')
  end.

(** [s.lower()] and [s.upper()] *)
Definition lower (s : string) : string := map_chars lower_char s.
Definition upper (s : string) : string := map_chars upper_char s.

(** [p in s] for two strings: [p] occurs in [s] as a substring. *)
Fixpoint contains (s p : string) : bool :=
  String.prefix p s
  || match s with
     | EmptyString => false
     | String _ s' => contains s' p
     end.

(** [s.split()]: maximal runs of non-blank characters.  [split_go]
    carries the word being read, reversed. *)
Definition flush (w : list ascii) (acc : list string) : list string :=
  match w with
  | nil => acc
  | _ => string_of_list_ascii (rev w) :: acc
  end.

Fixpoint split_go (s : string) (w : list ascii) : list string :=
  match s with
  | EmptyString => flush w nil
  | String c s' =>
      if is_space c then flush w (split_go s' nil)
      else split_go s' (c :: w)
  end.

Definition split (s : string) : list string := split_go s nil.

End PyStr.

(** ** [performance_tuning.py]: the LRU cache *)

(** [collections.OrderedDict] as an association list, oldest entry first.
    Keys are unique in every list built from [nil] by these operations. *)
Module OrderedDict.

Definition t : Type := list (string * value).

(** [key in d] *)
Definition mem (k : string) (d : t) : bool :=
  existsb (fun kv => String.eqb (fst kv) k) d.

(** [d[key]] as an option ([None] where the source would raise). *)
Fixpoint lookup (k : string) (d : t) : option value :=
  match d with
  | nil => None
  | (k', v) :: d' => if String.eqb k' k then Some v else lookup k d'
  end.

(** [del d[key]] *)
Definition del (k : string) (d : t) : t :=
  List.filter (fun kv => negb (String.eqb (fst kv) k)) d.

(** [d.move_to_end(key)] for a key that is present. *)
Definition move_to_end (k : string) (d : t) : t :=
  match lookup k d with
  | Some v => (del k d ++ (k, v) :: nil)%list
  | None => d
  end.

(** [d[key] = value]: in place when the key is present, else appended. *)
Fixpoint set (k : string) (v : value) (d : t) : t :=
  match d with
  | nil => (k, v) :: nil
  | (k', v') :: d' =>
      if String.eqb k' k then (k', v) :: d' else (k', v') :: set k v d'
  end.

Definition keys (d : t) : list string := map fst d.

End OrderedDict.

Module LRUCache.

(** The object's fields; the two counters are the [PerformanceMetrics]
    fields the cache updates.  Clock values are in microseconds, the
    resolution of [datetime]. *)
Record t : Type := mk {
  max_size : Z;
  ttl_seconds : Z;
  cache : OrderedDict.t;
  timestamps : gmap string Z;
  cache_hits : nat;
  cache_misses : nat
}.

Definition __init__ (max_size ttl_seconds : Z) : t :=
  mk max_size ttl_seconds nil ∅ 0 0.

Definition with_cache (d : OrderedDict.t) (c : t) : t :=
  mk (max_size c) (ttl_seconds c) d (timestamps c) (cache_hits c) (cache_misses c).

Definition with_timestamps (ts : gmap string Z) (c : t) : t :=
  mk (max_size c) (ttl_seconds c) (cache c) ts (cache_hits c) (cache_misses c).

Definition count_hit (c : t) : t :=
  mk (max_size c) (ttl_seconds c) (cache c) (timestamps c) (S (cache_hits c)) (cache_misses c).

Definition count_miss (c : t) : t :=
  mk (max_size c) (ttl_seconds c) (cache c) (timestamps c) (cache_hits c) (S (cache_misses c)).

(** [timedelta(seconds=s)] for an [int], in microseconds.  A
    [timedelta] holds at most 999999999 days in either direction: the
    constructor raises [OverflowError] when [s // 86400] is beyond. *)
Definition timedelta (seconds : Z) : outcome Z :=
  if (Z.abs (seconds / 86400) <=? 999999999)%Z then Return (seconds * 1000000)%Z
  else Raise OverflowError.

(** The age is computed first, then the [timedelta] it is compared with;
    a key without a timestamp is expired before either is computed. *)
Definition _is_expired (now : Z) (key : string) (c : t) : outcome bool :=
  match timestamps c !! key with
  | None => Return true
  | Some stamp =>
      let age := (now - stamp)%Z in
      match timedelta (ttl_seconds c) with
      | Return limit => Return (limit <? age)%Z
      | Raise e => Raise e
      end
  end.

(** The test [key not in self.cache or self._is_expired(key)]: the
    second operand is evaluated only for a key that is in the store. *)
Definition absent_or_expired (now : Z) (key : string) (c : t) : outcome bool :=
  if negb (OrderedDict.mem key (cache c)) then Return true
  else _is_expired now key c.

(** An exception of the test leaves the object as it was: no counter
    has been touched yet. *)
Definition get (now : Z) (key : string) (c : t) : outcome value * t :=
  match absent_or_expired now key c with
  | Raise e => (Raise e, c)
  | Return true =>
      let c1 := count_miss c in
      if OrderedDict.mem key (cache c1) then
        let c2 := with_cache (OrderedDict.del key (cache c1)) c1 in
        match timestamps c2 !! key with
        | Some _ => (Return VNone, with_timestamps (delete key (timestamps c2)) c2)
        | None => (Raise KeyError, c2)
        end
      else (Return VNone, c1)
  | Return false =>
      let c1 := with_cache (OrderedDict.move_to_end key (cache c)) c in
      let c2 := count_hit c1 in
      match OrderedDict.lookup key (cache c2) with
      | Some v => (Return v, c2)
      | None => (Raise KeyError, c2)
      end
  end.

(** The branch of [put] that runs when the store is full:
    [popitem(last=False)], then [next(iter(self.cache))] on what is left,
    then the guarded deletion of that key's timestamp. *)
Definition evict (c : t) : outcome unit * t :=
  match cache c with
  | nil => (Raise KeyError, c)
  | _ :: rest =>
      let c1 := with_cache rest c in
      match rest with
      | nil => (Raise StopIteration, c1)
      | (removed_key, _) :: _ =>
          match timestamps c1 !! removed_key with
          | Some _ => (Return tt, with_timestamps (delete removed_key (timestamps c1)) c1)
          | None => (Return tt, c1)
          end
      end
  end.

Definition store (now : Z) (key : string) (v : value) (c : t) : t :=
  with_timestamps (<[key := now]> (timestamps c))
    (with_cache (OrderedDict.set key v (cache c)) c).

Definition put (now : Z) (key : string) (v : value) (c : t) : outcome unit * t :=
  if OrderedDict.mem key (cache c) then
    (Return tt, store now key v (with_cache (OrderedDict.del key (cache c)) c))
  else if (max_size c <=? Z.of_nat (List.length (cache c)))%Z then
    match evict c with
    | (Return _, c1) => (Return tt, store now key v c1)
    | (Raise e, c1) => (Raise e, c1)
    end
  else (Return tt, store now key v c).

Definition clear (c : t) : t :=
  with_timestamps ∅ (with_cache nil c).

(** A run of [put]s, stopping at the first exception. *)
Fixpoint put_all (now : Z) (kvs : list (string * value)) (c : t) : outcome unit * t :=
  match kvs with
  | nil => (Return tt, c)
  | (k, v) :: kvs' =>
      match put now k v c with
      | (Return _, c1) => put_all now kvs' c1
      | (Raise e, c1) => (Raise e, c1)
      end
  end.

End LRUCache.

(** The [cache_result] decorator.  The wrapped function is a function of
    its arguments; [calls] counts its executions.  [make_key] stands for
    [cache._make_key(func.__name__, args, kwargs)], an MD5 digest. *)
Module CacheResult.
Section Wrapper.

Context {A : Type}.
Variable make_key : A -> string.
Variable func : A -> value.

Record state : Type := mk_state {
  memo : LRUCache.t;
  calls : nat
}.

(** One call of the decorated function; [now_get] and [now_put] are
    the clock readings inside [cache.get] and [cache.put]. *)
Definition wrapper (now_get now_put : Z) (args : A) (st : state)
  : outcome value * state :=
  let key := make_key args in
  match LRUCache.get now_get key (memo st) with
  | (Raise e, c1) => (Raise e, mk_state c1 (calls st))
  | (Return cached_value, c1) =>
      if negb (is_none cached_value) then
        (Return cached_value, mk_state c1 (calls st))
      else
        let result := func args in
        match LRUCache.put now_put key result c1 with
        | (Raise e, c2) => (Raise e, mk_state c2 (S (calls st)))
        | (Return _, c2) => (Return result, mk_state c2 (S (calls st)))
        end
  end.

(** Successive calls with the same arguments, one pair of clock
    readings per call. *)
Fixpoint repeat_calls (clock : list (Z * Z)) (args : A) (st : state) : state :=
  match clock with
  | nil => st
  | (now_get, now_put) :: clock' =>
      repeat_calls clock' args (snd (wrapper now_get now_put args st))
  end.

End Wrapper.
End CacheResult.

(** ** [order_tracker.py] *)

Module OrderTracker.

(** One element of [orders['orders']]. *)
Record order : Type := mk_order {
  order_id : string;
  customer_id : string;
  status : string;
  delivery_date : string
}.

Definition t : Type := list order.

Definition set_status (s : string) (o : order) : order :=
  mk_order (order_id o) (customer_id o) s (delivery_date o).

(** [order['order_id'].upper() == order_id.upper()] *)
Definition same_id (o : order) (oid : string) : bool :=
  String.eqb (PyStr.upper (order_id o)) (PyStr.upper oid).

(** [order['status'] in ['pending', 'processing']] *)
Definition eligible (o : order) : bool :=
  String.eqb (status o) "pending" || String.eqb (status o) "processing".

Fixpoint get_order (oid : string) (orders : t) : option order :=
  match orders with
  | nil => None
  | o :: rest => if same_id o oid then Some o else get_order oid rest
  end.

(** The loop only returns inside the inner [if]: an order with the right
    id and an ineligible status does not stop the scan. *)
Fixpoint cancel_order (oid : string) (orders : t) : bool * t :=
  match orders with
  | nil => (false, nil)
  | o :: rest =>
      if same_id o oid && eligible o then (true, set_status "cancelled" o :: rest)
      else let (r, rest') := cancel_order oid rest in (r, o :: rest')
  end.

Definition list_user_orders (cid : string) (orders : t) : t :=
  List.filter (fun o => String.eqb (customer_id o) cid) orders.

End OrderTracker.

(** ** [intent_classifier.py] *)

Module IntentClassifier.

Local Open Scope Q_scope.

(** One element of [intents['intents']]. *)
Record intent : Type := mk_intent {
  tag : string;
  patterns : list string;
  responses : list string
}.

(** [intent_scores]: a [dict] read in insertion order. *)
Definition scores : Type := list (string * Q).

(** [d[k] = v] *)
Fixpoint assign (k : string) (v : Q) (d : scores) : scores :=
  match d with
  | nil => (k, v) :: nil
  | (k', v') :: d' =>
      if String.eqb k' k then (k', v) :: d' else (k', v') :: assign k v d'
  end.

(** [d[k] += v] for a key that is present *)
Fixpoint increase (k : string) (v : Q) (d : scores) : scores :=
  match d with
  | nil => nil
  | (k', v') :: d' =>
      if String.eqb k' k then (k', v' + v) :: d' else (k', v') :: increase k v d'
  end.

(** [sum(1 for word in pattern_words if word in user_input_lower)] *)
Definition matched_words (user_input_lower : string) (pattern_words : list string) : nat :=
  List.length (List.filter (PyStr.contains user_input_lower) pattern_words).

(** What one pattern adds to the score of its intent. *)
Definition pattern_score (user_input_lower pattern : string) : Q :=
  let pattern_lower := PyStr.lower pattern in
  if PyStr.contains user_input_lower pattern_lower then 2
  else inject_Z (Z.of_nat (matched_words user_input_lower (PyStr.split pattern_lower))) * (1 # 2).

(** The body of the outer loop for one intent. *)
Definition score_intent (user_input_lower : string) (d : scores) (it : intent) : scores :=
  fold_left (fun d pattern => increase (tag it) (pattern_score user_input_lower pattern) d)
    (patterns it) (assign (tag it) 0 d).

Definition intent_scores (user_input_lower : string) (intents : list intent) : scores :=
  fold_left (score_intent user_input_lower) intents nil.

(** [max(d.values())] of a non-empty dict, from its first value *)
Definition max_value (v0 : Q) (d : scores) : Q :=
  fold_left (fun m kv => if Qle_bool (snd kv) m then m else snd kv) d v0.

(** [max(d, key=d.get)]: the first key whose value no later one exceeds *)
Definition max_key (kv0 : string * Q) (d : scores) : string * Q :=
  fold_left (fun best kv => if Qle_bool (snd kv) (snd best) then best else kv) d kv0.

(** The literals of the fallback answer. *)
Definition fallback_intent : string := "greeting".
Definition fallback_confidence : Q := 3 # 10.

(** [classify]; the confidence [min(score / 10, 1.0)] is kept as an exact
    rational. *)
Definition classify (intents : list intent) (user_input : string) : string * Q :=
  let user_input_lower := PyStr.lower user_input in
  match intent_scores user_input_lower intents with
  | nil => (fallback_intent, fallback_confidence)
  | kv0 :: d =>
      if Qeq_bool (max_value (snd kv0) d) 0 then (fallback_intent, fallback_confidence)
      else
        let best := max_key kv0 d in
        (fst best, Qmin (snd best / 10) 1)
  end.

End IntentClassifier.

(** ** [response_generator.py] *)

Module ResponseGenerator.

Import IntentClassifier.

Definition _build_response_map (intents : list intent) : gmap string (list string) :=
  fold_left (fun m it => <[tag it := responses it]> m) intents ∅.

(** [random.choice(seq)] with the draw [rnd]; [None] is [IndexError]. *)
Definition choice {A : Type} (rnd : nat) (seq : list A) : option A :=
  match seq with
  | nil => None
  | _ => nth_error seq (rnd mod List.length seq)
  end.

(** [s.replace(old, new)] for a non-empty [old]; [skip] counts the
    characters of a replaced occurrence still to be passed over. *)
Fixpoint replace_go (old new s : string) (skip : nat) : string :=
  match s with
  | EmptyString => EmptyString
  | String c s' =>
      match skip with
      | S k => replace_go old new s' k
      | O =>
          if String.prefix old s
          then new +:+ replace_go old new s' (String.length old - 1)
          else String c (replace_go old new s' 0)
      end
  end.

Definition replace (old new s : string) : string := replace_go old new s 0.

(** The loop over [entities.items()], values already rendered by [str]. *)
Definition substitute (entities : list (string * string)) (response : string) : string :=
  fold_left (fun r kv => replace ("{" +:+ fst kv +:+ "}") (snd kv) r) entities response.

Definition unknown_intent_reply : string :=
  "I'm sorry, I didn't understand that. Can you please rephrase?".

Definition generate (response_map : gmap string (list string)) (rnd : nat)
    (intent : string) (entities : option (list (string * string))) : outcome string :=
  match response_map !! intent with
  | None => Return unknown_intent_reply
  | Some responses =>
      match choice rnd responses with
      | None => Raise IndexError
      | Some response =>
          match entities with
          | Some (e :: es) => Return (substitute (e :: es) response)
          | _ => Return response
          end
      end
  end.

End ResponseGenerator.

(** ** [ir_based_qa.py] *)

Module IRBasedQA.

Local Open Scope Q_scope.

(** One element of [faq_data['faqs']]. *)
Record faq : Type := mk_faq {
  question : string;
  answer : string
}.

(** The index.  Two library routines are used through their results
    only, and are fields of the index.
    - [similarities] is scikit-learn's
      [cosine_similarity(transform([query]), question_vectors)[0]]: one
      score per question, or [None] when the call raises.
    - [argsort] is [np.argsort] with its default kind: the indices of
      the scores in ascending order of the scores.  That sort is not
      stable, and the order it gives to the indices of equal scores is not
      fixed by its interface (it varies with the build of the library and
      with the length of the array), so no particular sort is written
      here. *)
Record t : Type := mk {
  faqs : list faq;
  similarities : string -> option (list Q);
  argsort : list Q -> list nat
}.

Definition questions (qa : t) : list string := map question (faqs qa).
Definition answers (qa : t) : list string := map answer (faqs qa).

(** An element of the returned list. *)
Record hit : Type := mk_hit {
  hit_question : string;
  hit_answer : string;
  score : Q
}.

(** [l[:k]] for an integer [k]: a negative [k] counts from the end. *)
Definition slice_to {A : Type} (k : Z) (l : list A) : list A :=
  if (0 <=? k)%Z then firstn (Z.to_nat k) l
  else firstn (List.length l - Z.to_nat (- k)) l.

(** The double written [0.1] in the source. *)
Definition threshold : Q := 3602879701896397 # 36028797018963968.

(** The loop over [top_indices]; [None] when an index is out of range,
    which the source turns into the empty answer. *)
Fixpoint collect (qa : t) (sims : list Q) (top_indices : list nat) : option (list hit) :=
  match top_indices with
  | nil => Some nil
  | idx :: rest =>
      match nth_error sims idx with
      | None => None
      | Some s =>
          if Qlt_le_dec threshold s then
            match nth_error (questions qa) idx, nth_error (answers qa) idx, collect qa sims rest with
            | Some q, Some a, Some hits => Some (mk_hit q a s :: hits)
            | _, _, _ => None
            end
          else collect qa sims rest
      end
  end.

(** [np.argsort(similarities)[::-1][:top_k]] *)
Definition top_indices (qa : t) (top_k : Z) (sims : list Q) : list nat :=
  slice_to top_k (rev (argsort qa sims)).

Definition retrieve (qa : t) (query : string) (top_k : Z) : list hit :=
  match similarities qa query with
  | None => nil
  | Some sims =>
      match collect qa sims (top_indices qa top_k sims) with
      | Some results => results
      | None => nil
      end
  end.

End IRBasedQA.

(** ** Regular expressions, as far as [_extract_order_id] needs them

    A backtracking matcher in the style of [re]: alternatives are tried in
    priority order (greedy repetition first takes as much as it can, an
    optional part is first taken), and the first complete match wins. *)

Module Re.

Inductive atom : Type :=
  | Lit (c : ascii)
  | Ranges (rs : list (ascii * ascii))
  | Space.

Inductive regex : Type :=
  | Eps
  | At (a : atom)
  | Seq (r1 r2 : regex)
  | Opt (r : regex)
  | Star (a : atom)
  | Plus (a : atom)
  | Group (r : regex).

Definition in_range (c : ascii) (r : ascii * ascii) : bool :=
  (nat_of_ascii (fst r) <=? nat_of_ascii c)%nat && (nat_of_ascii c <=? nat_of_ascii (snd r))%nat.

(** [ignorecase] is the flag [re.IGNORECASE]. *)
Definition atom_match (ignorecase : bool) (a : atom) (c : ascii) : bool :=
  match a with
  | Lit c' =>
      if ignorecase then Ascii.eqb (PyStr.lower_char c') (PyStr.lower_char c)
      else Ascii.eqb c' c
  | Ranges rs =>
      if ignorecase
      then existsb (in_range (PyStr.lower_char c)) rs || existsb (in_range (PyStr.upper_char c)) rs
      else existsb (in_range c) rs
  | Space => PyStr.is_space c
  end.

(** The text between two positions of the same string, the second
    given by what is left to read. *)
Definition consumed (s rest : string) : string :=
  String.substring 0 (String.length s - String.length rest) s.

Section Matcher.

Variable ignorecase : bool.
Context {R : Type}.

Fixpoint star (a : atom) (s : string) (k : string -> option R) : option R :=
  match s with
  | String c s' =>
      if atom_match ignorecase a c then
        match star a s' k with
        | Some r => Some r
        | None => k s
        end
      else k s
  | EmptyString => k s
  end.

(** [run r s cap k]: match [r] at the head of [s], then go on with [k]
    on the rest; [cap] is the text of the group so far. *)
Fixpoint run (r : regex) (s : string) (cap : option string)
    (k : string -> option string -> option R) : option R :=
  match r with
  | Eps => k s cap
  | At a =>
      match s with
      | String c s' => if atom_match ignorecase a c then k s' cap else None
      | EmptyString => None
      end
  | Seq r1 r2 => run r1 s cap (fun s1 cap1 => run r2 s1 cap1 k)
  | Opt r1 =>
      match run r1 s cap k with
      | Some x => Some x
      | None => k s cap
      end
  | Star a => star a s (fun s1 => k s1 cap)
  | Plus a =>
      match s with
      | String c s' =>
          if atom_match ignorecase a c then star a s' (fun s1 => k s1 cap) else None
      | EmptyString => None
      end
  | Group r1 => run r1 s cap (fun s1 _ => k s1 (Some (consumed s s1)))
  end.

End Matcher.

(** [re.search]: the first start position with a match, and there the
    text of the group. *)
Fixpoint search (ignorecase : bool) (r : regex) (s : string) : option (option string) :=
  match run ignorecase r s None (fun _ cap => Some cap) with
  | Some cap => Some cap
  | None =>
      match s with
      | String _ s' => search ignorecase r s'
      | EmptyString => None
      end
  end.

Fixpoint literal (s : string) : regex :=
  match s with
  | EmptyString => Eps
  | String c s' => Seq (At (Lit c)) (literal s')
  end.

End Re.

(** ** [dialogue_system.py] *)

Module DialogueSystem.

(** An entry of [conversation_history]; the constructor is the ['type']
    field, the clock reading stands for the ISO timestamp. *)
Inductive turn : Type :=
  | UserTurn (timestamp : Z) (user : string)
  | AssistantTurn (timestamp : Z) (assistant : string) (intent : string) (confidence : Q).

Record t : Type := mk {
  intent_classifier : list IntentClassifier.intent;
  qa_system : IRBasedQA.t;
  response_generator : gmap string (list string);
  order_tracker : OrderTracker.t;
  conversation_history : list turn;
  user_context : gmap string value
}.

(** The constructor: both the classifier and the response generator read
    the intent definitions. *)
Definition __init__ (intents : list IntentClassifier.intent) (qa : IRBasedQA.t)
    (orders : OrderTracker.t) : t :=
  mk intents qa (ResponseGenerator._build_response_map intents) orders nil ∅.

Definition with_history (h : list turn) (ds : t) : t :=
  mk (intent_classifier ds) (qa_system ds) (response_generator ds)
     (order_tracker ds) h (user_context ds).

Definition with_orders (o : OrderTracker.t) (ds : t) : t :=
  mk (intent_classifier ds) (qa_system ds) (response_generator ds)
     o (conversation_history ds) (user_context ds).

(** The pattern [order\s*(?:id)?:?\s*([A-Z0-9]+)]. *)
Definition order_id_pattern : Re.regex :=
  Re.Seq (Re.literal "order")
    (Re.Seq (Re.Star Re.Space)
      (Re.Seq (Re.Opt (Re.literal "id"))
        (Re.Seq (Re.Opt (Re.At (Re.Lit ":")))
          (Re.Seq (Re.Star Re.Space)
            (Re.Group (Re.Plus (Re.Ranges (("A"%char, "Z"%char) :: ("0"%char, "9"%char) :: nil)))))))).

Definition _extract_order_id (text : string) : option string :=
  match Re.search true order_id_pattern text with
  | Some (Some id) => Some id
  | _ => None
  end.

(** [if order_id:] *)
Definition truthy (s : option string) : option string :=
  match s with
  | Some EmptyString => None
  | _ => s
  end.

Definition not_found_reply : string :=
  "I couldn't find your order. Please provide your order ID.".

Definition cannot_cancel_reply : string :=
  "Unable to cancel this order. It may have already shipped.".

Definition _handle_track_order (user_input : string) (ds : t) : string :=
  match truthy (_extract_order_id user_input) with
  | Some order_id =>
      match OrderTracker.get_order order_id (order_tracker ds) with
      | Some order =>
          "Your order " +:+ order_id +:+ " is " +:+ OrderTracker.status order
            +:+ ". Expected delivery: " +:+ OrderTracker.delivery_date order
      | None => not_found_reply
      end
  | None => not_found_reply
  end.

Definition _handle_cancel_item (user_input : string) (ds : t) : string * t :=
  match truthy (_extract_order_id user_input) with
  | Some order_id =>
      match OrderTracker.get_order order_id (order_tracker ds) with
      | Some order =>
          if OrderTracker.eligible order then
            let (_, orders') := OrderTracker.cancel_order order_id (order_tracker ds) in
            ("Order " +:+ order_id +:+ " has been cancelled successfully.",
             with_orders orders' ds)
          else (cannot_cancel_reply, ds)
      | None => (cannot_cancel_reply, ds)
      end
  | None => (cannot_cancel_reply, ds)
  end.

(** The last branch of [_handle_intent]: the best answer of the
    retriever, else the reply for ['default']. *)
Definition _handle_other (rnd : nat) (user_input : string) (ds : t) : outcome string :=
  match IRBasedQA.retrieve (qa_system ds) user_input 1 with
  | h :: _ => Return (IRBasedQA.hit_answer h)
  | nil => ResponseGenerator.generate (response_generator ds) rnd "default" None
  end.

Definition _handle_intent (rnd : nat) (intent user_input : string) (ds : t)
  : outcome string * t :=
  if String.eqb intent "track_order" then (Return (_handle_track_order user_input ds), ds)
  else if String.eqb intent "cancel_item" then
    let (r, ds') := _handle_cancel_item user_input ds in (Return r, ds')
  else if String.eqb intent "greeting" then
    (ResponseGenerator.generate (response_generator ds) rnd intent None, ds)
  else (_handle_other rnd user_input ds, ds).

(** [process_input]; [now_user] and [now_reply] are the two clock
    readings, [rnd] the draw of [random.choice].  An exception leaves
    the user's turn in the history. *)
Definition process_input (now_user now_reply : Z) (rnd : nat) (user_input : string) (ds : t)
  : outcome string * t :=
  let ds1 := with_history (conversation_history ds ++ UserTurn now_user user_input :: nil)%list ds in
  let (intent, confidence) := IntentClassifier.classify (intent_classifier ds1) user_input in
  match _handle_intent rnd intent user_input ds1 with
  | (Raise e, ds2) => (Raise e, ds2)
  | (Return response, ds2) =>
      (Return response,
       with_history (conversation_history ds2
                     ++ AssistantTurn now_reply response intent confidence :: nil)%list ds2)
  end.

Definition get_conversation_history (ds : t) : list turn := conversation_history ds.

Definition clear_history (ds : t) : t := with_history nil ds.

Definition get_context (ds : t) : gmap string value := user_context ds.

Definition set_context (key : string) (v : value) (ds : t) : t :=
  mk (intent_classifier ds) (qa_system ds) (response_generator ds)
     (order_tracker ds) (conversation_history ds) (<[key := v]> (user_context ds)).

End DialogueSystem.

(** ** Vocabulary of the statements about the cache *)

Module CacheSpec.

Import LRUCache.

(** The time-to-live in microseconds. *)
Definition ttl (c : t) : Z := (ttl_seconds c * 1000000)%Z.

(** The time-to-live is one that [timedelta] can hold, that is, one
    from -86399999913600 to 86399999999999 seconds. *)
Definition ttl_valid (c : t) : Prop :=
  timedelta (ttl_seconds c) = Return (ttl c).

(** The entry of [k] is there, stamped, and the expiry test can be made
    and finds at [now] that the time-to-live has not elapsed. *)
Definition live (now : Z) (k : string) (c : t) : Prop :=
  OrderedDict.mem k (cache c) = true
  /\ ttl_valid c
  /\ exists stamp, timestamps c !! k = Some stamp /\ (now - stamp <= ttl c)%Z.

(** If [k] has an entry, the entry holds [None] and has a timestamp. *)
Definition holds_none (k : string) (c : t) : Prop :=
  match OrderedDict.lookup k (cache c) with
  | None => True
  | Some v => v = VNone /\ is_Some (timestamps c !! k)
  end.

(** The timestamps after every key of [kvs] was stamped with [now]. *)
Definition stamp_all (now : Z) (kvs : OrderedDict.t) (ts : gmap string Z) : gmap string Z :=
  fold_left (fun m kv => <[fst kv := now]> m) kvs ts.

End CacheSpec.

(** ** Vocabulary of the statements about the classifier *)

Module IntentSpec.

Import IntentClassifier.
Local Open Scope Q_scope.

(** The score of one intent: the sum over its patterns, in order. *)
Definition total_score (user_input_lower : string) (it : intent) : Q :=
  fold_left (fun acc pattern => acc + pattern_score user_input_lower pattern) (patterns it) 0.

(** Neither the phrase nor any of its words occurs in the input. *)
Definition unmatched (user_input_lower pattern : string) : Prop :=
  PyStr.contains user_input_lower (PyStr.lower pattern) = false
  /\ forall word, List.In word (PyStr.split (PyStr.lower pattern)) ->
                  PyStr.contains user_input_lower word = false.

Definition keys (d : scores) : list string := map fst d.

Definition all_zero (d : scores) : Prop := Forall (fun kv => snd kv == 0) d.

(** Sample definitions, used to run the classifier. *)
Definition sample_intents : list intent :=
  mk_intent "track_order" ("Track my order" :: "where is my order" :: nil)
    ("Let me check that for you." :: nil)
  :: mk_intent "cancel_item" ("Cancel order" :: "cancel my order" :: nil)
    ("I can help you cancel." :: nil)
  :: mk_intent "greeting" ("Hi" :: "Hello" :: "Good day" :: nil)
    ("Hello! How can I help you today?" :: "Hi there!" :: nil)
  :: nil.

End IntentSpec.

(** ** Vocabulary of the statements about the retriever *)

Module RetrievalSpec.

Import IRBasedQA.
Local Open Scope Q_scope.

(** What [np.argsort] promises of its result: it holds the indices of
    the array, each once, and the values at these indices ascend. *)
Definition sorts (f : list Q -> list nat) : Prop :=
  forall sims,
    Permutation (f sims) (seq 0 (List.length sims))
    /\ StronglySorted (fun i j => nth i sims 0 <= nth j sims 0) (f sims).

(** The test [similarities[idx] > 0.1] *)
Definition above (s : Q) : bool :=
  if Qlt_le_dec threshold s then true else false.

(** The indices of the documents that [retrieve] returns: those of
    [top_indices] that pass the test, in the same order. *)
Definition kept_indices (qa : t) (top_k : Z) (sims : list Q) : list nat :=
  List.filter (fun i => above (nth i sims 0)) (top_indices qa top_k sims).

(** The hit built for the document of index [i]. *)
Definition hit_at (qa : t) (sims : list Q) (i : nat) : hit :=
  mk_hit (nth i (questions qa) "") (nth i (answers qa) "") (nth i sims 0).

End RetrievalSpec.

(** ** Sample indexes, to run the retriever

    The scores of these indexes are given, not computed: the vectorizer
    is outside this development.  The index sorts are two insertion sorts
    that both meet the promise of [np.argsort] and differ on equal
    scores. *)

Module RetrievalSamples.

Import IRBasedQA.
Local Open Scope Q_scope.

(** Insertion of a pair (index, score) into a list of such pairs;
    [before x y] says whether the new score [x] goes before the score [y]
    of a pair already placed. *)
Fixpoint insert_by (before : Q -> Q -> bool) (x : nat * Q) (l : list (nat * Q))
  : list (nat * Q) :=
  match l with
  | nil => x :: nil
  | y :: l' => if before (snd x) (snd y) then x :: l else y :: insert_by before x l'
  end.

Fixpoint sort_by (before : Q -> Q -> bool) (l : list (nat * Q)) : list (nat * Q) :=
  match l with
  | nil => nil
  | x :: l' => insert_by before x (sort_by before l')
  end.

Definition enumerate (sims : list Q) : list (nat * Q) :=
  combine (seq 0 (List.length sims)) sims.

Definition argsort_by (before : Q -> Q -> bool) (sims : list Q) : list nat :=
  map fst (sort_by before (enumerate sims)).

(** The new score goes before an equal one: equal scores keep the order
    of their indices. *)
Definition before_or_equal (x y : Q) : bool := Qle_bool x y.

(** The new score goes after an equal one: equal scores get the reverse
    of the order of their indices. *)
Definition strictly_before (x y : Q) : bool := negb (Qle_bool y x).

Definition ties_ascending : list Q -> list nat := argsort_by before_or_equal.
Definition ties_descending : list Q -> list nat := argsort_by strictly_before.

Definition three_scores : list Q := (2 # 10) :: (9 # 10) :: (5 # 100) :: nil.

(** An index of three questions that gives every query the scores
    [three_scores]. *)
Definition three_docs : t :=
  mk (mk_faq "How do I return an item?" "Use the returns page."
      :: mk_faq "How long does shipping take?" "3-5 business days."
      :: mk_faq "Do you ship abroad?" "Yes."
      :: nil)
     (fun _ => Some three_scores)
     ties_ascending.

(** Two entries with the same question and different answers, to
    observe what becomes of a tie: whatever score the query gets against
    the question, [score query], both entries get it. *)
Definition tied_docs (score : string -> Q) (argsort : list Q -> list nat) : t :=
  mk (mk_faq "How long does shipping take?" "3-5 business days."
      :: mk_faq "How long does shipping take?" "About a week."
      :: nil)
     (fun query => Some (score query :: score query :: nil))
     argsort.

End RetrievalSamples.

(** ** Vocabulary of the statements about order-id extraction *)

Module ReSpec.

Import Re.

(** The matches of a regular expression, without priorities:
    [steps ic r s cap s' cap'] when [r] matches a prefix of [s], leaves
    [s'] and turns the group text [cap] into [cap']. *)
Inductive steps (ic : bool) : regex -> string -> option string -> string -> option string -> Prop :=
  | steps_eps s cap : steps ic Eps s cap s cap
  | steps_at a c s cap :
      atom_match ic a c = true -> steps ic (At a) (String c s) cap s cap
  | steps_seq r1 r2 s cap s1 cap1 s2 cap2 :
      steps ic r1 s cap s1 cap1 -> steps ic r2 s1 cap1 s2 cap2 ->
      steps ic (Seq r1 r2) s cap s2 cap2
  | steps_opt_take r s cap s1 cap1 :
      steps ic r s cap s1 cap1 -> steps ic (Opt r) s cap s1 cap1
  | steps_opt_skip r s cap : steps ic (Opt r) s cap s cap
  | steps_star_stop a s cap : steps ic (Star a) s cap s cap
  | steps_star_more a c s cap s1 :
      atom_match ic a c = true -> steps ic (Star a) s cap s1 cap ->
      steps ic (Star a) (String c s) cap s1 cap
  | steps_plus a c s cap s1 :
      atom_match ic a c = true -> steps ic (Star a) s cap s1 cap ->
      steps ic (Plus a) (String c s) cap s1 cap
  | steps_group r s cap s1 cap1 :
      steps ic r s cap s1 cap1 -> steps ic (Group r) s cap s1 (Some (consumed s s1)).

(** Every character of [s] passes the test [p]. *)
Fixpoint all_chars (p : ascii -> bool) (s : string) : bool :=
  match s with
  | EmptyString => true
  | String c s' => p c && all_chars p s'
  end.

(** A letter or a digit. *)
Definition is_alnum (c : ascii) : bool :=
  PyStr.is_upper c || PyStr.is_lower c || PyStr.is_digit c.

(** The pattern as the specification words it: the word order, an
    optional id, an optional colon, optional blanks, then the group of
    letters and digits.  It has no blanks between order and id. *)
Definition worded_pattern : regex :=
  Seq (literal "order")
    (Seq (Opt (literal "id"))
      (Seq (Opt (At (Lit ":")))
        (Seq (Star Space)
          (Group (Plus (Ranges (("A"%char, "Z"%char) :: ("0"%char, "9"%char) :: nil))))))).

(** Extraction with an arbitrary pattern, as [_extract_order_id] does it. *)
Definition extract_with (r : regex) (text : string) : option string :=
  match search true r text with
  | Some (Some id) => Some id
  | _ => None
  end.

End ReSpec.

(** ** Vocabulary of the statements about the dialogue *)

Module DialogueSpec.

Import DialogueSystem.

(** The two lists of templates that [_handle_intent] can draw from, the
    one of [greeting] and the one of [default], have a template when they
    are registered, and none of their templates is the empty text. *)
Definition templates_usable (response_map : gmap string (list string)) : Prop :=
  forall tag responses,
    tag = "greeting" \/ tag = "default" ->
    response_map !! tag = Some responses ->
    responses <> nil /\ forall r, List.In r responses -> r <> "".

(** No answer of the corpus is the empty text. *)
Definition answers_present (qa : IRBasedQA.t) : Prop :=
  forall f, List.In f (IRBasedQA.faqs qa) -> IRBasedQA.answer f <> "".

(** A system with the sample intents, the three-question index and one
    pending order. *)
Definition sample_system : t :=
  __init__ IntentSpec.sample_intents RetrievalSamples.three_docs
    (OrderTracker.mk_order "ORD001" "C1" "pending" "2024-01-10" :: nil).

(** Intent definitions whose only intent has a template and is not the
    greeting. *)
Definition shipping_intents : list IntentClassifier.intent :=
  IntentClassifier.mk_intent "shipping_info" ("shipping" :: nil)
    ("We ship worldwide." :: nil) :: nil.

(** A system with these definitions and an index of one question, with
    whatever the two library routines of the index return. *)
Definition shipping_system (similarities : string -> option (list Q))
    (argsort : list Q -> list nat) : t :=
  __init__ shipping_intents
    (IRBasedQA.mk
       (IRBasedQA.mk_faq "How long does shipping take?" "3-5 business days." :: nil)
       similarities argsort)
    nil.

End DialogueSpec.

(** ** Sequences of cache calls *)

Module CacheOps.

(** A call of one of the three public methods of the cache. *)
Inductive op : Type :=
  | Get (key : string)
  | Put (key : string) (v : value)
  | Clear.

(** The cache after the call made at clock reading [now]; an exception
    leaves the cache as the method left it when it raised. *)
Definition apply_op (now : Z) (o : op) (c : LRUCache.t) : LRUCache.t :=
  match o with
  | Get key => snd (LRUCache.get now key c)
  | Put key v => snd (LRUCache.put now key v c)
  | Clear => LRUCache.clear c
  end.

(** The cache after a sequence of calls, each with its clock reading. *)
Definition run (calls : list (Z * op)) (c : LRUCache.t) : LRUCache.t :=
  fold_left (fun c call => apply_op (fst call) (snd call) c) calls c.

Definition is_get (o : op) : bool :=
  match o with Get _ => true | _ => false end.

(** How many of the calls are calls of [get]. *)
Definition gets (calls : list (Z * op)) : nat :=
  List.length (List.filter (fun call => is_get (snd call)) calls).

End CacheOps.

(** ** Well-formed score tables *)

Module ScoreSpec.

Import IntentClassifier.
Local Open Scope Q_scope.

(** Scores are not negative and belong to registered tags. *)
Definition sound_scores (intents : list intent) (d : scores) : Prop :=
  Forall (fun kv => 0 <= snd kv /\ List.In (fst kv) (map tag intents)) d.

End ScoreSpec.


(** ** Templates and their placeholders *)

Module TemplateSpec.

(** Any character but the opening brace of a placeholder. *)
Definition not_brace (c : ascii) : bool := negb (Ascii.eqb c "{"%char).

(** A response map with one template that has a placeholder. *)
Definition welcome_map : gmap string (list string) :=
  {[ "welcome" := "Hello {name}, how can I help?" :: nil ]}.

End TemplateSpec.

(** ** Vocabulary of the statements about a conversation *)

Module ConversationSpec.

Import DialogueSystem.

(** The only change between two stores: some orders that were pending
    or processing are now cancelled. *)
Definition only_cancelled (orders orders' : OrderTracker.t) : Prop :=
  Forall2 (fun o o' =>
             o' = o
             \/ (OrderTracker.eligible o = true
                 /\ o' = OrderTracker.set_status "cancelled" o))
    orders orders'.

(** One message of the user with what the call reads from the world:
    the two clock readings and the random draw. *)
Record message : Type := mk_message {
  now_user : Z;
  now_reply : Z;
  rnd : nat;
  text : string
}.

(** The system after the messages were processed in turn; a call that
    raises leaves the system as it was when it raised. *)
Definition converse (messages : list message) (ds : t) : t :=
  fold_left
    (fun ds m => snd (process_input (now_user m) (now_reply m) (rnd m) (text m) ds))
    messages ds.

End ConversationSpec.

(** ** The order-id pattern in two parts *)

Module ExtractSpec.

Import Re.

(** What the pattern asks for after the word order. *)
Definition after_order : regex :=
  Seq (Star Space)
    (Seq (Opt (literal "id"))
      (Seq (Opt (At (Lit ":")))
        (Seq (Star Space)
          (Group (Plus (Ranges (("A"%char, "Z"%char) :: ("0"%char, "9"%char) :: nil))))))).

(** The continuation of [search]: the match is complete. *)
Definition done {A : Type} (rest : string) (cap : A) : option A := Some cap.

End ExtractSpec.

(** ** [api_wrapper.py] *)

Module ChatbotAPIWrapper.

(** The dictionary that [process_message] returns: the one with
    ['success': True] or the one with ['success': False], where the
    exception stands for its text. *)
Inductive result : Type :=
  | Success (user_id : string) (timestamp : Z) (response : string) (session_id : string)
  | Failure (error : exn) (timestamp : Z).

(** What one call reads from the world: the clock readings of
    [process_input], the one of the result and the one of the session
    id, and the random draw. *)
Record world : Type := mk_world {
  now_user : Z;
  now_reply : Z;
  now_result : Z;
  now_session : Z;
  rnd : nat
}.

(** [session_id or self._generate_session_id(user_id)]; [digest] stands
    for the MD5 digest of the user id and the clock reading. *)
Definition session_or_new (digest : string -> Z -> string) (w : world)
    (user_id : string) (session_id : option string) : string :=
  match session_id with
  | Some (String c s) => String c s
  | _ => digest user_id (now_session w)
  end.

Definition process_message (digest : string -> Z -> string) (w : world)
    (user_id message : string) (session_id : option string) (chatbot : DialogueSystem.t)
  : result * DialogueSystem.t :=
  match DialogueSystem.process_input (now_user w) (now_reply w) (rnd w) message chatbot with
  | (Return response, chatbot') =>
      (Success user_id (now_result w) response
         (session_or_new digest w user_id session_id), chatbot')
  | (Raise e, chatbot') => (Failure e (now_result w), chatbot')
  end.

Definition track_order (digest : string -> Z -> string) (w : world)
    (user_id order_id : string) (chatbot : DialogueSystem.t) : result * DialogueSystem.t :=
  process_message digest w user_id ("Track my order " +:+ order_id) None chatbot.

Definition cancel_order (digest : string -> Z -> string) (w : world)
    (user_id order_id : string) (chatbot : DialogueSystem.t) : result * DialogueSystem.t :=
  process_message digest w user_id ("Cancel order " +:+ order_id) None chatbot.

Definition get_faq (digest : string -> Z -> string) (w : world)
    (user_id query : string) (chatbot : DialogueSystem.t) : result * DialogueSystem.t :=
  process_message digest w user_id query None chatbot.

(** The response of a successful result. *)
Definition response_of (r : result) : option string :=
  match r with
  | Success _ _ response _ => Some response
  | Failure _ _ => None
  end.

End ChatbotAPIWrapper.

(** ** [performance_tuning.py]: the query optimizer *)

Module QueryOptimizer.

(** [range(0, n, step)] for a length [n]; [None] is the [ValueError] of
    a step 0, and a negative step gives the empty range. *)
Definition range_from_zero (n : nat) (step : Z) : option (list nat) :=
  if (step =? 0)%Z then None
  else if (step <? 0)%Z then Some nil
  else
    let s := Z.to_nat step in
    Some (map (fun j => (j * s)%nat) (seq 0 ((n + s - 1) / s))).

(** [l[i:j]] for two indices that are not negative. *)
Definition slice {A : Type} (l : list A) (i j : nat) : list A :=
  firstn (j - i) (skipn i l).

Definition batch_order_queries (order_ids : list string) (batch_size : Z)
  : option (list (list string)) :=
  match range_from_zero (List.length order_ids) batch_size with
  | None => None
  | Some starts =>
      Some (map (fun i => slice order_ids i (i + Z.to_nat batch_size)) starts)
  end.

(** [s.lstrip()], [s.rstrip()] and [s.strip()] without argument. *)
Fixpoint lstrip (s : string) : string :=
  match s with
  | EmptyString => EmptyString
  | String c s' => if PyStr.is_space c then lstrip s' else s
  end.

Fixpoint rstrip (s : string) : string :=
  match s with
  | EmptyString => EmptyString
  | String c s' =>
      match rstrip s' with
      | EmptyString => if PyStr.is_space c then EmptyString else String c EmptyString
      | r => String c r
      end
  end.

Definition strip (s : string) : string := rstrip (lstrip s).

(** [top_k] is not used by the source. *)
Definition optimize_intent_classification (text : string) (top_k : Z) : string :=
  let text := if (500 <? String.length text)%nat then String.substring 0 500 text else text in
  strip (PyStr.lower text).

End QueryOptimizer.

(** ** Vocabulary of the statements about stripped text *)

Module StripSpec.

(** Nothing to strip on the left: the text is empty or begins with a
    character that is not a blank. *)
Definition clean_head (s : string) : Prop :=
  match s with
  | EmptyString => True
  | String c _ => PyStr.is_space c = false
  end.

End StripSpec.

(** ** [performance_tuning.py]: the connection pool *)

Module ConnectionPool.

Local Open Scope Z_scope.

(** The fields of the pool; a connection is any value. *)
Record t : Type := mk {
  pool_size : Z;
  available_connections : list value;
  active_connections : Z;
  max_connections : Z
}.

Definition __init__ (pool_size : Z) : t := mk pool_size nil 0 (pool_size * 2).

(** [l.pop()] on a list that is not empty: its last element and the
    elements before it. *)
Definition pop (l : list value) : option (value * list value) :=
  match rev l with
  | nil => None
  | x :: before => Some (x, rev before)
  end.

(** [get_connection].  [elapsed] lists the values of
    [time.time() - start_time] that the successive tests of the loop
    read, as rationals; between two tests the source sleeps.  When the
    list ends the run is cut there, the pool being as it was. *)
Fixpoint get_connection (elapsed : list Q) (timeout : Q) (p : t) : option value * t :=
  match elapsed with
  | nil => (None, p)
  | e :: later =>
      if Qlt_le_dec e timeout then
        match pop (available_connections p) with
        | Some (connection, others) =>
            (Some connection,
             mk (pool_size p) others (active_connections p + 1) (max_connections p))
        | None => get_connection later timeout p
        end
      else (None, p)
  end.

Definition release_connection (connection : value) (p : t) : t :=
  let active := if 0 <? active_connections p then active_connections p - 1
                else active_connections p in
  let available :=
    if Z.of_nat (List.length (available_connections p)) <? pool_size p
    then (available_connections p ++ connection :: nil)%list
    else available_connections p in
  mk (pool_size p) available active (max_connections p).

(** The dictionary of [get_pool_stats], in the order of its keys:
    available, active, pool_size, total. *)
Definition get_pool_stats (p : t) : Z * Z * Z * Z :=
  (Z.of_nat (List.length (available_connections p)),
   active_connections p,
   pool_size p,
   Z.of_nat (List.length (available_connections p)) + active_connections p).

(** A call of one of the two methods that change the pool. *)
Inductive op : Type :=
  | Acquire (elapsed : list Q) (timeout : Q)
  | Release (connection : value).

Definition apply_op (o : op) (p : t) : t :=
  match o with
  | Acquire elapsed timeout => snd (get_connection elapsed timeout p)
  | Release connection => release_connection connection p
  end.

Definition run (calls : list op) (p : t) : t :=
  fold_left (fun p o => apply_op o p) calls p.

End ConnectionPool.

(** ** Vocabulary of the statements about the pool *)

Module PoolSpec.

Import ConnectionPool.
Local Open Scope Z_scope.

(** The pool is within its size. *)
Definition within_size (p : t) : Prop :=
  0 <= active_connections p
  /\ Z.of_nat (List.length (available_connections p)) + active_connections p <= pool_size p.

End PoolSpec.

(** ** [intent_classifier.py]: the keyword map *)

Module KeywordMap.

Import IntentClassifier.

(** The body of the innermost loop: the list of the keyword, created
    empty when the keyword is new, gets the name of the intent. *)
Definition add_keyword (intent_name : string) (keyword_map : gmap string (list string))
    (keyword : string) : gmap string (list string) :=
  <[keyword := (default nil (keyword_map !! keyword) ++ intent_name :: nil)%list]> keyword_map.

Definition add_pattern (intent_name : string) (keyword_map : gmap string (list string))
    (pattern : string) : gmap string (list string) :=
  fold_left (add_keyword intent_name) (PyStr.split (PyStr.lower pattern)) keyword_map.

Definition add_intent (keyword_map : gmap string (list string)) (it : intent)
  : gmap string (list string) :=
  fold_left (add_pattern (tag it)) (patterns it) keyword_map.

Definition _build_keyword_map (intents : list intent) : gmap string (list string) :=
  fold_left add_intent intents ∅.

(** The intents listed for a keyword, none when the keyword is not a key. *)
Definition intents_of (keyword_map : gmap string (list string)) (keyword : string)
  : list string :=
  default nil (keyword_map !! keyword).

End KeywordMap.

(** * Properties *)

(** ** The ordered dictionary *)

Section OrderedDictFacts.

Import OrderedDict.

Lemma mem_lookup (k : string) (d : t) :
  mem k d = true <-> is_Some (lookup k d).
Proof.
  induction d as [|[k' v'] d IH]; simpl.
  - split; [discriminate | intros [? ?]; discriminate].
  - destruct (String.eqb k' k); simpl; [split; eauto | exact IH].
Qed.

Lemma mem_false_lookup (k : string) (d : t) :
  mem k d = false <-> lookup k d = None.
Proof.
  induction d as [|[k' v'] d IH]; simpl.
  - split; reflexivity.
  - destruct (String.eqb k' k); simpl; [split; discriminate | exact IH].
Qed.

Lemma mem_del_eq (k : string) (d : t) : mem k (del k d) = false.
Proof.
  induction d as [|[k' v'] d IH]; simpl; [reflexivity|].
  destruct (String.eqb k' k) eqn:E; simpl; [exact IH | now rewrite E].
Qed.

Lemma mem_app (k : string) (d1 d2 : t) :
  mem k (d1 ++ d2)%list = mem k d1 || mem k d2.
Proof. unfold mem. apply existsb_app. Qed.

Lemma lookup_app_absent (k : string) (d1 d2 : t) :
  mem k d1 = false -> lookup k (d1 ++ d2)%list = lookup k d2.
Proof.
  induction d1 as [|[k' v'] d1 IH]; simpl; [reflexivity|].
  destruct (String.eqb k' k); simpl; [discriminate | exact IH].
Qed.

Lemma set_absent (k : string) (v : value) (d : t) :
  mem k d = false -> set k v d = (d ++ (k, v) :: nil)%list.
Proof.
  induction d as [|[k' v'] d IH]; simpl; [reflexivity|].
  destruct (String.eqb k' k); simpl; [discriminate|].
  intros H. now rewrite IH.
Qed.

Lemma lookup_set_eq (k : string) (v : value) (d : t) :
  lookup k (set k v d) = Some v.
Proof.
  induction d as [|[k' v'] d IH]; simpl.
  - now rewrite String.eqb_refl.
  - destruct (String.eqb k' k) eqn:E; simpl; now rewrite E.
Qed.

Lemma lookup_move_to_end (k : string) (d : t) :
  lookup k (move_to_end k d) = lookup k d.
Proof.
  unfold move_to_end. destruct (lookup k d) as [v|] eqn:E; [|exact E].
  rewrite lookup_app_absent by apply mem_del_eq.
  simpl. now rewrite String.eqb_refl.
Qed.

Lemma mem_move_to_end (k : string) (d : t) :
  mem k (move_to_end k d) = mem k d.
Proof.
  destruct (mem k d) eqn:E.
  - apply mem_lookup. rewrite lookup_move_to_end. now apply mem_lookup.
  - apply mem_false_lookup. rewrite lookup_move_to_end. now apply mem_false_lookup.
Qed.

End OrderedDictFacts.

(** ** The cache *)

Section LRUCacheFacts.

Import LRUCache CacheSpec.

(** The seconds that [timedelta] accepts. *)
Lemma timedelta_range (s : Z) :
  timedelta s = Return (s * 1000000)%Z
  <-> (-86399999913600 <= s < 86400000000000)%Z.
Proof.
  unfold timedelta.
  pose proof (Z.div_mod s 86400 ltac:(lia)) as Hdm.
  pose proof (Z.mod_pos_bound s 86400 ltac:(lia)) as Hmod.
  destruct (Z.leb_spec (Z.abs (s / 86400)) 999999999) as [Hle | Hgt].
  - split; [intros _; lia | reflexivity].
  - split; [discriminate | intros Hr; lia].
Qed.

Lemma test_absent (now : Z) (k : string) (c : t) :
  OrderedDict.mem k (cache c) = false -> absent_or_expired now k c = Return true.
Proof. unfold absent_or_expired. now intros ->. Qed.

Lemma test_unstamped (now : Z) (k : string) (c : t) :
  timestamps c !! k = None -> absent_or_expired now k c = Return true.
Proof.
  unfold absent_or_expired, _is_expired. intros ->.
  now destruct (negb (OrderedDict.mem k (cache c))).
Qed.

Lemma test_stamped (now stamp : Z) (k : string) (c : t) :
  OrderedDict.mem k (cache c) = true ->
  timestamps c !! k = Some stamp ->
  ttl_valid c ->
  absent_or_expired now k c = Return (ttl c <? now - stamp)%Z.
Proof.
  unfold absent_or_expired, _is_expired, ttl_valid. now intros -> -> ->.
Qed.

(** The only exception of the test is the one of [timedelta]. *)
Lemma test_raises (now : Z) (k : string) (c : t) (e : exn) :
  absent_or_expired now k c = Raise e -> e = OverflowError /\ ~ ttl_valid c.
Proof.
  unfold absent_or_expired, _is_expired, ttl_valid, timedelta.
  destruct (negb (OrderedDict.mem k (cache c))); [discriminate|].
  destruct (timestamps c !! k); [|discriminate].
  destruct (Z.abs (ttl_seconds c / 86400) <=? 999999999)%Z; [discriminate|].
  intros [= <-]. split; [reflexivity | discriminate].
Qed.

Lemma put_keeps_settings (now : Z) (k : string) (v : value) (c : t) :
  max_size (snd (put now k v c)) = max_size c
  /\ ttl_seconds (snd (put now k v c)) = ttl_seconds c
  /\ cache_hits (snd (put now k v c)) = cache_hits c
  /\ cache_misses (snd (put now k v c)) = cache_misses c.
Proof.
  unfold put. destruct (OrderedDict.mem k (cache c)); [now repeat split|].
  destruct (max_size c <=? _)%Z; [|now repeat split].
  unfold evict. destruct (cache c) as [|kv0 [|[rk rv] rest]]; try now repeat split.
  cbn [with_cache timestamps]. destruct (timestamps c !! rk); now repeat split.
Qed.

Lemma get_keeps_settings (now : Z) (k : string) (c : t) :
  max_size (snd (get now k c)) = max_size c
  /\ ttl_seconds (snd (get now k c)) = ttl_seconds c.
Proof.
  unfold get.
  destruct (absent_or_expired now k c) as [[|]|e]; [| |now split].
  - cbn [count_miss cache]. destruct (OrderedDict.mem k (cache c)); [|now split].
    cbn [with_cache count_miss timestamps]. destruct (timestamps c !! k); split; reflexivity.
  - cbn [count_hit with_cache cache].
    destruct (OrderedDict.lookup k (OrderedDict.move_to_end k (cache c))); split; reflexivity.
Qed.

Lemma put_keeps_ttl_valid (now : Z) (k : string) (v : value) (c : t) :
  ttl_valid c -> ttl_valid (snd (put now k v c)).
Proof.
  unfold ttl_valid, ttl.
  destruct (put_keeps_settings now k v c) as (_ & -> & _). auto.
Qed.

Lemma get_keeps_ttl_valid (now : Z) (k : string) (c : t) :
  ttl_valid c -> ttl_valid (snd (get now k c)).
Proof.
  unfold ttl_valid, ttl.
  destruct (get_keeps_settings now k c) as (_ & ->). auto.
Qed.

(** A live entry is read back, moved to the end and counted as a hit. *)
Lemma get_live (now stamp : Z) (k : string) (v : value) (c : t) :
  OrderedDict.lookup k (cache c) = Some v ->
  timestamps c !! k = Some stamp ->
  ttl_valid c ->
  (now - stamp <= ttl c)%Z ->
  get now k c
  = (Return v, count_hit (with_cache (OrderedDict.move_to_end k (cache c)) c)).
Proof.
  intros Hl Hts Hv Hage.
  assert (Hmem : OrderedDict.mem k (cache c) = true) by (apply mem_lookup; eauto).
  unfold get. rewrite (test_stamped now stamp k c Hmem Hts Hv).
  destruct (Z.ltb_spec (ttl c) (now - stamp)) as [Hbad|_]; [lia|].
  cbn [count_hit with_cache cache]. now rewrite lookup_move_to_end, Hl.
Qed.

(** What [put] leaves behind for its key: the value with a fresh
    timestamp when it returns, no entry at all when it raises. *)
Lemma put_key (now : Z) (k : string) (v : value) (c : t) :
  (fst (put now k v c) = Return tt
   /\ OrderedDict.lookup k (cache (snd (put now k v c))) = Some v
   /\ timestamps (snd (put now k v c)) !! k = Some now)
  \/ ((exists e, fst (put now k v c) = Raise e)
      /\ OrderedDict.mem k (cache c) = false
      /\ OrderedDict.mem k (cache (snd (put now k v c))) = false).
Proof.
  unfold put.
  destruct (OrderedDict.mem k (cache c)) eqn:Hmem.
  { left. simpl. rewrite lookup_set_eq, lookup_insert_eq. auto. }
  destruct (max_size c <=? _)%Z.
  2:{ left. simpl. rewrite lookup_set_eq, lookup_insert_eq. auto. }
  unfold evict.
  destruct (cache c) as [|kv0 rest] eqn:Hc.
  { right. simpl. rewrite Hc. eauto. }
  destruct rest as [|[rk rv] rest'].
  { right. simpl. eauto. }
  left. cbn [with_cache timestamps cache].
  destruct (timestamps c !! rk); cbn [fst snd store with_cache with_timestamps timestamps cache];
    rewrite lookup_set_eq, lookup_insert_eq; auto.
Qed.

End LRUCacheFacts.

Section MemoFacts.

Import LRUCache CacheSpec CacheResult.

Context {A : Type}.
Variable make_key : A -> string.
Variable func : A -> value.

Lemma holds_none_put (now : Z) (k : string) (c : t) :
  holds_none k (snd (put now k VNone c)).
Proof.
  unfold holds_none.
  destruct (put_key now k VNone c) as [(_ & Hl & Ht) | (_ & _ & Hm)].
  - rewrite Hl, Ht. eauto.
  - apply mem_false_lookup in Hm. now rewrite Hm.
Qed.

Lemma get_absent (now : Z) (k : string) (c : t) :
  OrderedDict.mem k (cache c) = false -> fst (get now k c) = Return VNone.
Proof.
  intros Hm. unfold get. rewrite (test_absent now k c Hm).
  cbn [count_miss cache]. now rewrite Hm.
Qed.

Lemma get_holds_none (now : Z) (k : string) (c : t) :
  ttl_valid c -> holds_none k c -> fst (get now k c) = Return VNone.
Proof.
  unfold holds_none. intros Hv H.
  destruct (OrderedDict.mem k (cache c)) eqn:Hm; [|now apply get_absent].
  pose proof Hm as Hl. apply mem_lookup in Hl. destruct Hl as [v Hl].
  rewrite Hl in H. destruct H as [-> [stamp Hs]].
  unfold get. rewrite (test_stamped now stamp k c Hm Hs Hv).
  destruct (ttl c <? now - stamp)%Z.
  - cbn [count_miss cache]. rewrite Hm.
    cbn [with_cache count_miss timestamps]. now rewrite Hs.
  - cbn [count_hit with_cache cache]. now rewrite lookup_move_to_end, Hl.
Qed.

(** One call on arguments whose result is [None] runs the function and
    leaves the entry, if any, holding [None]. *)
Lemma wrapper_recomputes (now_get now_put : Z) (args : A) (st : state) :
  func args = VNone ->
  ttl_valid (memo st) ->
  holds_none (make_key args) (memo st) ->
  calls (snd (wrapper make_key func now_get now_put args st)) = S (calls st)
  /\ ttl_valid (memo (snd (wrapper make_key func now_get now_put args st)))
  /\ holds_none (make_key args) (memo (snd (wrapper make_key func now_get now_put args st))).
Proof.
  intros Hf Hv Hn. unfold wrapper.
  pose proof (get_holds_none now_get _ _ Hv Hn) as Hg.
  pose proof (get_keeps_ttl_valid now_get (make_key args) _ Hv) as Hv1.
  destruct (get now_get (make_key args) (memo st)) as [o c1]. simpl in Hg, Hv1. subst o.
  cbn [is_none negb]. rewrite Hf.
  pose proof (holds_none_put now_put (make_key args) c1) as Hp.
  pose proof (put_keeps_ttl_valid now_put (make_key args) VNone c1 Hv1) as Hv2.
  destruct (put now_put (make_key args) VNone c1) as [[u|e] c2]; simpl in *; auto.
Qed.

Lemma repeat_calls_recompute (clock : list (Z * Z)) (args : A) (st : state) :
  func args = VNone ->
  ttl_valid (memo st) ->
  holds_none (make_key args) (memo st) ->
  calls (repeat_calls make_key func clock args st) = (calls st + List.length clock)%nat.
Proof.
  intros Hf. revert st.
  induction clock as [|[t1 t2] clock IH]; intros st Hv Hn; simpl.
  - lia.
  - destruct (wrapper_recomputes t1 t2 args st Hf Hv Hn) as (Hc & Hv' & Hn').
    rewrite IH by assumption. rewrite Hc. lia.
Qed.

(** C10.  When the entry stored under a live key is [None], [get]
    returns [None], exactly what it returns for a key that has no entry;
    and a decorated function whose result on some arguments is [None]
    is executed again by every later call on these arguments, whatever
    the clock says: the stored [None] is never served.  A live key is
    one whose expiry test can be made and answers no, so the time-to-live
    is one that [timedelta] holds. *)
Theorem none_result_is_never_served (args : A) (st : state) (now : Z) :
  func args = VNone ->
  OrderedDict.lookup (make_key args) (cache (memo st)) = Some VNone ->
  live now (make_key args) (memo st) ->
  fst (get now (make_key args) (memo st)) = Return VNone
  /\ (forall c', OrderedDict.mem (make_key args) (cache c') = false ->
                 fst (get now (make_key args) c') = Return VNone)
  /\ (forall clock,
        calls (repeat_calls make_key func clock args st)
        = (calls st + List.length clock)%nat).
Proof.
  intros Hf Hl (Hm & Hv & stamp & Hs & Hage).
  assert (Hn : holds_none (make_key args) (memo st)).
  { unfold holds_none. rewrite Hl, Hs. eauto. }
  split; [|split].
  - now apply get_holds_none.
  - intros c' Hc'. now apply get_absent.
  - intros clock. now apply repeat_calls_recompute.
Qed.

End MemoFacts.

Lemma none_result_is_never_served_witness :
  let st := CacheResult.mk_state
              (snd (LRUCache.put 0 "k" VNone (LRUCache.__init__ 2 3600))) 1 in
  fst (LRUCache.get 5 "k" (CacheResult.memo st)) = Return VNone
  /\ (forall c', OrderedDict.mem "k" (LRUCache.cache c') = false ->
                 fst (LRUCache.get 5 "k" c') = Return VNone)
  /\ (forall clock,
        CacheResult.calls
          (CacheResult.repeat_calls (fun a : string => a) (fun _ => VNone) clock "k" st)
        = (CacheResult.calls st + List.length clock)%nat).
Proof.
  apply (none_result_is_never_served (fun a : string => a) (fun _ => VNone) "k").
  - reflexivity.
  - reflexivity.
  - split; [reflexivity|]. split; [reflexivity|].
    exists 0%Z. split; [reflexivity|]. vm_compute. discriminate.
Defined.

(** ** Filling the cache past its capacity *)

Section OverflowFacts.

Import LRUCache CacheSpec.

Lemma mem_false_not_in (k : string) (d : OrderedDict.t) :
  OrderedDict.mem k d = false <-> ~ List.In k (OrderedDict.keys d).
Proof.
  unfold OrderedDict.keys.
  induction d as [|[k' v'] d IH]; simpl.
  - tauto.
  - destruct (String.eqb_spec k' k) as [->|Hne]; simpl.
    + split; [discriminate | tauto].
    + rewrite IH. tauto.
Qed.

Lemma lookup_in_nodup (k : string) (v : value) (d : OrderedDict.t) :
  List.NoDup (OrderedDict.keys d) -> List.In (k, v) d -> OrderedDict.lookup k d = Some v.
Proof.
  unfold OrderedDict.keys.
  induction d as [|[k' v'] d IH]; simpl; [tauto|].
  intros Hnd [Heq | Hin].
  - inversion Heq; subst. now rewrite String.eqb_refl.
  - apply NoDup_cons_iff in Hnd. destruct Hnd as [Hk' Hnd].
    destruct (String.eqb_spec k' k) as [->|Hne].
    + exfalso. apply Hk'. apply in_map_iff. now exists (k, v).
    + now apply IH.
Qed.

Lemma stamp_all_in (now : Z) (kvs : OrderedDict.t) (ts : gmap string Z) (k : string) :
  List.In k (OrderedDict.keys kvs) -> stamp_all now kvs ts !! k = Some now.
Proof.
  unfold stamp_all, OrderedDict.keys. revert ts.
  induction kvs as [|[k' v'] kvs IH]; simpl; [tauto|].
  intros ts [-> | Hin]; [|now apply IH].
  destruct (in_dec String.string_dec k (map fst kvs)) as [Hin | Hnot]; [now apply IH|].
  clear IH. revert ts.
  induction kvs as [|[k2 v2] kvs IH]; intros ts; simpl.
  - apply lookup_insert_eq.
  - simpl in Hnot. rewrite insert_insert_ne by tauto. apply IH. tauto.
Qed.

Lemma put_all_app (now : Z) (l1 l2 : OrderedDict.t) (c : t) :
  put_all now (l1 ++ l2)%list c
  = match put_all now l1 c with
    | (Return _, c1) => put_all now l2 c1
    | (Raise e, c1) => (Raise e, c1)
    end.
Proof.
  revert c. induction l1 as [|[k v] l1 IH]; intros c; simpl; [reflexivity|].
  destruct (put now k v c) as [[u|e] c1]; [apply IH | reflexivity].
Qed.

(** While there is room, distinct keys are appended in order, each with
    its timestamp. *)
Lemma put_all_fill (now : Z) (kvs : OrderedDict.t) (c : t) :
  List.NoDup (OrderedDict.keys (cache c ++ kvs)%list) ->
  (Z.of_nat (List.length (cache c) + List.length kvs) <= max_size c)%Z ->
  put_all now kvs c
  = (Return tt,
     mk (max_size c) (ttl_seconds c) (cache c ++ kvs)%list
        (stamp_all now kvs (timestamps c)) (cache_hits c) (cache_misses c)).
Proof.
  revert c. induction kvs as [|[k v] kvs IH]; intros c Hnd Hlen.
  - simpl. rewrite app_nil_r. now destruct c.
  - assert (Hm : OrderedDict.mem k (cache c) = false).
    { apply mem_false_not_in. unfold OrderedDict.keys in *.
      rewrite map_app in Hnd. simpl in Hnd.
      apply NoDup_remove_2 in Hnd. rewrite in_app_iff in Hnd. tauto. }
    simpl put_all. unfold put. rewrite Hm.
    destruct (Z.leb_spec (max_size c) (Z.of_nat (List.length (cache c)))) as [Hfull|_].
    { simpl in Hlen. lia. }
    rewrite IH.
    + cbn [store with_cache with_timestamps max_size ttl_seconds cache timestamps
             cache_hits cache_misses].
      rewrite (set_absent _ _ _ Hm), <- app_assoc. reflexivity.
    + cbn [store with_cache with_timestamps cache].
      rewrite (set_absent _ _ _ Hm), <- app_assoc. exact Hnd.
    + cbn [store with_cache with_timestamps cache max_size].
      rewrite (set_absent _ _ _ Hm), length_app. simpl in *. lia.
Qed.

End OverflowFacts.

Section OverflowTheorem.

Import LRUCache CacheSpec.

(** C1.  A cache of capacity [n >= 2] receives [n + 1] distinct keys, each
    put once.  The first key leaves the store and the last [n] stay, in
    order; but the put that evicted the first key also dropped the
    timestamp of the second: [get] on the second key raises [KeyError]
    instead of returning its value, at any time.  The remaining [n - 1]
    keys are read back with their values while the time-to-live lasts
    (when [timedelta] cannot hold the time-to-live, their expiry test
    raises its exception instead). *)
Theorem overflow_put_loses_second_key
    (n : nat) (ttl_s now now' : Z) (k1 k2 kN : string) (v1 v2 vN : value)
    (rest : OrderedDict.t) :
  let kvs := ((k1, v1) :: (k2, v2) :: rest)%list in
  let r := put_all now (kvs ++ (kN, vN) :: nil)%list (__init__ (Z.of_nat n) ttl_s) in
  List.NoDup (OrderedDict.keys (kvs ++ (kN, vN) :: nil)%list) ->
  List.length kvs = n ->
  fst r = Return tt
  /\ cache (snd r) = ((k2, v2) :: rest ++ (kN, vN) :: nil)%list
  /\ fst (get now' k2 (snd r)) = Raise KeyError
  /\ (forall k v, List.In (k, v) (rest ++ (kN, vN) :: nil)%list ->
                  (now' - now <= ttl_s * 1000000)%Z ->
                  fst (get now' k (snd r))
                  = match timedelta ttl_s with
                    | Return _ => Return v
                    | Raise e => Raise e
                    end).
Proof.
  intros kvs r Hnd Hlen.
  assert (Hr : r = (Return tt,
                    mk (Z.of_nat n) ttl_s ((k2, v2) :: rest ++ (kN, vN) :: nil)%list
                       (<[kN := now]> (delete k2 (stamp_all now kvs ∅))) 0 0)).
  { subst r. rewrite put_all_app, put_all_fill.
    2:{ simpl cache. simpl app at 1. unfold OrderedDict.keys in *.
        rewrite map_app in Hnd. now apply NoDup_app_remove_r in Hnd. }
    2:{ simpl. simpl in Hlen. lia. }
    assert (HmN : OrderedDict.mem kN kvs = false).
    { apply mem_false_not_in. unfold OrderedDict.keys in *.
      rewrite map_app in Hnd.
      change (List.NoDup (map fst kvs ++ kN :: nil)%list) in Hnd.
      apply NoDup_remove_2 in Hnd. rewrite app_nil_r in Hnd. exact Hnd. }
    cbn [__init__ timestamps cache max_size ttl_seconds cache_hits cache_misses app].
    assert (Hs2 : stamp_all now kvs ∅ !! k2 = Some now).
    { apply stamp_all_in. unfold OrderedDict.keys. simpl. auto. }
    set (ts := stamp_all now kvs ∅) in *. clearbody ts.
    cbn [put_all]. unfold put. cbn [cache max_size].
    rewrite HmN, Hlen, Z.leb_refl.
    unfold evict. subst kvs. cbn [cache with_cache timestamps].
    rewrite Hs2.
    unfold store, with_timestamps, with_cache.
    cbn [cache timestamps max_size ttl_seconds cache_hits cache_misses].
    rewrite set_absent; [reflexivity|].
    simpl in HmN. apply orb_false_iff in HmN. tauto. }
  rewrite Hr. cbn [fst snd cache].
  assert (Hkeys : List.NoDup (k1 :: k2 :: OrderedDict.keys (rest ++ (kN, vN) :: nil)%list))
    by exact Hnd.
  apply NoDup_cons_iff in Hkeys. destruct Hkeys as [_ Hkeys].
  pose proof Hkeys as Hkeys2.
  apply NoDup_cons_iff in Hkeys2. destruct Hkeys2 as [Hk2 Hrest].
  split; [reflexivity|]. split; [reflexivity|]. split.
  - assert (Hne : kN <> k2).
    { intros ->. apply Hk2. unfold OrderedDict.keys. rewrite map_app, in_app_iff.
      right. simpl. auto. }
    unfold get. rewrite test_unstamped.
    2:{ cbn [timestamps]. now rewrite lookup_insert_ne, lookup_delete_eq by exact Hne. }
    cbn [count_miss cache OrderedDict.mem existsb fst].
    rewrite String.eqb_refl. cbn [orb with_cache count_miss timestamps].
    now rewrite lookup_insert_ne, lookup_delete_eq by exact Hne.
  - intros k v Hin Hage.
    assert (Hk : List.In k (OrderedDict.keys (rest ++ (kN, vN) :: nil)%list)).
    { unfold OrderedDict.keys. apply in_map_iff. now exists (k, v). }
    assert (Hkne : k <> k2) by (intros ->; contradiction).
    assert (Hl : OrderedDict.lookup k ((k2, v2) :: rest ++ (kN, vN) :: nil)%list = Some v).
    { apply lookup_in_nodup; [exact Hkeys | now right]. }
    assert (Hm : OrderedDict.mem k ((k2, v2) :: rest ++ (kN, vN) :: nil)%list = true).
    { apply mem_lookup. rewrite Hl. eauto. }
    assert (Hts : (<[kN := now]> (delete k2 (stamp_all now kvs ∅)) : gmap string Z) !! k
                  = Some now).
    { destruct (String.string_dec kN k) as [->|HneN].
      - apply lookup_insert_eq.
      - rewrite lookup_insert_ne, lookup_delete_ne by congruence.
        apply stamp_all_in. subst kvs. unfold OrderedDict.keys in *.
        rewrite map_app, in_app_iff in Hk. simpl in *.
        destruct Hk as [Hk | [Hk | []]]; [auto | congruence]. }
    unfold get, absent_or_expired, _is_expired. cbn [cache timestamps ttl_seconds].
    rewrite Hm, Hts. cbn [negb].
    unfold timedelta.
    destruct (Z.abs (ttl_s / 86400) <=? 999999999)%Z; [|reflexivity].
    destruct (Z.ltb_spec (ttl_s * 1000000) (now' - now)) as [Hbad|_]; [lia|].
    cbn [count_hit with_cache cache].
    now rewrite lookup_move_to_end, Hl.
Qed.

End OverflowTheorem.

Lemma overflow_put_loses_second_key_witness :
  let r := LRUCache.put_all 0 (("a", VInt 1) :: ("b", VInt 2) :: ("c", VInt 3) :: nil)
             (LRUCache.__init__ 2 3600) in
  fst r = Return tt
  /\ LRUCache.cache (snd r) = (("b", VInt 2) :: ("c", VInt 3) :: nil)%list
  /\ fst (LRUCache.get 1 "b" (snd r)) = Raise KeyError
  /\ (forall k v, List.In (k, v) (("c", VInt 3) :: nil) ->
                  (1 - 0 <= 3600 * 1000000)%Z ->
                  fst (LRUCache.get 1 k (snd r))
                  = match LRUCache.timedelta 3600 with
                    | Return _ => Return v
                    | Raise e => Raise e
                    end).
Proof.
  apply (overflow_put_loses_second_key 2 3600 0 1 "a" "b" "c" (VInt 1) (VInt 2) (VInt 3) nil).
  - repeat constructor; simpl; intuition discriminate.
  - reflexivity.
Defined.

(** With capacity 1 the second [put] does not even return: after
    [popitem] the store is empty and [next(iter(...))] raises. *)
Lemma put_capacity_one_raises :
  fst (LRUCache.put_all 0 (("a", VInt 1) :: ("b", VInt 2) :: nil) (LRUCache.__init__ 1 3600))
  = Raise StopIteration.
Proof. reflexivity. Qed.

(** ** Order cancellation *)

Section OrderFacts.

Import OrderTracker.

Lemma cancel_order_no_match (oid : string) (orders : t) :
  (forall o, List.In o orders -> same_id o oid = false) ->
  cancel_order oid orders = (false, orders).
Proof.
  induction orders as [|o rest IH]; intros H; simpl; [reflexivity|].
  rewrite (H o) by (now left). simpl.
  rewrite IH; [reflexivity|]. intros o' Hin. apply H. now right.
Qed.

Lemma cancel_order_at (oid : string) (pre post : t) (o : order) :
  (forall o', List.In o' pre -> same_id o' oid = false) ->
  same_id o oid = true ->
  (forall o', List.In o' post -> same_id o' oid = false) ->
  cancel_order oid (pre ++ o :: post)%list
  = if eligible o then (true, (pre ++ set_status "cancelled" o :: post)%list)
    else (false, (pre ++ o :: post)%list).
Proof.
  intros Hpre Ho Hpost.
  induction pre as [|p pre IH]; simpl.
  - rewrite Ho. simpl. destruct (eligible o); [reflexivity|].
    now rewrite cancel_order_no_match.
  - rewrite (Hpre p) by (now left). simpl.
    rewrite IH by (intros o' Hin; apply Hpre; now right).
    now destruct (eligible o).
Qed.

(** C4, amended.  Take an order of the store that is the only one with
    its id (ids compared ignoring case, as the store does) and call
    [cancel_order] with that id, in any spelling.  If the status is
    pending or processing the call returns [True] and the store is the
    same but for this order, whose status is now the text cancelled, its
    other fields being what they were.  With any other status the call
    returns [False] and the store is unchanged. *)
Theorem cancel_order_by_status (oid : string) (pre post : t) (o : order) :
  same_id o oid = true ->
  (forall o', List.In o' (pre ++ post)%list -> same_id o' oid = false) ->
  ((status o = "pending" \/ status o = "processing") ->
     cancel_order oid (pre ++ o :: post)%list
     = (true,
        (pre ++ {| order_id := order_id o;
                   customer_id := customer_id o;
                   status := "cancelled";
                   delivery_date := delivery_date o |} :: post)%list))
  /\ ((status o <> "pending" /\ status o <> "processing") ->
     cancel_order oid (pre ++ o :: post)%list = (false, (pre ++ o :: post)%list)).
Proof.
  intros Ho Hother.
  rewrite (cancel_order_at oid pre post o); auto.
  2,3: intros o' Hin; apply Hother; apply in_app_iff; auto.
  unfold eligible. split.
  - intros [-> | ->]; reflexivity.
  - intros [H1 H2].
    apply String.eqb_neq in H1, H2. now rewrite H1, H2.
Qed.

End OrderFacts.

Lemma cancel_order_by_status_witness :
  let pending := OrderTracker.mk_order "ORD001" "C1" "pending" "2024-01-10" in
  let other := OrderTracker.mk_order "ORD002" "C2" "shipped" "2024-01-12" in
  ((OrderTracker.status pending = "pending" \/ OrderTracker.status pending = "processing") ->
     OrderTracker.cancel_order "ord001" (other :: pending :: nil)
     = (true,
        other :: {| OrderTracker.order_id := OrderTracker.order_id pending;
                    OrderTracker.customer_id := OrderTracker.customer_id pending;
                    OrderTracker.status := "cancelled";
                    OrderTracker.delivery_date := OrderTracker.delivery_date pending |}
        :: nil))
  /\ ((OrderTracker.status pending <> "pending" /\ OrderTracker.status pending <> "processing") ->
     OrderTracker.cancel_order "ord001" (other :: pending :: nil)
     = (false, other :: pending :: nil)).
Proof.
  intros pending other.
  apply (cancel_order_by_status "ord001" (other :: nil) nil pending).
  - reflexivity.
  - intros o' [<- | []]. reflexivity.
Defined.

(** C4 as it is stated fails for an order whose id another order has
    too.  This store holds a shipped order and, after it, a pending order
    with the same id.  Cancelling the shipped order, by its id, does not
    return failure: the scan goes on past it, cancels the pending order
    and returns [True]. *)
Lemma cancel_order_shared_id :
  let shipped := OrderTracker.mk_order "ORD001" "C1" "shipped" "2024-01-10" in
  let pending := OrderTracker.mk_order "ORD001" "C2" "pending" "2024-01-12" in
  List.In shipped (shipped :: pending :: nil)
  /\ OrderTracker.status shipped = "shipped"
  /\ OrderTracker.cancel_order (OrderTracker.order_id shipped) (shipped :: pending :: nil)
     = (true,
        shipped :: OrderTracker.mk_order "ORD001" "C2" "cancelled" "2024-01-12" :: nil).
Proof. split; [now left|]. split; reflexivity. Qed.

(** A shipped order is refused and stays shipped. *)
Lemma cancel_order_shipped_refused :
  let shipped := OrderTracker.mk_order "ORD002" "C2" "shipped" "2024-01-12" in
  OrderTracker.cancel_order "ORD002" (shipped :: nil) = (false, shipped :: nil).
Proof. reflexivity. Qed.

(** ** The classifier *)

Section ClassifierFacts.

Import IntentClassifier IntentSpec.
Local Open Scope Q_scope.

Lemma filter_none {X : Type} (f : X -> bool) (l : list X) :
  (forall x, List.In x l -> f x = false) -> List.filter f l = nil.
Proof.
  induction l as [|x l IH]; intros H; simpl; [reflexivity|].
  rewrite (H x) by (now left). apply IH. intros y Hy. apply H. now right.
Qed.

Lemma pattern_score_unmatched (u p : string) :
  unmatched u p -> pattern_score u p == 0.
Proof.
  intros [Hphrase Hwords]. unfold pattern_score, matched_words.
  rewrite Hphrase, (filter_none _ _ Hwords). reflexivity.
Qed.

Lemma all_zero_assign (k : string) (d : scores) :
  all_zero d -> all_zero (assign k 0 d).
Proof.
  unfold all_zero. induction 1 as [|[k' v'] d Hv Hd IH]; simpl.
  - constructor; [reflexivity | constructor].
  - destruct (String.eqb k' k); constructor; simpl; auto; reflexivity.
Qed.

Lemma all_zero_increase (k : string) (v : Q) (d : scores) :
  v == 0 -> all_zero d -> all_zero (increase k v d).
Proof.
  unfold all_zero. intros Hv. induction 1 as [|[k' v'] d Hv' Hd IH]; simpl.
  - constructor.
  - destruct (String.eqb k' k); constructor; simpl in *; auto.
    rewrite Hv', Hv. reflexivity.
Qed.

Lemma all_zero_score_intent (u : string) (d : scores) (it : intent) :
  (forall p, List.In p (patterns it) -> unmatched u p) ->
  all_zero d -> all_zero (score_intent u d it).
Proof.
  intros Hp Hd. unfold score_intent.
  assert (H0 : all_zero (assign (tag it) 0 d)) by now apply all_zero_assign.
  revert H0. generalize (assign (tag it) 0 d).
  induction (patterns it) as [|p ps IH]; intros d0 H0; simpl; [exact H0|].
  apply IH.
  - intros q Hq. apply Hp. now right.
  - apply all_zero_increase; [|exact H0].
    apply pattern_score_unmatched, Hp. now left.
Qed.

Lemma all_zero_intent_scores (u : string) (intents : list intent) :
  (forall it p, List.In it intents -> List.In p (patterns it) -> unmatched u p) ->
  all_zero (intent_scores u intents).
Proof.
  unfold intent_scores. intros H.
  assert (H0 : all_zero nil) by constructor.
  revert H0. generalize (@nil (string * Q)).
  induction intents as [|it its IH]; intros d0 H0; simpl; [exact H0|].
  apply IH.
  - intros it' p Hin. apply H. now right.
  - apply all_zero_score_intent; [|exact H0]. intros p. apply H. now left.
Qed.

Lemma max_value_zero (v0 : Q) (d : scores) :
  v0 == 0 -> all_zero d -> max_value v0 d == 0.
Proof.
  unfold max_value, all_zero. intros Hv Hd. revert v0 Hv.
  induction Hd as [|kv d Hkv Hd IH]; intros v0 Hv; simpl; [exact Hv|].
  apply IH. now destruct (Qle_bool (snd kv) v0).
Qed.

(** C5.  If no pattern of any intent matches the lower-cased input,
    neither as a phrase nor by one of its words, [classify] answers the
    fallback intent [greeting] with confidence 0.3; this covers the empty
    set of intent definitions, for which the same answer is also stated
    on its own. *)
Theorem classify_fallback (intents : list intent) (user_input : string) :
  (forall it p, List.In it intents -> List.In p (patterns it) ->
                unmatched (PyStr.lower user_input) p) ->
  classify intents user_input = ("greeting", 3 # 10)
  /\ classify nil user_input = ("greeting", 3 # 10).
Proof.
  intros H. split; [|reflexivity].
  unfold classify.
  pose proof (all_zero_intent_scores _ _ H) as Hz.
  destruct (intent_scores (PyStr.lower user_input) intents) as [|kv0 d]; [reflexivity|].
  inversion Hz as [|? ? H0 Hd]; subst.
  pose proof (max_value_zero _ _ H0 Hd) as Hm.
  apply Qeq_bool_iff in Hm. now rewrite Hm.
Qed.

End ClassifierFacts.

Lemma classify_fallback_witness :
  IntentClassifier.classify IntentSpec.sample_intents "zzz ???" = ("greeting", 3 # 10)
  /\ IntentClassifier.classify nil "zzz ???" = ("greeting", 3 # 10).
Proof.
  apply classify_fallback.
  intros it p Hit Hp. unfold IntentSpec.sample_intents in Hit. simpl in Hit.
  repeat (destruct Hit as [<- | Hit]; [simpl in Hp|]); try contradiction;
    repeat (destruct Hp as [<- | Hp]; [|]); try contradiction;
    (split; [reflexivity | intros w Hw; vm_compute in Hw;
             repeat (destruct Hw as [<- | Hw]; [reflexivity|]); contradiction]).
Defined.

Section ClassifierOrder.

Import IntentClassifier IntentSpec.
Local Open Scope Q_scope.

Lemma assign_fresh (k : string) (v : Q) (d : scores) :
  ~ List.In k (keys d) -> assign k v d = (d ++ (k, v) :: nil)%list.
Proof.
  induction d as [|[k' v'] d IH]; simpl; intros H; [reflexivity|].
  destruct (String.eqb_spec k' k) as [->|Hne]; [tauto|].
  rewrite IH by tauto. reflexivity.
Qed.

Lemma increase_last (k : string) (acc v : Q) (d : scores) :
  ~ List.In k (keys d) ->
  increase k v (d ++ (k, acc) :: nil)%list = (d ++ (k, acc + v) :: nil)%list.
Proof.
  induction d as [|[k' v'] d IH]; simpl; intros H.
  - now rewrite String.eqb_refl.
  - destruct (String.eqb_spec k' k) as [->|Hne]; [tauto|].
    rewrite IH by tauto. reflexivity.
Qed.

Lemma score_intent_fresh (u : string) (d : scores) (it : intent) :
  ~ List.In (tag it) (keys d) ->
  score_intent u d it = (d ++ (tag it, total_score u it) :: nil)%list.
Proof.
  intros H. unfold score_intent, total_score.
  rewrite assign_fresh by exact H.
  generalize 0. induction (patterns it) as [|p ps IH]; intros acc; simpl; [reflexivity|].
  rewrite increase_last by exact H. apply IH.
Qed.

(** With distinct tags the dictionary lists the intents in the order of
    their definitions, each with its score. *)
Lemma intent_scores_distinct (u : string) (intents : list intent) (d : scores) :
  List.NoDup (keys d ++ map tag intents)%list ->
  fold_left (score_intent u) intents d
  = (d ++ map (fun it => (tag it, total_score u it)) intents)%list.
Proof.
  revert d. induction intents as [|it its IH]; intros d Hnd; simpl.
  - now rewrite app_nil_r.
  - rewrite score_intent_fresh.
    2:{ apply NoDup_remove_2 in Hnd. rewrite in_app_iff in Hnd. tauto. }
    rewrite IH.
    + rewrite <- app_assoc. reflexivity.
    + unfold keys in *. rewrite map_app, <- app_assoc. exact Hnd.
Qed.

Lemma max_value_max_key (kv0 : string * Q) (d : scores) :
  max_value (snd kv0) d = snd (max_key kv0 d).
Proof.
  unfold max_value, max_key. revert kv0.
  induction d as [|kv d IH]; intros kv0; simpl; [reflexivity|].
  destruct (Qle_bool (snd kv) (snd kv0)); apply IH.
Qed.

Lemma max_key_keep (best : string * Q) (d : scores) :
  (forall kv, List.In kv d -> snd kv <= snd best) -> max_key best d = best.
Proof.
  unfold max_key. induction d as [|kv d IH]; intros H; simpl; [reflexivity|].
  assert (Hle : Qle_bool (snd kv) (snd best) = true)
    by (apply Qle_bool_iff, H; now left).
  rewrite Hle. apply IH. intros kv' Hin. apply H. now right.
Qed.

Lemma max_key_reach (best x : string * Q) (d1 d2 : scores) :
  snd best < snd x ->
  (forall kv, List.In kv d1 -> snd kv < snd x) ->
  max_key best (d1 ++ x :: d2)%list = max_key x d2.
Proof.
  unfold max_key. revert best.
  induction d1 as [|kv d1 IH]; intros best Hb H; simpl.
  - assert (Hle : Qle_bool (snd x) (snd best) = false).
    { apply not_true_iff_false. rewrite Qle_bool_iff. now apply Qlt_not_le. }
    now rewrite Hle.
  - destruct (Qle_bool (snd kv) (snd best)); apply IH; auto.
    + intros kv' Hin. apply H. now right.
    + apply H. now left.
    + intros kv' Hin. apply H. now right.
Qed.

Lemma max_key_first_max (kv0 x : string * Q) (rest d1 d2 : scores) :
  (kv0 :: rest = d1 ++ x :: d2)%list ->
  (forall kv, List.In kv d1 -> snd kv < snd x) ->
  (forall kv, List.In kv d2 -> snd kv <= snd x) ->
  max_key kv0 rest = x.
Proof.
  intros Heq H1 H2. destruct d1 as [|y d1]; simpl in Heq; inversion Heq; subst.
  - now apply max_key_keep.
  - rewrite max_key_reach.
    + now apply max_key_keep.
    + apply H1. now left.
    + intros kv Hin. apply H1. now right.
Qed.

(** C6, amended.  Let the tags be distinct and let an intent have a
    positive score that no intent defined before it reaches and no
    intent defined after it exceeds: it is the earliest of those that
    attain the maximum.  Then [classify] answers its tag, with the
    confidence computed from its score. *)
Theorem classify_earliest_of_tied
    (intents l1 l2 : list intent) (it : intent) (user_input : string) :
  let sc := total_score (PyStr.lower user_input) in
  List.NoDup (map tag intents) ->
  intents = (l1 ++ it :: l2)%list ->
  (forall it', List.In it' l1 -> sc it' < sc it) ->
  (forall it', List.In it' l2 -> sc it' <= sc it) ->
  0 < sc it ->
  classify intents user_input = (tag it, Qmin (sc it / 10) 1).
Proof.
  intros sc Hnd -> H1 H2 Hpos.
  unfold classify, intent_scores.
  rewrite intent_scores_distinct by exact Hnd.
  cbn [app]. rewrite map_app. cbn [map]. fold sc.
  set (f := fun it0 : intent => (tag it0, sc it0)).
  change (tag it, sc it) with (f it) at 1.
  destruct (map f l1 ++ f it :: map f l2)%list as [|kv0 rest] eqn:Hd.
  { destruct (map f l1); discriminate. }
  assert (Hbest : max_key kv0 rest = f it).
  { apply (max_key_first_max kv0 (f it) rest (map f l1) (map f l2)); [now symmetry| |].
    - intros kv Hin. apply in_map_iff in Hin. destruct Hin as (it' & <- & Hin).
      simpl. now apply H1.
    - intros kv Hin. apply in_map_iff in Hin. destruct Hin as (it' & <- & Hin).
      simpl. now apply H2. }
  cbv beta iota. rewrite max_value_max_key, Hbest. cbn [f fst snd].
  assert (Hnz : Qeq_bool (sc it) 0 = false).
  { apply not_true_iff_false. rewrite Qeq_bool_iff. intros Hz.
    rewrite Hz in Hpos. now apply Qlt_irrefl in Hpos. }
  now rewrite Hnz.
Qed.

End ClassifierOrder.

Lemma classify_earliest_of_tied_witness :
  IntentClassifier.classify IntentSpec.sample_intents "Order"
  = ("track_order",
     Qmin (IntentSpec.total_score (PyStr.lower "Order")
             (IntentClassifier.mk_intent "track_order"
                ("Track my order" :: "where is my order" :: nil)
                ("Let me check that for you." :: nil)) / 10) 1).
Proof.
  apply (classify_earliest_of_tied IntentSpec.sample_intents nil
           (tl IntentSpec.sample_intents)
           (IntentClassifier.mk_intent "track_order"
              ("Track my order" :: "where is my order" :: nil)
              ("Let me check that for you." :: nil))
           "Order").
  - repeat constructor; simpl; intuition discriminate.
  - reflexivity.
  - intros it' [].
  - intros it' Hin. simpl in Hin.
    destruct Hin as [<- | [<- | []]]; vm_compute; discriminate.
  - reflexivity.
Defined.

(** C6 as it is stated fails when the common maximum is 0: all the
    sample intents score 0 on this input, the first defined is
    [track_order], and the answer is the fallback [greeting]. *)
Lemma classify_tie_at_zero :
  ~ (forall (intents l1 l2 : list IntentClassifier.intent) (it : IntentClassifier.intent)
            (user_input : string),
        let sc := IntentSpec.total_score (PyStr.lower user_input) in
        List.NoDup (map IntentClassifier.tag intents) ->
        intents = (l1 ++ it :: l2)%list ->
        (forall it', List.In it' l1 -> (sc it' < sc it)%Q) ->
        (forall it', List.In it' l2 -> (sc it' <= sc it)%Q) ->
        fst (IntentClassifier.classify intents user_input) = IntentClassifier.tag it).
Proof.
  intros H.
  specialize (H IntentSpec.sample_intents nil (tl IntentSpec.sample_intents)
                (hd (IntentClassifier.mk_intent "" nil nil) IntentSpec.sample_intents)
                "zzz").
  assert (Hbad : fst (IntentClassifier.classify IntentSpec.sample_intents "zzz")
                 = "track_order").
  { apply H.
    - repeat constructor; simpl; intuition discriminate.
    - reflexivity.
    - intros it' [].
    - intros it' Hin. simpl in Hin.
      destruct Hin as [<- | [<- | []]]; vm_compute; discriminate. }
  vm_compute in Hbad. discriminate.
Qed.

(** ** Sorted lists *)

Lemma strongly_sorted_app {X : Type} (R : X -> X -> Prop) (l1 l2 : list X) :
  StronglySorted R l1 -> StronglySorted R l2 ->
  (forall a b, List.In a l1 -> List.In b l2 -> R a b) ->
  StronglySorted R (l1 ++ l2)%list.
Proof.
  intros H1 H2 H. induction H1 as [|a l1 Hs IH Hf]; simpl; [exact H2|].
  constructor.
  - apply IH. intros x y Hx Hy. apply H; [now right | exact Hy].
  - apply List.Forall_app. split; [exact Hf|].
    apply List.Forall_forall. intros b Hb. apply H; [now left | exact Hb].
Qed.

Lemma strongly_sorted_rev {X : Type} (R : X -> X -> Prop) (l : list X) :
  StronglySorted R l -> StronglySorted (fun a b => R b a) (rev l).
Proof.
  induction 1 as [|a l Hs IH Hf]; simpl; [constructor|].
  apply strongly_sorted_app; [exact IH | repeat constructor |].
  intros x y Hx [<- | []]. apply in_rev in Hx.
  rewrite List.Forall_forall in Hf. now apply Hf.
Qed.

Lemma in_firstn {X : Type} (n : nat) (l : list X) (x : X) :
  List.In x (firstn n l) -> List.In x l.
Proof.
  revert n. induction l as [|y l IH]; intros [|n]; simpl; try tauto.
  intros [-> | H]; [now left | right; eauto].
Qed.

Lemma strongly_sorted_firstn {X : Type} (R : X -> X -> Prop) (n : nat) (l : list X) :
  StronglySorted R l -> StronglySorted R (firstn n l).
Proof.
  intros H. revert n. induction H as [|a l Hs IH Hf]; intros [|n]; simpl;
    try constructor.
  - apply IH.
  - apply List.Forall_forall. intros b Hb. apply in_firstn in Hb.
    rewrite List.Forall_forall in Hf. now apply Hf.
Qed.

Lemma strongly_sorted_filter {X : Type} (R : X -> X -> Prop) (f : X -> bool) (l : list X) :
  StronglySorted R l -> StronglySorted R (List.filter f l).
Proof.
  induction 1 as [|a l Hs IH Hf]; simpl; [constructor|].
  destruct (f a); [|exact IH]. constructor; [exact IH|].
  apply List.Forall_forall. intros b Hb. apply filter_In in Hb.
  rewrite List.Forall_forall in Hf. now apply Hf.
Qed.

Lemma strongly_sorted_nth {X : Type} (R : X -> X -> Prop) (l : list X) (p q : nat) (a b : X) :
  StronglySorted R l -> (p < q)%nat ->
  nth_error l p = Some a -> nth_error l q = Some b -> R a b.
Proof.
  intros H. revert p q. induction H as [|x l Hs IH Hf]; intros p q Hpq Hp Hq.
  - destruct p; discriminate.
  - destruct q as [|q]; [lia|]. simpl in Hq. destruct p as [|p]; simpl in Hp.
    + inversion Hp; subst. rewrite List.Forall_forall in Hf.
      apply Hf. eapply nth_error_In; eauto.
    + apply (IH p q); [lia | exact Hp | exact Hq].
Qed.

Lemma strongly_sorted_map {X Y : Type} (R : Y -> Y -> Prop) (f : X -> Y) (l : list X) :
  StronglySorted (fun a b => R (f a) (f b)) l -> StronglySorted R (map f l).
Proof.
  induction 1 as [|a l Hs IH Hf]; simpl; constructor; [exact IH|].
  apply List.Forall_map. exact Hf.
Qed.

Lemma strongly_sorted_weaken {X : Type} (R S : X -> X -> Prop) (l : list X) :
  (forall a b, List.In a l -> List.In b l -> R a b -> S a b) ->
  StronglySorted R l -> StronglySorted S l.
Proof.
  intros HRS H. induction H as [|a l Hs IH Hf]; constructor.
  - apply IH. intros x y Hx Hy. apply HRS; now right.
  - apply List.Forall_forall. intros b Hb.
    rewrite List.Forall_forall in Hf.
    apply HRS; [now left | now right | now apply Hf].
Qed.

(** ** The ranking of the retriever *)

Section RankingFacts.

Import IRBasedQA RetrievalSpec.
Local Open Scope Q_scope.

Lemma slice_to_incl {X : Type} (k : Z) (l : list X) (x : X) :
  List.In x (slice_to k l) -> List.In x l.
Proof. unfold slice_to. destruct (0 <=? k)%Z; apply in_firstn. Qed.

Lemma slice_to_firstn {X : Type} (k : Z) (l : list X) :
  exists n, slice_to k l = firstn n l.
Proof. unfold slice_to. destruct (0 <=? k)%Z; eauto. Qed.

Lemma length_slice_to {X : Type} (k : Z) (l : list X) :
  (0 <= k)%Z -> (Z.of_nat (List.length (slice_to k l)) <= k)%Z.
Proof.
  intros H. unfold slice_to.
  destruct (Z.leb_spec 0 k) as [_|Hneg]; [|lia].
  pose proof (firstn_le_length (Z.to_nat k) l) as Hle. lia.
Qed.

Variable qa : t.
Hypothesis argsort_sorts : sorts (argsort qa).

(** The sorted indices are the indices of the scores. *)
Lemma argsort_in (sims : list Q) (i : nat) :
  List.In i (argsort qa sims) <-> (i < List.length sims)%nat.
Proof.
  destruct (argsort_sorts sims) as [Hperm _]. split.
  - intros Hin. apply (Permutation_in _ Hperm) in Hin. apply in_seq in Hin. lia.
  - intros Hlt. apply (Permutation_in _ (Permutation_sym Hperm)).
    apply in_seq. lia.
Qed.

Lemma length_argsort (sims : list Q) :
  List.length (argsort qa sims) = List.length sims.
Proof.
  destruct (argsort_sorts sims) as [Hperm _].
  now rewrite (Permutation_length Hperm), length_seq.
Qed.

Lemma top_indices_in_range (top_k : Z) (sims : list Q) (i : nat) :
  List.In i (top_indices qa top_k sims) -> (i < List.length sims)%nat.
Proof.
  unfold top_indices. intros Hin.
  apply slice_to_incl, in_rev in Hin. now apply argsort_in.
Qed.

(** The ranking is by descending score. *)
Lemma reversed_argsort_sorted (sims : list Q) :
  StronglySorted (fun i j => nth j sims 0 <= nth i sims 0) (rev (argsort qa sims)).
Proof.
  destruct (argsort_sorts sims) as [_ Hsorted].
  now apply (strongly_sorted_rev (fun i j => nth i sims 0 <= nth j sims 0)).
Qed.

Lemma top_indices_sorted (top_k : Z) (sims : list Q) :
  StronglySorted (fun i j => nth j sims 0 <= nth i sims 0) (top_indices qa top_k sims).
Proof.
  unfold top_indices.
  destruct (slice_to_firstn top_k (rev (argsort qa sims))) as [n ->].
  apply strongly_sorted_firstn, reversed_argsort_sorted.
Qed.

End RankingFacts.

(** ** What [retrieve] returns *)

Section RetrieveFacts.

Import IRBasedQA RetrievalSpec.
Local Open Scope Q_scope.

Lemma above_spec (s : Q) : above s = true <-> threshold < s.
Proof.
  unfold above. destruct (Qlt_le_dec threshold s) as [H | H].
  - tauto.
  - split; [discriminate|]. intros Hc. exfalso. now apply (Qlt_not_le _ _ Hc).
Qed.

(** When the loop of [retrieve] completes, it has built the hits of the
    indices that pass the test, in order. *)
Lemma collect_kept (qa : t) (sims : list Q) (idxs : list nat) (hits : list hit) :
  collect qa sims idxs = Some hits ->
  hits = map (hit_at qa sims) (List.filter (fun i => above (nth i sims 0)) idxs).
Proof.
  revert hits. induction idxs as [|idx idxs IH]; intros hits; simpl.
  - now intros [= <-].
  - destruct (nth_error sims idx) as [s|] eqn:Hs; [|discriminate].
    rewrite (nth_error_nth _ _ _ Hs). unfold above at 1.
    destruct (Qlt_le_dec threshold s); [|now apply IH].
    destruct (nth_error (questions qa) idx) as [qtext|] eqn:Hq; [|discriminate].
    destruct (nth_error (answers qa) idx) as [atext|] eqn:Ha; [|discriminate].
    destruct (collect qa sims idxs) as [hits'|]; [|discriminate].
    intros [= <-]. simpl. rewrite <- (IH hits' eq_refl).
    unfold hit_at.
    now rewrite (nth_error_nth _ _ _ Hq), (nth_error_nth _ _ _ Ha), (nth_error_nth _ _ _ Hs).
Qed.

(** It completes when there is one score per document and every index
    is the index of a score. *)
Lemma collect_completes (qa : t) (sims : list Q) (idxs : list nat) :
  List.length sims = List.length (faqs qa) ->
  (forall i, List.In i idxs -> (i < List.length sims)%nat) ->
  exists hits, collect qa sims idxs = Some hits.
Proof.
  intros Hlen. induction idxs as [|idx idxs IH]; intros Hidx; simpl; [eauto|].
  destruct IH as [hits' Hc]; [intros i Hin; apply Hidx; now right|].
  pose proof (Hidx idx (or_introl eq_refl)) as Hlt.
  destruct (nth_error sims idx) as [s|] eqn:Hs.
  2:{ apply nth_error_None in Hs. lia. }
  rewrite Hc.
  destruct (nth_error (questions qa) idx) as [qtext|] eqn:Hq.
  2:{ apply nth_error_None in Hq. unfold questions in Hq.
      rewrite length_map in Hq. lia. }
  destruct (nth_error (answers qa) idx) as [atext|] eqn:Ha.
  2:{ apply nth_error_None in Ha. unfold answers in Ha.
      rewrite length_map in Ha. lia. }
  destruct (Qlt_le_dec threshold s); eauto.
Qed.

(** Whatever [retrieve] returns is empty or the hits of the kept
    indices. *)
Lemma retrieve_cases (qa : t) (query : string) (top_k : Z) :
  retrieve qa query top_k = nil
  \/ exists sims, similarities qa query = Some sims
       /\ retrieve qa query top_k = map (hit_at qa sims) (kept_indices qa top_k sims).
Proof.
  unfold retrieve. destruct (similarities qa query) as [sims|]; [|now left].
  destruct (collect qa sims (top_indices qa top_k sims)) as [hits|] eqn:Hc; [|now left].
  right. exists sims. split; [reflexivity|]. now apply collect_kept.
Qed.

Lemma length_filter_le {X : Type} (f : X -> bool) (l : list X) :
  (List.length (List.filter f l) <= List.length l)%nat.
Proof.
  induction l as [|x l IH]; simpl; [lia|]. destruct (f x); simpl; lia.
Qed.

(** C7.  For every query and every [top_k], the hits that [retrieve]
    returns all score above the threshold 0.1; they are in non-increasing
    order of score, the index sort doing what [np.argsort] promises; and
    they are at most [top_k], the number of hits asked for. *)
Theorem retrieve_above_threshold_sorted_bounded (qa : t) (query : string) (top_k : Z) :
  Forall (fun h => threshold < score h) (retrieve qa query top_k)
  /\ (sorts (argsort qa) ->
      StronglySorted (fun h1 h2 => score h2 <= score h1) (retrieve qa query top_k))
  /\ ((0 <= top_k)%Z -> (Z.of_nat (List.length (retrieve qa query top_k)) <= top_k)%Z).
Proof.
  destruct (retrieve_cases qa query top_k) as [-> | (sims & _ & ->)].
  { repeat split; [constructor | constructor | simpl; lia]. }
  unfold kept_indices. split; [|split].
  - apply List.Forall_map, List.Forall_forall. intros i Hi.
    apply filter_In in Hi. simpl. now apply above_spec.
  - intros Hsorts. apply strongly_sorted_map, strongly_sorted_filter. simpl.
    now apply top_indices_sorted.
  - intros Hk. rewrite length_map.
    pose proof (length_filter_le (fun i => above (nth i sims 0)) (top_indices qa top_k sims)).
    pose proof (length_slice_to top_k (rev (argsort qa sims)) Hk).
    unfold top_indices in *. lia.
Qed.

(** With one score per document nothing makes the loop stop early:
    [retrieve] returns the hits of the kept indices. *)
Lemma retrieve_as_kept (qa : t) (query : string) (top_k : Z) (sims : list Q) :
  sorts (argsort qa) ->
  similarities qa query = Some sims ->
  List.length sims = List.length (faqs qa) ->
  retrieve qa query top_k = map (hit_at qa sims) (kept_indices qa top_k sims).
Proof.
  intros Hsorts Hsims Hlen. unfold retrieve. rewrite Hsims.
  destruct (collect_completes qa sims (top_indices qa top_k sims) Hlen
              (top_indices_in_range qa Hsorts top_k sims)) as [hits Hc].
  rewrite Hc. now apply collect_kept.
Qed.

End RetrieveFacts.

(** ** The sample index sorts *)

Section SampleSorts.

Import IRBasedQA RetrievalSpec RetrievalSamples.
Local Open Scope Q_scope.

Variable before : Q -> Q -> bool.
Hypothesis before_le : forall x y, before x y = true -> x <= y.
Hypothesis not_before_ge : forall x y, before x y = false -> y <= x.

Lemma insert_by_perm (x : nat * Q) (l : list (nat * Q)) :
  Permutation (insert_by before x l) (x :: l).
Proof.
  induction l as [|y l IH]; simpl; [reflexivity|].
  destruct (before (snd x) (snd y)); [reflexivity|].
  rewrite IH. apply perm_swap.
Qed.

Lemma sort_by_perm (l : list (nat * Q)) : Permutation (sort_by before l) l.
Proof.
  induction l as [|x l IH]; simpl; [reflexivity|].
  rewrite insert_by_perm. now constructor.
Qed.

Lemma insert_by_sorted (x : nat * Q) (l : list (nat * Q)) :
  StronglySorted (fun p q => snd p <= snd q) l ->
  StronglySorted (fun p q => snd p <= snd q) (insert_by before x l).
Proof.
  induction 1 as [|y l Hs IH Hf]; simpl.
  - repeat constructor.
  - destruct (before (snd x) (snd y)) eqn:Hb.
    + apply before_le in Hb. constructor; [now constructor|].
      constructor; [exact Hb|].
      apply List.Forall_forall. intros z Hz.
      rewrite List.Forall_forall in Hf.
      eapply Qle_trans; [exact Hb | now apply Hf].
    + apply not_before_ge in Hb. constructor; [exact IH|].
      apply List.Forall_forall. intros z Hz.
      apply (Permutation_in _ (insert_by_perm x l)) in Hz.
      destruct Hz as [<- | Hz]; [exact Hb|].
      rewrite List.Forall_forall in Hf. now apply Hf.
Qed.

Lemma sort_by_sorted (l : list (nat * Q)) :
  StronglySorted (fun p q => snd p <= snd q) (sort_by before l).
Proof.
  induction l as [|x l IH]; simpl; [constructor | now apply insert_by_sorted].
Qed.

Lemma map_fst_combine_seq (sims : list Q) (a : nat) :
  map fst (combine (seq a (List.length sims)) sims) = seq a (List.length sims).
Proof.
  revert a. induction sims as [|x sims IH]; intros a; simpl; [reflexivity|].
  now rewrite IH.
Qed.

Lemma combine_seq_nth (sims : list Q) (a : nat) (p : nat * Q) :
  List.In p (combine (seq a (List.length sims)) sims) ->
  (a <= fst p)%nat /\ nth_error sims (fst p - a) = Some (snd p).
Proof.
  revert a. induction sims as [|x sims IH]; intros a; simpl; [tauto|].
  intros [<- | Hin]; simpl.
  - rewrite Nat.sub_diag. auto.
  - apply IH in Hin. destruct Hin as [Hle Hn]. split; [lia|].
    replace (fst p - a)%nat with (S (fst p - S a)) by lia. exact Hn.
Qed.

(** An insertion sort whose test agrees with the order of the scores
    does what [np.argsort] promises, whatever it does with equal
    scores. *)
Lemma argsort_by_sorts : sorts (argsort_by before).
Proof.
  intros sims. unfold argsort_by, enumerate. split.
  - etransitivity; [apply Permutation_map, sort_by_perm|].
    now rewrite map_fst_combine_seq.
  - apply strongly_sorted_map.
    apply (strongly_sorted_weaken (fun p q : nat * Q => snd p <= snd q));
      [|apply sort_by_sorted].
    intros p q Hp Hq Hpq.
    apply (Permutation_in _ (sort_by_perm _)), combine_seq_nth in Hp, Hq.
    rewrite Nat.sub_0_r in Hp, Hq.
    now rewrite (nth_error_nth _ _ _ (proj2 Hp)), (nth_error_nth _ _ _ (proj2 Hq)).
Qed.

End SampleSorts.

Lemma ties_ascending_sorts : RetrievalSpec.sorts RetrievalSamples.ties_ascending.
Proof.
  apply argsort_by_sorts; unfold RetrievalSamples.before_or_equal; intros x y H.
  - now apply Qle_bool_iff.
  - apply Qlt_le_weak, Qnot_le_lt. intros Hc. apply Qle_bool_iff in Hc. congruence.
Qed.

Lemma ties_descending_sorts : RetrievalSpec.sorts RetrievalSamples.ties_descending.
Proof.
  apply argsort_by_sorts; unfold RetrievalSamples.strictly_before; intros x y H.
  - apply negb_true_iff in H.
    apply Qlt_le_weak, Qnot_le_lt. intros Hc. apply Qle_bool_iff in Hc. congruence.
  - apply negb_false_iff in H. now apply Qle_bool_iff.
Qed.

Lemma retrieve_above_threshold_sorted_bounded_witness :
  Forall (fun h => (IRBasedQA.threshold < IRBasedQA.score h)%Q)
    (IRBasedQA.retrieve RetrievalSamples.three_docs "shipping time" 2)
  /\ StronglySorted (fun h1 h2 => (IRBasedQA.score h2 <= IRBasedQA.score h1)%Q)
       (IRBasedQA.retrieve RetrievalSamples.three_docs "shipping time" 2)
  /\ (Z.of_nat (List.length (IRBasedQA.retrieve RetrievalSamples.three_docs "shipping time" 2))
      <= 2)%Z.
Proof.
  destruct (retrieve_above_threshold_sorted_bounded RetrievalSamples.three_docs
              "shipping time" 2) as (Habove & Hsorted & Hlen).
  split; [exact Habove|]. split; [apply Hsorted; exact ties_ascending_sorts|].
  apply Hlen. lia.
Defined.

(** The order of two documents with equal scores is the one the index
    sort gave them, reversed; the source does nothing about it.  Both of
    these index sorts do what [np.argsort] promises: under the first the
    two tied entries come out in reverse corpus order, under the second
    in corpus order. *)
Lemma tie_order_follows_argsort (score : string -> Q) (query : string) :
  (IRBasedQA.threshold < score query)%Q ->
  map IRBasedQA.hit_answer
    (IRBasedQA.retrieve (RetrievalSamples.tied_docs score RetrievalSamples.ties_ascending)
       query 2)
  = "About a week." :: "3-5 business days." :: nil
  /\ map IRBasedQA.hit_answer
       (IRBasedQA.retrieve (RetrievalSamples.tied_docs score RetrievalSamples.ties_descending)
          query 2)
     = "3-5 business days." :: "About a week." :: nil.
Proof.
  intros Habove.
  assert (Hle : Qle_bool (score query) (score query) = true)
    by (apply Qle_bool_iff, Qle_refl).
  unfold IRBasedQA.retrieve, IRBasedQA.top_indices, RetrievalSamples.tied_docs.
  cbn [IRBasedQA.similarities IRBasedQA.argsort].
  unfold RetrievalSamples.ties_ascending, RetrievalSamples.ties_descending,
    RetrievalSamples.argsort_by, RetrievalSamples.enumerate,
    RetrievalSamples.before_or_equal, RetrievalSamples.strictly_before.
  cbn [List.length seq combine RetrievalSamples.sort_by RetrievalSamples.insert_by snd].
  rewrite Hle.
  cbn [negb map fst rev app].
  unfold IRBasedQA.slice_to. change (Z.to_nat 2) with 2%nat.
  cbn [Z.leb Z.compare firstn IRBasedQA.collect nth_error].
  destruct (Qlt_le_dec IRBasedQA.threshold (score query)) as [_|Hno].
  - split; reflexivity.
  - exfalso. now apply (Qlt_not_le _ _ Habove).
Qed.

(** Where the scores differ the index sort has no say. *)
Lemma distinct_scores_one_ranking (qa : IRBasedQA.t) (sims : list Q) (i j : nat) :
  RetrievalSpec.sorts (IRBasedQA.argsort qa) ->
  (i < List.length sims)%nat -> (j < List.length sims)%nat ->
  (nth j sims 0 < nth i sims 0)%Q ->
  exists l1 l2 l3, rev (IRBasedQA.argsort qa sims) = (l1 ++ i :: l2 ++ j :: l3)%list.
Proof.
  intros Hsorts Hi Hj Hlt.
  pose proof (reversed_argsort_sorted qa Hsorts sims) as Hsorted.
  assert (Hini : List.In i (rev (IRBasedQA.argsort qa sims)))
    by (apply in_rev; rewrite rev_involutive; now apply argsort_in).
  assert (Hinj : List.In j (rev (IRBasedQA.argsort qa sims)))
    by (apply in_rev; rewrite rev_involutive; now apply argsort_in).
  apply in_split in Hini. destruct Hini as (l1 & l2' & Heq).
  rewrite Heq in Hinj, Hsorted. apply in_app_iff in Hinj.
  destruct Hinj as [Hj1 | [Hji | Hj2]].
  - exfalso.
    assert (Hle : (nth i sims 0 <= nth j sims 0)%Q).
    { clear Heq. induction l1 as [|x l1 IH]; [destruct Hj1|].
      inversion Hsorted as [|? ? Hs Hf]; subst.
      destruct Hj1 as [-> | Hj1]; [|now apply IH].
      rewrite List.Forall_forall in Hf. apply Hf, in_app_iff. right. now left. }
    now apply (Qlt_not_le _ _ Hlt).
  - subst j. exfalso. now apply (Qlt_irrefl _ Hlt).
  - apply in_split in Hj2. destruct Hj2 as (l2 & l3 & ->).
    exists l1, l2, l3. exact Heq.
Qed.

(** ** The matcher against the matches *)

Section MatcherFacts.

Import Re ReSpec.

Variable ic : bool.

Lemma star_sound {R : Type} (a : atom) (s : string) (cap : option string)
    (k : string -> option R) (x : R) :
  star ic a s k = Some x ->
  exists s1, steps ic (Star a) s cap s1 cap /\ k s1 = Some x.
Proof.
  induction s as [|c s IH]; simpl; intros H.
  - exists EmptyString. split; [constructor | exact H].
  - destruct (atom_match ic a c) eqn:Hc.
    + destruct (star ic a s k) as [y|] eqn:Hs.
      * inversion H; subst. destruct (IH eq_refl) as (s1 & Hst & Hk).
        exists s1. split; [now constructor | exact Hk].
      * exists (String c s). split; [constructor | exact H].
    + exists (String c s). split; [constructor | exact H].
Qed.

Lemma star_complete {R : Type} (a : atom) (s s1 : string) (cap cap1 : option string)
    (k : string -> option R) (x : R) :
  steps ic (Star a) s cap s1 cap1 -> k s1 = Some x ->
  exists y, star ic a s k = Some y.
Proof.
  intros H. remember (Star a) as r eqn:Hr. revert Hr.
  induction H; intros Hr Hk; inversion Hr; subst.
  - destruct s as [|c s]; simpl; [eauto|].
    destruct (atom_match ic a c); [|eauto].
    destruct (star ic a s k); eauto.
  - simpl. rewrite H. destruct (IHsteps eq_refl Hk) as [y Hy]. rewrite Hy. eauto.
Qed.

(** Soundness: a result of the matcher comes from a match. *)
Lemma run_sound {R : Type} (r : regex) (s : string) (cap : option string)
    (k : string -> option string -> option R) (x : R) :
  run ic r s cap k = Some x ->
  exists s1 cap1, steps ic r s cap s1 cap1 /\ k s1 cap1 = Some x.
Proof.
  revert s cap k. induction r as [|a|r1 IH1 r2 IH2|r1 IH1|a|a|r1 IH1];
    intros s cap k H; simpl in H.
  - exists s, cap. split; [constructor | exact H].
  - destruct s as [|c s]; [discriminate|].
    destruct (atom_match ic a c) eqn:Hc; [|discriminate].
    exists s, cap. split; [now constructor | exact H].
  - apply IH1 in H. destruct H as (s1 & cap1 & H1 & H).
    apply IH2 in H. destruct H as (s2 & cap2 & H2 & H).
    exists s2, cap2. split; [econstructor; eauto | exact H].
  - destruct (run ic r1 s cap k) as [y|] eqn:Hr.
    + inversion H; subst. apply IH1 in Hr. destruct Hr as (s1 & cap1 & H1 & Hk).
      exists s1, cap1. split; [now constructor | exact Hk].
    + exists s, cap. split; [apply steps_opt_skip | exact H].
  - apply (star_sound a s cap) in H. destruct H as (s1 & H1 & Hk).
    exists s1, cap. split; assumption.
  - destruct s as [|c s]; [discriminate|].
    destruct (atom_match ic a c) eqn:Hc; [|discriminate].
    apply (star_sound a s cap) in H. destruct H as (s1 & H1 & Hk).
    exists s1, cap. split; [now constructor | exact Hk].
  - apply IH1 in H. destruct H as (s1 & cap1 & H1 & Hk).
    exists s1, (Some (consumed s s1)). split; [econstructor; eauto | exact Hk].
Qed.

(** Completeness: where there is a match that the continuation accepts,
    the matcher returns a result. *)
Lemma run_complete {R : Type} (r : regex) (s s1 : string) (cap cap1 : option string) :
  steps ic r s cap s1 cap1 ->
  forall (k : string -> option string -> option R) (x : R),
    k s1 cap1 = Some x -> exists y, run ic r s cap k = Some y.
Proof.
  induction 1; intros k x Hk; simpl.
  - eauto.
  - rewrite H. eauto.
  - destruct (IHsteps2 k x Hk) as [y Hy].
    apply (IHsteps1 (fun s1 cap1 => run ic r2 s1 cap1 k) y Hy).
  - destruct (IHsteps k x Hk) as [y Hy]. rewrite Hy. eauto.
  - destruct (run ic r s cap k); eauto.
  - apply (star_complete a s s cap cap (fun s1 => k s1 cap) x); [constructor | exact Hk].
  - apply (star_complete a (String c s) s1 cap cap (fun s1 => k s1 cap) x);
      [now constructor | exact Hk].
  - rewrite H.
    apply (star_complete a s s1 cap cap (fun s1 => k s1 cap) x); [exact H0 | exact Hk].
  - apply (IHsteps (fun s1 _ => k s1 (Some (consumed s s1))) x Hk).
Qed.

Lemma search_sound (r : regex) (text : string) (cap : option string) :
  search ic r text = Some cap ->
  exists pre s rest, text = pre +:+ s /\ steps ic r s None rest cap.
Proof.
  induction text as [|c text IH]; simpl.
  - destruct (run ic r "" None (fun _ cap0 => Some cap0)) as [y|] eqn:Hr; [|discriminate].
    intros [= ->]. apply run_sound in Hr. destruct Hr as (s1 & cap1 & H1 & [= ->]).
    exists "", "", s1. split; [reflexivity | exact H1].
  - destruct (run ic r (String c text) None (fun _ cap0 => Some cap0)) as [y|] eqn:Hr.
    + intros [= ->]. apply run_sound in Hr. destruct Hr as (s1 & cap1 & H1 & [= ->]).
      exists "", (String c text), s1. split; [reflexivity | exact H1].
    + intros H. apply IH in H. destruct H as (pre & s & rest & -> & Hs).
      exists (String c pre), s, rest. split; [reflexivity | exact Hs].
Qed.

Lemma search_complete (r : regex) (pre s rest : string) (cap : option string) :
  steps ic r s None rest cap ->
  exists cap', search ic r (pre +:+ s) = Some cap'.
Proof.
  intros Hs.
  assert (Hhere : exists cap', search ic r s = Some cap').
  { destruct (run_complete r s rest None cap Hs (fun _ cap0 => Some cap0) cap eq_refl)
      as [y Hy].
    destruct s; simpl; rewrite Hy; eauto. }
  induction pre as [|c pre IH]; simpl; [exact Hhere|].
  destruct (run ic r (String c (pre +:+ s)) None (fun _ cap0 => Some cap0)); eauto.
Qed.

End MatcherFacts.

(** ** Order-id extraction *)

Section ExtractFacts.

Import Re ReSpec DialogueSystem.

Lemma length_append (w s : string) :
  String.length (w +:+ s) = (String.length w + String.length s)%nat.
Proof. induction w as [|c w IH]; simpl; [reflexivity | now rewrite IH]. Qed.

Lemma substring_prefix (w s : string) :
  String.substring 0 (String.length w) (w +:+ s) = w.
Proof.
  induction w as [|c w IH]; simpl.
  - now destruct s.
  - now rewrite IH.
Qed.

Lemma consumed_append (w s : string) : consumed (w +:+ s) s = w.
Proof.
  unfold consumed. rewrite length_append.
  replace (String.length w + String.length s - String.length s)%nat
    with (String.length w) by lia.
  apply substring_prefix.
Qed.

Lemma star_consumed (ic : bool) (a : atom) (s s1 : string) (cap cap1 : option string) :
  steps ic (Star a) s cap s1 cap1 ->
  exists w, s = w +:+ s1 /\ all_chars (atom_match ic a) w = true.
Proof.
  intros H. remember (Star a) as r eqn:Hr. revert Hr.
  induction H; intros Hr; inversion Hr; subst.
  - exists "". split; reflexivity.
  - destruct (IHsteps eq_refl) as (w & -> & Hw).
    exists (String c w). split; [reflexivity|]. simpl. now rewrite H, Hw.
Qed.

Lemma ranges_alnum (c : ascii) :
  atom_match true (Ranges (("A"%char, "Z"%char) :: ("0"%char, "9"%char) :: nil)) c
  = is_alnum c.
Proof.
  destruct c as [[] [] [] [] [] [] [] []]; reflexivity.
Qed.

Lemma all_chars_ext (p q : ascii -> bool) (s : string) :
  (forall c, p c = q c) -> all_chars p s = all_chars q s.
Proof. intros H. induction s as [|c s IH]; simpl; [reflexivity | now rewrite H, IH]. Qed.

(** A match of the pattern sets the group to a non-empty run of letters
    and digits. *)
Lemma order_id_pattern_group (s rest : string) (cap cap' : option string) :
  steps true order_id_pattern s cap rest cap' ->
  exists id, cap' = Some id /\ id <> "" /\ all_chars is_alnum id = true.
Proof.
  unfold order_id_pattern. intros H.
  repeat match goal with
         | Hs : steps _ (Seq _ _) _ _ _ _ |- _ => inversion Hs; subst; clear Hs
         end.
  match goal with
  | Hg : steps _ (Group _) _ _ _ _ |- _ => inversion Hg; subst; clear Hg
  end.
  match goal with
  | Hp : steps _ (Plus _) _ _ _ _ |- _ => inversion Hp; subst; clear Hp
  end.
  match goal with
  | Hst : steps _ (Star (Ranges _)) _ _ _ _ |- _ =>
      destruct (star_consumed _ _ _ _ _ _ Hst) as (w & -> & Hw)
  end.
  exists (String c w). split; [|split].
  - f_equal. apply (consumed_append (String c w)).
  - discriminate.
  - simpl. rewrite <- ranges_alnum.
    rewrite (all_chars_ext _ _ w (fun c0 => eq_sym (ranges_alnum c0))).
    match goal with Hc : atom_match _ _ c = true |- _ => rewrite Hc end.
    exact Hw.
Qed.

(** C8, amended.  [_extract_order_id] yields ORD001, abc123 and nothing
    on the three sample texts.  In general, an id that it yields is the
    group of a match, somewhere in the text and ignoring case, of: the
    word order, optional blanks, an optional id, an optional colon,
    optional blanks, and the group of one or more letters or digits; and
    wherever the text has such a match, it yields an id. *)
Theorem extract_order_id_matches_pattern :
  (_extract_order_id "Track my order ORD001" = Some "ORD001"
   /\ _extract_order_id "order id: abc123" = Some "abc123"
   /\ _extract_order_id "hello" = None)
  /\ (forall text id,
        _extract_order_id text = Some id ->
        exists pre s rest,
          text = pre +:+ s
          /\ steps true order_id_pattern s None rest (Some id)
          /\ id <> "" /\ all_chars is_alnum id = true)
  /\ (forall pre s rest cap,
        steps true order_id_pattern s None rest cap ->
        exists id, _extract_order_id (pre +:+ s) = Some id).
Proof.
  split; [repeat split; reflexivity|]. split.
  - intros text id H. unfold _extract_order_id in H.
    destruct (search true order_id_pattern text) as [[id'|]|] eqn:Hs; try discriminate.
    inversion H; subst id'.
    apply search_sound in Hs. destruct Hs as (pre & s & rest & -> & Hst).
    exists pre, s, rest. split; [reflexivity|]. split; [exact Hst|].
    destruct (order_id_pattern_group _ _ _ _ Hst) as (id0 & [= <-] & Hne & Hal).
    now split.
  - intros pre s rest cap Hst.
    destruct (search_complete true order_id_pattern pre s rest cap Hst) as [cap' Hs].
    unfold _extract_order_id. rewrite Hs.
    apply search_sound in Hs. destruct Hs as (pre' & s' & rest' & _ & Hst').
    destruct (order_id_pattern_group _ _ _ _ Hst') as (id & -> & _).
    eauto.
Qed.

End ExtractFacts.

Lemma extract_order_id_matches_pattern_witness :
  exists pre s rest,
    "order id: abc123" = pre +:+ s
    /\ ReSpec.steps true DialogueSystem.order_id_pattern s None rest (Some "abc123")
    /\ "abc123" <> "" /\ ReSpec.all_chars ReSpec.is_alnum "abc123" = true.
Proof.
  apply (proj1 (proj2 extract_order_id_matches_pattern) "order id: abc123" "abc123").
  reflexivity.
Defined.

(** C8 as it is stated fails: the pattern as worded has no blanks between
    order and id, and on the second sample text it captures id where the
    source captures abc123. *)
Lemma worded_pattern_differs :
  ReSpec.extract_with ReSpec.worded_pattern "order id: abc123" = Some "id"
  /\ DialogueSystem._extract_order_id "order id: abc123" = Some "abc123"
  /\ ~ (forall text,
          DialogueSystem._extract_order_id text
          = ReSpec.extract_with ReSpec.worded_pattern text).
Proof.
  split; [reflexivity|]. split; [reflexivity|].
  intros H. specialize (H "order id: abc123"). vm_compute in H. discriminate.
Qed.

(** ** The dialogue *)

Section DialogueFacts.

Import DialogueSystem DialogueSpec.

Lemma choice_in {X : Type} (rnd : nat) (seq : list X) :
  seq <> nil -> exists x, ResponseGenerator.choice rnd seq = Some x /\ List.In x seq.
Proof.
  intros Hne. unfold ResponseGenerator.choice.
  destruct seq as [|y seq]; [congruence|].
  destruct (nth_error (y :: seq) (rnd mod List.length (y :: seq))) as [x|] eqn:Hn.
  - exists x. split; [reflexivity|]. eapply nth_error_In; eauto.
  - apply nth_error_None in Hn.
    pose proof (Nat.mod_upper_bound rnd (List.length (y :: seq))) as Hlt.
    simpl in *. lia.
Qed.

(** Without entities a registered intent gets one of its templates. *)
Lemma generate_registered (rm : gmap string (list string)) (rnd : nat)
    (intent : string) (responses : list string) :
  rm !! intent = Some responses -> responses <> nil ->
  exists r, ResponseGenerator.generate rm rnd intent None = Return r /\ List.In r responses.
Proof.
  intros Hrm Hne. unfold ResponseGenerator.generate. rewrite Hrm.
  destruct (choice_in rnd responses Hne) as (r & -> & Hin). eauto.
Qed.

Lemma generate_nonempty (rm : gmap string (list string)) (rnd : nat) (intent : string) :
  templates_usable rm ->
  intent = "greeting" \/ intent = "default" ->
  exists r, ResponseGenerator.generate rm rnd intent None = Return r /\ r <> "".
Proof.
  intros Hu Htag. destruct (rm !! intent) as [responses|] eqn:Hrm.
  - destruct (Hu _ _ Htag Hrm) as [Hne Hall].
    destruct (generate_registered rm rnd intent responses Hrm Hne) as (r & Hr & Hin).
    exists r. split; [exact Hr | now apply Hall].
  - unfold ResponseGenerator.generate. rewrite Hrm. eexists. split; [reflexivity|].
    discriminate.
Qed.

Lemma collect_answers (qa : IRBasedQA.t) (sims : list Q) (idxs : list nat)
    (hits : list IRBasedQA.hit) :
  IRBasedQA.collect qa sims idxs = Some hits ->
  forall h, List.In h hits -> List.In (IRBasedQA.hit_answer h) (IRBasedQA.answers qa).
Proof.
  revert hits. induction idxs as [|idx idxs IH]; intros hits; simpl.
  - intros [= <-] h [].
  - destruct (nth_error sims idx) as [s|]; [|discriminate].
    destruct (Qlt_le_dec IRBasedQA.threshold s); [|apply IH].
    destruct (nth_error (IRBasedQA.questions qa) idx) as [qtext|]; [|discriminate].
    destruct (nth_error (IRBasedQA.answers qa) idx) as [atext|] eqn:Ha; [|discriminate].
    destruct (IRBasedQA.collect qa sims idxs) as [hits'|]; [|discriminate].
    intros [= <-] h [<- | Hin].
    + simpl. eapply nth_error_In; eauto.
    + now apply (IH hits').
Qed.

Lemma retrieve_answers (qa : IRBasedQA.t) (query : string) (top_k : Z) (h : IRBasedQA.hit) :
  List.In h (IRBasedQA.retrieve qa query top_k) ->
  List.In (IRBasedQA.hit_answer h) (IRBasedQA.answers qa).
Proof.
  unfold IRBasedQA.retrieve.
  destruct (IRBasedQA.similarities qa query) as [sims|]; [|intros []].
  destruct (IRBasedQA.collect qa sims (IRBasedQA.top_indices qa top_k sims)) as [hits|] eqn:Hc;
    [|intros []].
  apply (collect_answers qa sims _ hits Hc).
Qed.

Lemma handle_other_nonempty (rnd : nat) (user_input : string) (ds : t) :
  templates_usable (response_generator ds) -> answers_present (qa_system ds) ->
  exists r, _handle_other rnd user_input ds = Return r /\ r <> "".
Proof.
  intros Hu Ha. unfold _handle_other.
  destruct (IRBasedQA.retrieve (qa_system ds) user_input 1) as [|h hits] eqn:Hr.
  - apply generate_nonempty; [exact Hu | now right].
  - exists (IRBasedQA.hit_answer h). split; [reflexivity|].
    assert (Hin : List.In (IRBasedQA.hit_answer h) (IRBasedQA.answers (qa_system ds))).
    { apply (retrieve_answers _ user_input 1). rewrite Hr. now left. }
    unfold IRBasedQA.answers in Hin. apply in_map_iff in Hin.
    destruct Hin as (f & <- & Hf). now apply Ha.
Qed.

Lemma handle_track_order_nonempty (user_input : string) (ds : t) :
  _handle_track_order user_input ds <> "".
Proof.
  unfold _handle_track_order.
  destruct (truthy (_extract_order_id user_input)); [|discriminate].
  destruct (OrderTracker.get_order s (order_tracker ds)); discriminate.
Qed.

Lemma handle_cancel_item_frame (user_input : string) (ds : t) :
  fst (_handle_cancel_item user_input ds) <> ""
  /\ conversation_history (snd (_handle_cancel_item user_input ds)) = conversation_history ds
  /\ user_context (snd (_handle_cancel_item user_input ds)) = user_context ds
  /\ response_generator (snd (_handle_cancel_item user_input ds)) = response_generator ds.
Proof.
  unfold _handle_cancel_item.
  destruct (truthy (_extract_order_id user_input)) as [oid|]; [|now repeat split].
  destruct (OrderTracker.get_order oid (order_tracker ds)) as [o|]; [|now repeat split].
  destruct (OrderTracker.eligible o); [|now repeat split].
  destruct (OrderTracker.cancel_order oid (order_tracker ds)) as [r orders'].
  now repeat split.
Qed.

(** Whatever the intent, the handler answers with a non-empty text and
    touches neither the history nor the context. *)
Lemma handle_intent_frame (rnd : nat) (intent user_input : string) (ds : t) :
  templates_usable (response_generator ds) -> answers_present (qa_system ds) ->
  exists r ds',
    _handle_intent rnd intent user_input ds = (Return r, ds')
    /\ r <> ""
    /\ conversation_history ds' = conversation_history ds
    /\ user_context ds' = user_context ds.
Proof.
  intros Hu Ha. unfold _handle_intent.
  destruct (String.eqb intent "track_order").
  { eexists _, ds. split; [reflexivity|].
    split; [apply handle_track_order_nonempty | now split]. }
  destruct (String.eqb intent "cancel_item").
  { pose proof (handle_cancel_item_frame user_input ds) as (Hr & Hh & Hc & _).
    destruct (_handle_cancel_item user_input ds) as [r ds']. simpl in *.
    exists r, ds'. now repeat split. }
  destruct (String.eqb_spec intent "greeting") as [Hg|_].
  { destruct (generate_nonempty (response_generator ds) rnd intent Hu (or_introl Hg))
      as (r & -> & Hr).
    exists r, ds. now repeat split. }
  destruct (handle_other_nonempty rnd user_input ds Hu Ha) as (r & -> & Hr).
  exists r, ds. now repeat split.
Qed.

(** C9.  With usable templates and non-empty answers in the data, one
    call of [process_input] returns a non-empty response, and the history
    after it is the history before it followed by exactly two entries:
    the user's turn, then the assistant's turn with the response, the
    intent and the confidence of the classifier.  The context is the
    same. *)
Theorem process_input_appends_two_turns
    (now_user now_reply : Z) (rnd : nat) (user_input : string) (ds : t) :
  templates_usable (response_generator ds) ->
  answers_present (qa_system ds) ->
  exists response ds',
    process_input now_user now_reply rnd user_input ds = (Return response, ds')
    /\ response <> ""
    /\ conversation_history ds'
       = (conversation_history ds
          ++ UserTurn now_user user_input
             :: AssistantTurn now_reply response
                  (fst (IntentClassifier.classify (intent_classifier ds) user_input))
                  (snd (IntentClassifier.classify (intent_classifier ds) user_input))
             :: nil)%list
    /\ user_context ds' = user_context ds.
Proof.
  intros Hu Ha. unfold process_input.
  set (ds1 := with_history _ ds).
  change (intent_classifier ds1) with (intent_classifier ds).
  destruct (IntentClassifier.classify (intent_classifier ds) user_input)
    as [intent confidence].
  destruct (handle_intent_frame rnd intent user_input ds1 Hu Ha)
    as (r & ds2 & -> & Hr & Hh & Hc).
  eexists r, _. split; [reflexivity|]. split; [exact Hr|].
  cbn [with_history conversation_history user_context fst snd].
  rewrite Hh, Hc. subst ds1. cbn [with_history conversation_history user_context].
  split; [|reflexivity]. now rewrite <- app_assoc.
Qed.

End DialogueFacts.

Lemma sample_templates_usable :
  DialogueSpec.templates_usable
    (DialogueSystem.response_generator DialogueSpec.sample_system).
Proof.
  intros tag responses _ H.
  unfold DialogueSpec.sample_system, DialogueSystem.__init__,
    ResponseGenerator._build_response_map, IntentSpec.sample_intents in H.
  cbn [DialogueSystem.response_generator fold_left IntentClassifier.tag
         IntentClassifier.responses] in H.
  repeat (apply lookup_insert_Some in H; destruct H as [[_ <-] | [_ H]];
          [split; [discriminate | simpl; intuition (subst; discriminate)]|]).
  rewrite lookup_empty in H. discriminate.
Qed.

Lemma three_docs_answers_present :
  DialogueSpec.answers_present RetrievalSamples.three_docs.
Proof.
  intros f Hin. simpl in Hin. destruct Hin as [<- | [<- | [<- | []]]]; discriminate.
Qed.

Lemma process_input_appends_two_turns_witness :
  exists response ds',
    DialogueSystem.process_input 10 11 0 "Hello" DialogueSpec.sample_system
    = (Return response, ds')
    /\ response <> ""
    /\ DialogueSystem.conversation_history ds'
       = (DialogueSystem.conversation_history DialogueSpec.sample_system
          ++ DialogueSystem.UserTurn 10 "Hello"
             :: DialogueSystem.AssistantTurn 11 response
                  (fst (IntentClassifier.classify
                          (DialogueSystem.intent_classifier DialogueSpec.sample_system) "Hello"))
                  (snd (IntentClassifier.classify
                          (DialogueSystem.intent_classifier DialogueSpec.sample_system) "Hello"))
             :: nil)%list
    /\ DialogueSystem.user_context ds'
       = DialogueSystem.user_context DialogueSpec.sample_system.
Proof.
  apply (process_input_appends_two_turns 10 11 0 "Hello" DialogueSpec.sample_system).
  - exact sample_templates_usable.
  - exact three_docs_answers_present.
Defined.

Section RoutingFacts.

Import DialogueSystem DialogueSpec.

(** C2, amended.  Of the intents other than [track_order] and
    [cancel_item], only [greeting] is answered from its templates: when
    it has a non-empty registered set, the response of [process_input] is
    one of them.  A text classified to any other such intent, templates
    registered or not, is answered by the last branch: the answer of the
    first hit of the retriever asked for one hit or, without a hit, what
    [generate] returns for [default] without entities. *)
Theorem template_path_only_for_greeting
    (now_user now_reply : Z) (rnd : nat) (user_input : string) (ds : t) :
  let intent := fst (IntentClassifier.classify (intent_classifier ds) user_input) in
  intent <> "track_order" ->
  intent <> "cancel_item" ->
  (intent = "greeting" ->
     forall responses,
       response_generator ds !! "greeting" = Some responses -> responses <> nil ->
       exists r, fst (process_input now_user now_reply rnd user_input ds) = Return r
                 /\ List.In r responses)
  /\ (intent <> "greeting" ->
      fst (process_input now_user now_reply rnd user_input ds)
      = match IRBasedQA.retrieve (qa_system ds) user_input 1 with
        | h :: _ => Return (IRBasedQA.hit_answer h)
        | nil => ResponseGenerator.generate (response_generator ds) rnd "default" None
        end).
Proof.
  intros intent Ht Hc. subst intent. unfold process_input.
  set (ds1 := with_history _ ds).
  change (intent_classifier ds1) with (intent_classifier ds).
  destruct (IntentClassifier.classify (intent_classifier ds) user_input)
    as [intent confidence].
  simpl fst in *. unfold _handle_intent.
  apply String.eqb_neq in Ht, Hc. rewrite Ht, Hc. split.
  - intros -> responses Hrm Hne. rewrite String.eqb_refl.
    destruct (generate_registered (response_generator ds1) rnd "greeting" responses Hrm Hne)
      as (r & -> & Hin).
    exists r. split; [reflexivity | exact Hin].
  - intros Hg. apply String.eqb_neq in Hg. rewrite Hg.
    unfold _handle_other.
    change (qa_system ds1) with (qa_system ds).
    change (response_generator ds1) with (response_generator ds).
    destruct (IRBasedQA.retrieve (qa_system ds) user_input 1) as [|h hits]; [|reflexivity].
    now destruct (ResponseGenerator.generate (response_generator ds) rnd "default" None).
Qed.

End RoutingFacts.

Lemma template_path_only_for_greeting_witness :
  let intent := fst (IntentClassifier.classify
                       (DialogueSystem.intent_classifier DialogueSpec.sample_system) "Hello") in
  (intent = "greeting" ->
     forall responses,
       DialogueSystem.response_generator DialogueSpec.sample_system !! "greeting"
       = Some responses ->
       responses <> nil ->
       exists r, fst (DialogueSystem.process_input 10 11 0 "Hello" DialogueSpec.sample_system)
                 = Return r
                 /\ List.In r responses)
  /\ (intent <> "greeting" ->
      fst (DialogueSystem.process_input 10 11 0 "Hello" DialogueSpec.sample_system)
      = match IRBasedQA.retrieve
                (DialogueSystem.qa_system DialogueSpec.sample_system) "Hello" 1 with
        | h :: _ => Return (IRBasedQA.hit_answer h)
        | nil =>
            ResponseGenerator.generate
              (DialogueSystem.response_generator DialogueSpec.sample_system) 0 "default" None
        end).
Proof.
  apply (template_path_only_for_greeting 10 11 0 "Hello" DialogueSpec.sample_system).
  - vm_compute. discriminate.
  - vm_compute. discriminate.
Defined.

(** C2 as it is stated fails: the only intent of this system has a
    registered template and is not the greeting.  A text classified to it
    is never answered with the template: whatever the scores of the
    index, the index sort, the clock and the random draw, the response is
    the answer of the one question of the index or the reply for an
    intent without templates. *)
Lemma registered_intent_answered_by_retriever :
  fst (IntentClassifier.classify DialogueSpec.shipping_intents "shipping") = "shipping_info"
  /\ ResponseGenerator._build_response_map DialogueSpec.shipping_intents !! "shipping_info"
     = Some ("We ship worldwide." :: nil)
  /\ forall similarities argsort now_user now_reply rnd,
       fst (DialogueSystem.process_input now_user now_reply rnd "shipping"
              (DialogueSpec.shipping_system similarities argsort))
       = Return "3-5 business days."
       \/ fst (DialogueSystem.process_input now_user now_reply rnd "shipping"
                 (DialogueSpec.shipping_system similarities argsort))
          = Return ResponseGenerator.unknown_intent_reply.
Proof.
  split; [reflexivity|]. split; [reflexivity|].
  intros similarities argsort now_user now_reply rnd.
  set (ds := DialogueSpec.shipping_system similarities argsort).
  unfold DialogueSystem.process_input.
  change (IntentClassifier.classify _ "shipping") with ("shipping_info", Qmin (2 / 10) 1).
  cbv beta iota.
  unfold DialogueSystem._handle_intent. cbn [String.eqb Ascii.eqb Bool.eqb].
  unfold DialogueSystem._handle_other.
  cbn [DialogueSystem.qa_system DialogueSystem.response_generator
         DialogueSystem.with_history DialogueSpec.shipping_system DialogueSystem.__init__].
  match goal with
  | |- context [IRBasedQA.retrieve ?qa ?q ?k] =>
      pose proof (retrieve_answers qa q k) as Hans;
      destruct (IRBasedQA.retrieve qa q k) as [|h hits]
  end.
  - right. reflexivity.
  - left. cbn [fst]. f_equal.
    destruct (Hans h (or_introl eq_refl)) as [<- | []]. reflexivity.
Qed.

(** * Further properties of the cache *)

Section CacheRoundTrip.

Import LRUCache CacheSpec.

(** A value stored by a [put] that returned is read back by [get] until
    its time-to-live has elapsed, and the read counts as a hit, for a
    time-to-live that [timedelta] can hold. *)
Theorem get_after_put (now now' : Z) (k : string) (v : value) (c : t) :
  ttl_valid c ->
  fst (put now k v c) = Return tt ->
  (now' - now <= ttl c)%Z ->
  fst (get now' k (snd (put now k v c))) = Return v
  /\ cache_hits (snd (get now' k (snd (put now k v c)))) = S (cache_hits c)
  /\ cache_misses (snd (get now' k (snd (put now k v c)))) = cache_misses c.
Proof.
  intros Hv Hret Hage.
  destruct (put_key now k v c) as [(_ & Hl & Hts) | ((e & He) & _)]; [|congruence].
  destruct (put_keeps_settings now k v c) as (_ & Httl & Hh & Hm).
  pose proof (put_keeps_ttl_valid now k v c Hv) as Hv1.
  set (c1 := snd (put now k v c)) in *.
  rewrite (get_live now' now k v c1 Hl Hts Hv1) by (unfold ttl in *; now rewrite Httl).
  cbn [fst snd count_hit with_cache cache_hits cache_misses]. now rewrite Hh, Hm.
Qed.

Lemma lookup_del_ne (k k' : string) (d : OrderedDict.t) :
  k' <> k -> OrderedDict.lookup k' (OrderedDict.del k d) = OrderedDict.lookup k' d.
Proof.
  intros Hne. induction d as [|[k0 v0] d IH]; simpl; [reflexivity|].
  destruct (String.eqb_spec k0 k) as [->|Hk0]; simpl.
  - destruct (String.eqb_spec k k'); [congruence | exact IH].
  - destruct (String.eqb k0 k'); [reflexivity | exact IH].
Qed.

(** Once the time-to-live of an entry has elapsed, [get] answers [None],
    counts a miss and removes the entry with its timestamp; the other
    entries stay as they were.  The time-to-live is one that [timedelta]
    can hold. *)
Theorem get_expired_removes (now stamp : Z) (k : string) (c : t) :
  ttl_valid c ->
  OrderedDict.mem k (cache c) = true ->
  timestamps c !! k = Some stamp ->
  (ttl c < now - stamp)%Z ->
  fst (get now k c) = Return VNone
  /\ OrderedDict.mem k (cache (snd (get now k c))) = false
  /\ timestamps (snd (get now k c)) !! k = None
  /\ cache_misses (snd (get now k c)) = S (cache_misses c)
  /\ cache_hits (snd (get now k c)) = cache_hits c
  /\ (forall k', k' <> k ->
        OrderedDict.lookup k' (cache (snd (get now k c))) = OrderedDict.lookup k' (cache c)
        /\ timestamps (snd (get now k c)) !! k' = timestamps c !! k').
Proof.
  intros Hv Hmem Hts Hold. unfold get. rewrite (test_stamped now stamp k c Hmem Hts Hv).
  destruct (Z.ltb_spec (ttl c) (now - stamp)) as [_|Hbad]; [|lia].
  cbn [count_miss cache]. rewrite Hmem.
  cbn [with_cache count_miss timestamps]. rewrite Hts.
  cbn [fst snd with_timestamps with_cache count_miss cache timestamps cache_hits cache_misses].
  repeat split.
  - apply mem_del_eq.
  - apply lookup_delete_eq.
  - now apply lookup_del_ne.
  - now apply lookup_delete_ne.
Qed.

End CacheRoundTrip.

Lemma get_after_put_witness :
  fst (LRUCache.get 5 "k" (snd (LRUCache.put 0 "k" (VInt 7) (LRUCache.__init__ 2 3600))))
  = Return (VInt 7)
  /\ LRUCache.cache_hits
       (snd (LRUCache.get 5 "k" (snd (LRUCache.put 0 "k" (VInt 7) (LRUCache.__init__ 2 3600)))))
     = S (LRUCache.cache_hits (LRUCache.__init__ 2 3600))
  /\ LRUCache.cache_misses
       (snd (LRUCache.get 5 "k" (snd (LRUCache.put 0 "k" (VInt 7) (LRUCache.__init__ 2 3600)))))
     = LRUCache.cache_misses (LRUCache.__init__ 2 3600).
Proof.
  apply (get_after_put 0 5 "k" (VInt 7) (LRUCache.__init__ 2 3600)).
  - reflexivity.
  - reflexivity.
  - vm_compute. discriminate.
Defined.

Lemma get_expired_removes_witness :
  let c := snd (LRUCache.put 0 "k" (VInt 7) (LRUCache.__init__ 2 1)) in
  fst (LRUCache.get 1000001 "k" c) = Return VNone
  /\ OrderedDict.mem "k" (LRUCache.cache (snd (LRUCache.get 1000001 "k" c))) = false
  /\ LRUCache.timestamps (snd (LRUCache.get 1000001 "k" c)) !! "k" = None
  /\ LRUCache.cache_misses (snd (LRUCache.get 1000001 "k" c)) = S (LRUCache.cache_misses c)
  /\ LRUCache.cache_hits (snd (LRUCache.get 1000001 "k" c)) = LRUCache.cache_hits c
  /\ (forall k', k' <> "k" ->
        OrderedDict.lookup k' (LRUCache.cache (snd (LRUCache.get 1000001 "k" c)))
        = OrderedDict.lookup k' (LRUCache.cache c)
        /\ LRUCache.timestamps (snd (LRUCache.get 1000001 "k" c)) !! k'
           = LRUCache.timestamps c !! k').
Proof.
  apply (get_expired_removes 1000001 0 "k").
  - reflexivity.
  - reflexivity.
  - reflexivity.
  - reflexivity.
Defined.

(** A time-to-live of a thousand million days is more than [timedelta]
    holds: the read of a stored key raises when it builds it, before
    anything is counted, and the cache is as it was. *)
Lemma get_overflow_raises :
  let c := snd (LRUCache.put 0 "k" (VInt 7) (LRUCache.__init__ 2 86400000000000)) in
  LRUCache.get 5 "k" c = (Raise OverflowError, c).
Proof. reflexivity. Qed.

Section CacheInvariants.

Import LRUCache CacheSpec CacheOps.

Lemma length_del_le (k : string) (d : OrderedDict.t) :
  (List.length (OrderedDict.del k d) <= List.length d)%nat.
Proof.
  induction d as [|[k0 v0] d IH]; simpl; [lia|].
  destruct (String.eqb k0 k); simpl; lia.
Qed.

Lemma length_del_mem (k : string) (d : OrderedDict.t) :
  OrderedDict.mem k d = true ->
  (S (List.length (OrderedDict.del k d)) <= List.length d)%nat.
Proof.
  induction d as [|[k0 v0] d IH]; simpl; [discriminate|].
  destruct (String.eqb k0 k); simpl.
  - intros _. pose proof (length_del_le k d). lia.
  - intros H. apply IH in H. lia.
Qed.

Lemma length_set_absent (k : string) (v : value) (d : OrderedDict.t) :
  OrderedDict.mem k d = false ->
  List.length (OrderedDict.set k v d) = S (List.length d).
Proof. intros H. rewrite (set_absent _ _ _ H), length_app. simpl. lia. Qed.

Lemma put_length (now : Z) (k : string) (v : value) (c : t) :
  (Z.of_nat (List.length (cache c)) <= max_size c)%Z ->
  (Z.of_nat (List.length (cache (snd (put now k v c)))) <= max_size c)%Z.
Proof.
  intros Hle. unfold put.
  destruct (OrderedDict.mem k (cache c)) eqn:Hmem.
  { cbn [snd store with_cache with_timestamps cache].
    rewrite length_set_absent by apply mem_del_eq.
    pose proof (length_del_mem k _ Hmem). lia. }
  destruct (Z.leb_spec (max_size c) (Z.of_nat (List.length (cache c)))) as [Hfull|Hroom].
  2:{ cbn [snd store with_cache with_timestamps cache].
      rewrite length_set_absent by exact Hmem. lia. }
  unfold evict. destruct (cache c) as [|kv0 rest] eqn:Hc.
  { simpl. rewrite Hc. simpl. simpl in Hle. exact Hle. }
  destruct rest as [|[rk rv] rest'].
  { simpl. simpl in Hle. lia. }
  assert (Hrest : OrderedDict.mem k ((rk, rv) :: rest') = false).
  { simpl in Hmem. apply orb_false_iff in Hmem. tauto. }
  cbn [with_cache timestamps]. simpl in Hle.
  destruct (timestamps c !! rk);
    cbn [snd store with_cache with_timestamps cache];
    rewrite length_set_absent by exact Hrest; simpl; lia.
Qed.

Lemma get_length (now : Z) (k : string) (c : t) :
  (List.length (cache (snd (get now k c))) <= List.length (cache c))%nat.
Proof.
  unfold get.
  destruct (absent_or_expired now k c) as [[|]|e] eqn:Hcond; [| |simpl; lia].
  - cbn [count_miss cache]. destruct (OrderedDict.mem k (cache c)); [|simpl; lia].
    cbn [with_cache count_miss timestamps].
    destruct (timestamps c !! k); simpl; apply length_del_le.
  - assert (Hmem : OrderedDict.mem k (cache c) = true).
    { destruct (OrderedDict.mem k (cache c)) eqn:E; [reflexivity|].
      rewrite (test_absent now k c E) in Hcond. discriminate. }
    assert (Hlen : (List.length (OrderedDict.move_to_end k (cache c))
                    <= List.length (cache c))%nat).
    { unfold OrderedDict.move_to_end.
      destruct (OrderedDict.lookup k (cache c)); [|lia].
      rewrite length_app. simpl. pose proof (length_del_mem k _ Hmem). lia. }
    cbn [count_hit with_cache cache].
    destruct (OrderedDict.lookup k (OrderedDict.move_to_end k (cache c))); exact Hlen.
Qed.

Lemma apply_op_bounded (now : Z) (o : op) (c : t) :
  (0 <= max_size c)%Z ->
  (Z.of_nat (List.length (cache c)) <= max_size c)%Z ->
  max_size (apply_op now o c) = max_size c
  /\ (Z.of_nat (List.length (cache (apply_op now o c))) <= max_size c)%Z.
Proof.
  intros Hpos Hle. destruct o as [k|k v|]; simpl.
  - split; [apply get_keeps_settings|]. pose proof (get_length now k c). lia.
  - split; [apply put_keeps_settings | now apply put_length].
  - split; [reflexivity | exact Hpos].
Qed.

(** Whatever is called, in whatever order and at whatever times, a cache
    created with a capacity that is not negative never holds more entries
    than its capacity, also after a call that raised. *)
Theorem cache_never_exceeds_capacity (capacity ttl_s : Z) (calls : list (Z * op)) :
  (0 <= capacity)%Z ->
  (Z.of_nat (List.length (cache (run calls (__init__ capacity ttl_s)))) <= capacity)%Z.
Proof.
  intros Hpos. unfold run.
  assert (H0 : max_size (__init__ capacity ttl_s) = capacity
               /\ (Z.of_nat (List.length (cache (__init__ capacity ttl_s))) <= capacity)%Z)
    by (split; [reflexivity | exact Hpos]).
  revert H0. generalize (__init__ capacity ttl_s).
  induction calls as [|[now o] calls IH]; intros c [Hm Hle]; simpl; [exact Hle|].
  apply IH. rewrite <- Hm in *.
  destruct (apply_op_bounded now o c Hpos Hle) as [Hm' Hle']. split; assumption.
Qed.

(** A call of [get] moves exactly one of the two counters by one,
    unless the expiry test raised: then the object is as it was. *)
Lemma get_counts_once (now : Z) (k : string) (c : t) :
  (fst (get now k c) = Raise OverflowError /\ snd (get now k c) = c)
  \/ (fst (get now k c) <> Raise OverflowError
      /\ ((cache_hits (snd (get now k c)) = S (cache_hits c)
           /\ cache_misses (snd (get now k c)) = cache_misses c)
          \/ (cache_hits (snd (get now k c)) = cache_hits c
              /\ cache_misses (snd (get now k c)) = S (cache_misses c)))).
Proof.
  unfold get.
  destruct (absent_or_expired now k c) as [[|]|e] eqn:Hcond.
  - right. cbn [count_miss cache].
    destruct (OrderedDict.mem k (cache c)); [|simpl; split; [discriminate | auto]].
    cbn [with_cache count_miss timestamps].
    destruct (timestamps c !! k); simpl; (split; [discriminate | auto]).
  - right. cbn [count_hit with_cache cache].
    destruct (OrderedDict.lookup k (OrderedDict.move_to_end k (cache c))); simpl;
      (split; [discriminate | auto]).
  - left. apply test_raises in Hcond. destruct Hcond as [-> _]. auto.
Qed.

Lemma get_valid_no_overflow (now : Z) (k : string) (c : t) :
  ttl_valid c -> fst (get now k c) <> Raise OverflowError.
Proof.
  intros Hv. unfold get.
  destruct (absent_or_expired now k c) as [[|]|e] eqn:Hcond.
  - cbn [count_miss cache]. destruct (OrderedDict.mem k (cache c)); [|discriminate].
    cbn [with_cache count_miss timestamps]. destruct (timestamps c !! k); discriminate.
  - cbn [count_hit with_cache cache].
    destruct (OrderedDict.lookup k (OrderedDict.move_to_end k (cache c))); discriminate.
  - apply test_raises in Hcond. tauto.
Qed.

Lemma apply_op_keeps_ttl_valid (now : Z) (o : op) (c : t) :
  ttl_valid c -> ttl_valid (apply_op now o c).
Proof.
  destruct o as [k|k v|]; simpl;
    [apply get_keeps_ttl_valid | apply put_keeps_ttl_valid | auto].
Qed.

(** The counters count the calls of [get].  A call of [get] moves one
    of the two counters by one, also when it raised [KeyError]; only when
    the expiry test raised [OverflowError] does it count nothing, and the
    cache is then as it was.  [put] and [clear] move neither counter.  So
    with a time-to-live that [timedelta] can hold, the two counters
    together have grown by the number of the calls of [get]. *)
Theorem counters_count_gets (calls : list (Z * op)) (c : t) :
  (forall now k,
     (fst (get now k c) = Raise OverflowError /\ snd (get now k c) = c)
     \/ (fst (get now k c) <> Raise OverflowError
         /\ ((cache_hits (snd (get now k c)) = S (cache_hits c)
              /\ cache_misses (snd (get now k c)) = cache_misses c)
             \/ (cache_hits (snd (get now k c)) = cache_hits c
                 /\ cache_misses (snd (get now k c)) = S (cache_misses c)))))
  /\ (forall now k v,
        cache_hits (snd (put now k v c)) = cache_hits c
        /\ cache_misses (snd (put now k v c)) = cache_misses c)
  /\ (cache_hits (clear c) = cache_hits c /\ cache_misses (clear c) = cache_misses c)
  /\ (ttl_valid c ->
      (cache_hits (run calls c) + cache_misses (run calls c)
       = cache_hits c + cache_misses c + gets calls)%nat).
Proof.
  split; [intros now k; apply get_counts_once|].
  split; [intros now k v; destruct (put_keeps_settings now k v c) as (_ & _ & Hh & Hm); auto|].
  split; [split; reflexivity|].
  unfold run, gets. revert c.
  induction calls as [|[now o] calls IH]; intros c Hv; simpl; [lia|].
  rewrite IH by now apply apply_op_keeps_ttl_valid.
  destruct o as [k|k v|]; simpl.
  - destruct (get_counts_once now k c) as [[Ho _] | [_ [[-> ->] | [-> ->]]]]; [|lia|lia].
    now apply get_valid_no_overflow in Ho.
  - destruct (put_keeps_settings now k v c) as (_ & _ & -> & ->). lia.
  - lia.
Qed.

End CacheInvariants.

Lemma counters_count_gets_witness :
  let c := LRUCache.__init__ 2 3600 in
  let calls := ((0, CacheOps.Get "a") :: (1, CacheOps.Put "a" (VInt 1))
                :: (2, CacheOps.Get "a") :: (3, CacheOps.Clear) :: nil)%Z in
  (LRUCache.cache_hits (CacheOps.run calls c) + LRUCache.cache_misses (CacheOps.run calls c)
   = LRUCache.cache_hits c + LRUCache.cache_misses c + CacheOps.gets calls)%nat.
Proof.
  intros c calls.
  apply (proj2 (proj2 (proj2 (counters_count_gets calls c)))).
  reflexivity.
Defined.

Lemma cache_never_exceeds_capacity_witness :
  (Z.of_nat (List.length (LRUCache.cache
     (CacheOps.run ((0, CacheOps.Put "a" (VInt 1)) :: (1, CacheOps.Put "b" (VInt 2))
                    :: (2, CacheOps.Put "c" (VInt 3)) :: (3, CacheOps.Get "b") :: nil)%Z
        (LRUCache.__init__ 2 3600)))) <= 2)%Z.
Proof.
  apply (cache_never_exceeds_capacity 2 3600). lia.
Defined.

Section MemoServed.

Import LRUCache CacheSpec CacheResult.

Context {A : Type}.
Variable make_key : A -> string.
Variable func : A -> value.

(** What a call that ran the function and returned leaves in the cache:
    the result under the key, stamped with the clock reading of [put]. *)
Lemma wrapper_stores (now_get now_put : Z) (args : A) (st : state) :
  fst (wrapper make_key func now_get now_put args st) = Return (func args) ->
  calls (snd (wrapper make_key func now_get now_put args st)) = S (calls st) ->
  OrderedDict.lookup (make_key args)
    (cache (memo (snd (wrapper make_key func now_get now_put args st))))
  = Some (func args)
  /\ timestamps (memo (snd (wrapper make_key func now_get now_put args st))) !! make_key args
     = Some now_put
  /\ ttl_seconds (memo (snd (wrapper make_key func now_get now_put args st)))
     = ttl_seconds (memo st).
Proof.
  unfold wrapper.
  pose proof (get_keeps_settings now_get (make_key args) (memo st)) as [_ Hg].
  destruct (get now_get (make_key args) (memo st)) as [[cached|e] c1];
    [|discriminate]. simpl in Hg.
  destruct (negb (is_none cached)).
  { simpl. intros _ Hc. lia. }
  pose proof (put_key now_put (make_key args) (func args) c1) as Hk.
  pose proof (put_keeps_settings now_put (make_key args) (func args) c1) as (_ & Hp & _).
  destruct (put now_put (make_key args) (func args) c1) as [[u|e] c2]; [|discriminate].
  simpl in *. intros _ _.
  destruct Hk as [(_ & Hl & Hts) | ((e & He) & _)]; [|discriminate].
  rewrite Hp, Hg. auto.
Qed.

(** A result that is not [None] is memoized: after a call that ran the
    function and returned, the next call on the same arguments made
    before the time-to-live has elapsed returns the stored result and
    does not run the function again.  The time-to-live is one that
    [timedelta] can hold. *)
Theorem non_none_result_is_served
    (now_get now_put now_get' now_put' : Z) (args : A) (st : state) :
  ttl_valid (memo st) ->
  func args <> VNone ->
  fst (wrapper make_key func now_get now_put args st) = Return (func args) ->
  calls (snd (wrapper make_key func now_get now_put args st)) = S (calls st) ->
  (now_get' - now_put <= ttl (memo st))%Z ->
  fst (wrapper make_key func now_get' now_put' args
         (snd (wrapper make_key func now_get now_put args st)))
  = Return (func args)
  /\ calls (snd (wrapper make_key func now_get' now_put' args
                   (snd (wrapper make_key func now_get now_put args st))))
     = S (calls st).
Proof.
  intros Hvalid Hv Hret Hcalls Hage.
  destruct (wrapper_stores now_get now_put args st Hret Hcalls) as (Hl & Hts & Httl).
  set (st1 := snd (wrapper make_key func now_get now_put args st)) in *.
  assert (Hvalid1 : ttl_valid (memo st1)).
  { unfold ttl_valid, ttl in *. now rewrite Httl. }
  unfold wrapper.
  rewrite (get_live now_get' now_put (make_key args) (func args) (memo st1) Hl Hts Hvalid1)
    by (unfold ttl in *; rewrite Httl; exact Hage).
  destruct (func args) eqn:Hf; [congruence | |]; simpl; auto.
Qed.

End MemoServed.

Lemma non_none_result_is_served_witness :
  let st := CacheResult.mk_state (LRUCache.__init__ 2 3600) 0 in
  let f := fun a : string => VStr a in
  fst (CacheResult.wrapper (fun a : string => a) f 7 8 "q"
         (snd (CacheResult.wrapper (fun a : string => a) f 0 1 "q" st)))
  = Return (f "q")
  /\ CacheResult.calls
       (snd (CacheResult.wrapper (fun a : string => a) f 7 8 "q"
               (snd (CacheResult.wrapper (fun a : string => a) f 0 1 "q" st))))
     = S (CacheResult.calls st).
Proof.
  apply (non_none_result_is_served (fun a : string => a) (fun a : string => VStr a) 0 1 7 8 "q").
  - reflexivity.
  - discriminate.
  - reflexivity.
  - reflexivity.
  - vm_compute. discriminate.
Defined.

(** * Further properties of the order store *)

Section OrderStoreFacts.

Import OrderTracker.

Lemma cancel_order_none_eligible (oid : string) (orders : t) :
  (forall o, List.In o orders -> same_id o oid && eligible o = false) ->
  cancel_order oid orders = (false, orders).
Proof.
  induction orders as [|o rest IH]; intros H; simpl; [reflexivity|].
  rewrite (H o) by (now left).
  rewrite IH; [reflexivity|]. intros o' Hin. apply H. now right.
Qed.

(** [cancel_order] cancels the first order that has the id and is
    pending or processing, and nothing else: its status becomes the text
    cancelled, its other fields and the other orders stay; when there is
    none it returns [False] and the store is unchanged. *)
Theorem cancel_order_first_eligible (oid : string) (orders : t) :
  (cancel_order oid orders = (false, orders)
   /\ forall o, List.In o orders -> same_id o oid && eligible o = false)
  \/ (exists pre o post,
        orders = (pre ++ o :: post)%list
        /\ (forall o', List.In o' pre -> same_id o' oid && eligible o' = false)
        /\ same_id o oid = true /\ eligible o = true
        /\ cancel_order oid orders
           = (true,
              (pre ++ {| order_id := order_id o;
                         customer_id := customer_id o;
                         status := "cancelled";
                         delivery_date := delivery_date o |} :: post)%list)).
Proof.
  induction orders as [|o rest IH]; simpl.
  - left. split; [reflexivity | intros o []].
  - destruct (same_id o oid && eligible o) eqn:Ho.
    + right. exists nil, o, rest. apply andb_true_iff in Ho.
      split; [reflexivity|]. split; [intros o' []|]. tauto.
    + destruct IH as [[Hc Hnone] | (pre & o1 & post & -> & Hpre & Hid & Hel & Hc)].
      * left. rewrite Hc. split; [reflexivity|].
        intros o' [<- | Hin]; [exact Ho | now apply Hnone].
      * right. exists (o :: pre), o1, post. rewrite Hc.
        split; [reflexivity|]. split; [|tauto].
        intros o' [<- | Hin]; [exact Ho | now apply Hpre].
Qed.

Lemma get_order_first (oid : string) (pre post : t) (o : order) :
  (forall o', List.In o' pre -> same_id o' oid = false) ->
  same_id o oid = true ->
  get_order oid (pre ++ o :: post)%list = Some o.
Proof.
  intros Hpre Ho. induction pre as [|p pre IH]; simpl.
  - now rewrite Ho.
  - rewrite (Hpre p) by (now left). apply IH. intros o' Hin. apply Hpre. now right.
Qed.

Lemma get_order_split (oid : string) (orders : t) (o : order) :
  get_order oid orders = Some o ->
  exists pre post,
    orders = (pre ++ o :: post)%list
    /\ (forall o', List.In o' pre -> same_id o' oid = false)
    /\ same_id o oid = true.
Proof.
  induction orders as [|p rest IH]; simpl; [discriminate|].
  destruct (same_id p oid) eqn:Hp.
  - intros [= ->]. exists nil, rest. split; [reflexivity|]. split; [intros o' []|exact Hp].
  - intros H. destruct (IH H) as (pre & post & -> & Hpre & Ho).
    exists (p :: pre), post. split; [reflexivity|]. split; [|exact Ho].
    intros o' [<- | Hin]; [exact Hp | now apply Hpre].
Qed.

(** [get_order] answers the first order with the id, ids compared
    ignoring case, and [None] exactly when no order has it. *)
Theorem get_order_first_match (oid : string) (orders : t) :
  match get_order oid orders with
  | Some o =>
      exists pre post,
        orders = (pre ++ o :: post)%list
        /\ (forall o', List.In o' pre -> same_id o' oid = false)
        /\ PyStr.upper (order_id o) = PyStr.upper oid
  | None => forall o, List.In o orders -> PyStr.upper (order_id o) <> PyStr.upper oid
  end.
Proof.
  destruct (get_order oid orders) as [o|] eqn:Hg.
  - destruct (get_order_split oid orders o Hg) as (pre & post & Heq & Hpre & Ho).
    exists pre, post. split; [exact Heq|]. split; [exact Hpre|].
    now apply String.eqb_eq.
  - induction orders as [|p rest IH]; [intros o []|].
    simpl in Hg. destruct (same_id p oid) eqn:Hp; [discriminate|].
    intros o [<- | Hin]; [now apply String.eqb_neq | now apply IH].
Qed.

(** The order that [get_order] finds, when it is pending or processing,
    is the one that [cancel_order] cancels: the call returns [True] and a
    new lookup finds the same order with the status cancelled. *)
Theorem cancel_found_order (oid : string) (orders : t) (o : order) :
  get_order oid orders = Some o ->
  eligible o = true ->
  fst (cancel_order oid orders) = true
  /\ get_order oid (snd (cancel_order oid orders))
     = Some {| order_id := order_id o;
               customer_id := customer_id o;
               status := "cancelled";
               delivery_date := delivery_date o |}.
Proof.
  intros Hg Hel.
  destruct (get_order_split oid orders o Hg) as (pre & post & -> & Hpre & Ho).
  assert (Hc : cancel_order oid (pre ++ o :: post)%list
               = (true, (pre ++ set_status "cancelled" o :: post)%list)).
  { clear Hg. induction pre as [|p pre IH]; simpl.
    - now rewrite Ho, Hel.
    - rewrite (Hpre p) by (now left). simpl.
      rewrite IH by (intros o' Hin; apply Hpre; now right). reflexivity. }
  rewrite Hc. split; [reflexivity|]. simpl.
  now apply (get_order_first oid pre post (set_status "cancelled" o)).
Qed.

End OrderStoreFacts.

Lemma cancel_found_order_witness :
  let o := OrderTracker.mk_order "ORD001" "C1" "processing" "2024-01-10" in
  fst (OrderTracker.cancel_order "ord001" (o :: nil)) = true
  /\ OrderTracker.get_order "ord001" (snd (OrderTracker.cancel_order "ord001" (o :: nil)))
     = Some {| OrderTracker.order_id := OrderTracker.order_id o;
               OrderTracker.customer_id := OrderTracker.customer_id o;
               OrderTracker.status := "cancelled";
               OrderTracker.delivery_date := OrderTracker.delivery_date o |}.
Proof.
  intros o. apply (cancel_found_order "ord001" (o :: nil) o); reflexivity.
Defined.

(** * Further properties of the classifier *)

Section ClassifierRange.

Import IntentClassifier IntentSpec ScoreSpec.
Local Open Scope Q_scope.

Lemma pattern_score_nonneg (u p : string) : 0 <= pattern_score u p.
Proof.
  unfold pattern_score. destruct (PyStr.contains u (PyStr.lower p)); [discriminate|].
  apply Qmult_le_0_compat; [|discriminate].
  unfold Qle. simpl. lia.
Qed.

Lemma sound_assign (intents : list intent) (k : string) (d : scores) :
  List.In k (map tag intents) -> sound_scores intents d ->
  sound_scores intents (assign k 0 d).
Proof.
  intros Hk. unfold sound_scores. induction 1 as [|[k' v'] d Hv Hd IH]; simpl.
  - constructor; [split; [discriminate | exact Hk] | constructor].
  - destruct (String.eqb k' k); constructor; simpl in *; auto.
    split; [discriminate | tauto].
Qed.

Lemma sound_increase (intents : list intent) (k : string) (v : Q) (d : scores) :
  0 <= v -> sound_scores intents d -> sound_scores intents (increase k v d).
Proof.
  intros Hv. unfold sound_scores. induction 1 as [|[k' v'] d Hv' Hd IH]; simpl.
  - constructor.
  - destruct (String.eqb k' k); constructor; simpl in *; auto.
    split; [|tauto]. replace 0 with (0 + 0) by reflexivity.
    apply Qplus_le_compat; tauto.
Qed.

Lemma sound_score_intent (intents : list intent) (u : string) (d : scores) (it : intent) :
  List.In (tag it) (map tag intents) -> sound_scores intents d ->
  sound_scores intents (score_intent u d it).
Proof.
  intros Hk Hd. unfold score_intent.
  assert (H0 : sound_scores intents (assign (tag it) 0 d)) by now apply sound_assign.
  revert H0. generalize (assign (tag it) 0 d).
  induction (patterns it) as [|p ps IH]; intros d0 H0; simpl; [exact H0|].
  apply IH. apply sound_increase; [apply pattern_score_nonneg | exact H0].
Qed.

Lemma sound_intent_scores (u : string) (intents : list intent) :
  sound_scores intents (intent_scores u intents).
Proof.
  unfold intent_scores.
  assert (Hgen : forall its d,
             (forall it, List.In it its -> List.In (tag it) (map tag intents)) ->
             sound_scores intents d ->
             sound_scores intents (fold_left (score_intent u) its d)).
  { induction its as [|it its IH]; intros d Hits Hd; simpl; [exact Hd|].
    apply IH; [intros it' Hin; apply Hits; now right|].
    apply sound_score_intent; [apply Hits; now left | exact Hd]. }
  apply Hgen; [|constructor].
  intros it Hin. now apply in_map.
Qed.

Lemma max_key_in (kv0 : string * Q) (d : scores) :
  List.In (max_key kv0 d) (kv0 :: d).
Proof.
  unfold max_key. revert kv0. induction d as [|kv d IH]; intros kv0; simpl; [now left|].
  destruct (Qle_bool (snd kv) (snd kv0)).
  - destruct (IH kv0) as [H | H]; [now left | right; now right].
  - right. apply IH.
Qed.

(** The answer of [classify] is the fallback [greeting] or a registered
    tag, and its confidence is above 0 and at most 1. *)
Theorem classify_confidence_and_tag (intents : list intent) (user_input : string) :
  0 < snd (classify intents user_input)
  /\ snd (classify intents user_input) <= 1
  /\ (fst (classify intents user_input) = "greeting"
      \/ List.In (fst (classify intents user_input)) (map tag intents)).
Proof.
  unfold classify.
  pose proof (sound_intent_scores (PyStr.lower user_input) intents) as Hs.
  destruct (intent_scores (PyStr.lower user_input) intents) as [|kv0 d].
  { simpl. repeat split; [discriminate | now left]. }
  destruct (Qeq_bool (max_value (snd kv0) d) 0) eqn:Hz.
  { simpl. repeat split; [discriminate | now left]. }
  rewrite max_value_max_key in Hz.
  pose proof (max_key_in kv0 d) as Hin.
  unfold sound_scores in Hs. rewrite List.Forall_forall in Hs.
  destruct (Hs _ Hin) as [Hnn Htag]. cbn [fst snd].
  assert (Hpos : 0 < snd (max_key kv0 d)).
  { destruct (Qle_lt_or_eq _ _ Hnn) as [Hlt | Heq]; [exact Hlt|].
    symmetry in Heq. apply Qeq_bool_iff in Heq. congruence. }
  split; [|split; [apply Q.le_min_r | now right]].
  apply Q.min_glb_lt; [|reflexivity].
  apply Qlt_shift_div_l; [reflexivity|]. now rewrite Qmult_0_l.
Qed.

End ClassifierRange.

(** * Further properties of the retriever *)

Section RetrieveMore.

Import IRBasedQA RetrievalSpec.
Local Open Scope Q_scope.

Lemma collect_entries (qa : t) (sims : list Q) (idxs : list nat) (hits : list hit) :
  collect qa sims idxs = Some hits ->
  forall h, List.In h hits ->
    exists i, List.In i idxs
      /\ nth_error sims i = Some (score h)
      /\ nth_error (questions qa) i = Some (hit_question h)
      /\ nth_error (answers qa) i = Some (hit_answer h).
Proof.
  revert hits. induction idxs as [|idx idxs IH]; intros hits; simpl.
  - intros [= <-] h [].
  - destruct (nth_error sims idx) as [s|] eqn:Hs; [|discriminate].
    assert (Hrest : forall hits', collect qa sims idxs = Some hits' ->
                    forall h, List.In h hits' ->
                      exists i, (idx = i \/ List.In i idxs)
                        /\ nth_error sims i = Some (score h)
                        /\ nth_error (questions qa) i = Some (hit_question h)
                        /\ nth_error (answers qa) i = Some (hit_answer h)).
    { intros hits' Hc h Hin. destruct (IH hits' Hc h Hin) as (i & Hi & Hrest).
      exists i. split; [now right | exact Hrest]. }
    destruct (Qlt_le_dec threshold s); [|apply Hrest].
    destruct (nth_error (questions qa) idx) as [qtext|] eqn:Hq; [|discriminate].
    destruct (nth_error (answers qa) idx) as [atext|] eqn:Ha; [|discriminate].
    destruct (collect qa sims idxs) as [hits'|]; [|discriminate].
    intros [= <-] h [<- | Hin].
    + exists idx. simpl. auto.
    + now apply (Hrest hits').
Qed.

(** Every hit is an entry of the corpus: its question and its answer are
    those of one and the same entry, and its score is the similarity of
    that entry to the query. *)
Theorem retrieve_hits_are_entries (qa : t) (query : string) (top_k : Z) (h : hit) :
  List.In h (retrieve qa query top_k) ->
  exists sims i f,
    similarities qa query = Some sims
    /\ nth_error (faqs qa) i = Some f
    /\ hit_question h = question f
    /\ hit_answer h = answer f
    /\ nth_error sims i = Some (score h).
Proof.
  unfold retrieve.
  destruct (similarities qa query) as [sims|]; [|intros []].
  destruct (collect qa sims (top_indices qa top_k sims)) as [hits|] eqn:Hc; [|intros []].
  intros Hin. destruct (collect_entries qa sims _ hits Hc h Hin) as (i & _ & Hs & Hq & Ha).
  unfold questions in Hq. unfold answers in Ha.
  rewrite nth_error_map in Hq, Ha.
  destruct (nth_error (faqs qa) i) as [f|] eqn:Hf; [|discriminate].
  simpl in Hq, Ha. inversion Hq. inversion Ha.
  exists sims, i, f. auto.
Qed.

Lemma strongly_sorted_split {X : Type} (R : X -> X -> Prop) (l1 l2 : list X) :
  StronglySorted R (l1 ++ l2)%list ->
  forall a b, List.In a l1 -> List.In b l2 -> R a b.
Proof.
  induction l1 as [|x l1 IH]; simpl; intros H a b Ha Hb; [contradiction|].
  inversion H as [|? ? Hs Hf]; subst. destruct Ha as [<- | Ha].
  - rewrite List.Forall_forall in Hf. apply Hf. apply in_app_iff. now right.
  - now apply IH.
Qed.

(** The ranking keeps the best: with an index sort that does what
    [np.argsort] promises, a document that is left out of [top_indices]
    does not score higher than one that is in. *)
Theorem top_indices_keep_the_best
    (qa : t) (top_k : Z) (sims : list Q) (i j : nat) (si sj : Q) :
  sorts (argsort qa) ->
  List.In i (top_indices qa top_k sims) ->
  ~ List.In j (top_indices qa top_k sims) ->
  nth_error sims i = Some si ->
  nth_error sims j = Some sj ->
  sj <= si.
Proof.
  intros Hsorts Hi Hj Hsi Hsj. unfold top_indices in *.
  set (L := rev (argsort qa sims)) in *.
  pose proof (reversed_argsort_sorted qa Hsorts sims) as Hsorted. fold L in Hsorted.
  destruct (slice_to_firstn top_k L) as [n Hn]. rewrite Hn in Hi, Hj.
  assert (HjL : List.In j L).
  { unfold L. apply in_rev. rewrite rev_involutive. apply (argsort_in qa Hsorts).
    apply nth_error_Some. congruence. }
  rewrite <- (firstn_skipn n L) in HjL, Hsorted.
  apply in_app_iff in HjL. destruct HjL as [Hfirst | Hrest]; [contradiction|].
  pose proof (strongly_sorted_split _ _ _ Hsorted i j Hi Hrest) as Hle.
  simpl in Hle.
  now rewrite (nth_error_nth _ _ _ Hsi), (nth_error_nth _ _ _ Hsj) in Hle.
Qed.

(** When [top_k] is at least the number of documents, every document
    that scores above the threshold is among the hits, with an index sort
    that does what [np.argsort] promises. *)
Theorem retrieve_complete_for_large_top_k
    (qa : t) (query : string) (top_k : Z) (sims : list Q) (i : nat) (s : Q) :
  sorts (argsort qa) ->
  similarities qa query = Some sims ->
  List.length sims = List.length (faqs qa) ->
  (Z.of_nat (List.length sims) <= top_k)%Z ->
  nth_error sims i = Some s ->
  threshold < s ->
  List.In (hit_at qa sims i) (retrieve qa query top_k).
Proof.
  intros Hsorts Hsims Hlen Hk Hs Habove.
  rewrite (retrieve_as_kept qa query top_k sims Hsorts Hsims Hlen).
  apply in_map. unfold kept_indices. apply filter_In. split.
  - unfold top_indices, slice_to.
    destruct (Z.leb_spec 0 top_k) as [_|Hneg]; [|lia].
    rewrite firstn_all2.
    + apply in_rev. rewrite rev_involutive. apply (argsort_in qa Hsorts).
      apply nth_error_Some. congruence.
    + rewrite length_rev, (length_argsort qa Hsorts). lia.
  - rewrite (nth_error_nth _ _ _ Hs). now apply above_spec.
Qed.

Lemma collect_none_above (qa : t) (sims : list Q) (idxs : list nat) :
  Forall (fun s => s <= threshold) sims ->
  collect qa sims idxs = Some nil \/ collect qa sims idxs = None.
Proof.
  intros Hall. induction idxs as [|idx idxs IH]; simpl; [now left|].
  destruct (nth_error sims idx) as [s|] eqn:Hs; [|now right].
  destruct (Qlt_le_dec threshold s) as [Hlt|_]; [|exact IH].
  exfalso. rewrite List.Forall_forall in Hall.
  apply nth_error_In in Hs. apply Hall in Hs. now apply (Qlt_not_le _ _ Hlt).
Qed.

(** The three ways to the empty answer: the similarity routine raises,
    [top_k] is 0, or no document scores above the threshold. *)
Theorem retrieve_empty (qa : t) (query : string) (top_k : Z) :
  (similarities qa query = None -> retrieve qa query top_k = nil)
  /\ retrieve qa query 0 = nil
  /\ (forall sims, similarities qa query = Some sims ->
                   Forall (fun s => s <= threshold) sims ->
                   retrieve qa query top_k = nil).
Proof.
  unfold retrieve. split; [|split].
  - now intros ->.
  - destruct (similarities qa query) as [sims|]; reflexivity.
  - intros sims -> Hall.
    destruct (collect_none_above qa sims (top_indices qa top_k sims) Hall) as [-> | ->];
      reflexivity.
Qed.

End RetrieveMore.

Lemma retrieve_hits_are_entries_witness :
  exists sims i f,
    IRBasedQA.similarities RetrievalSamples.three_docs "shipping time" = Some sims
    /\ nth_error (IRBasedQA.faqs RetrievalSamples.three_docs) i = Some f
    /\ IRBasedQA.hit_question
         (IRBasedQA.mk_hit "How long does shipping take?" "3-5 business days." (9 # 10))
       = IRBasedQA.question f
    /\ IRBasedQA.hit_answer
         (IRBasedQA.mk_hit "How long does shipping take?" "3-5 business days." (9 # 10))
       = IRBasedQA.answer f
    /\ nth_error sims i
       = Some (IRBasedQA.score
                 (IRBasedQA.mk_hit "How long does shipping take?" "3-5 business days." (9 # 10))).
Proof.
  apply (retrieve_hits_are_entries RetrievalSamples.three_docs "shipping time" 1).
  left. reflexivity.
Defined.

Lemma top_indices_keep_the_best_witness : (2 # 10 <= 9 # 10)%Q.
Proof.
  apply (top_indices_keep_the_best RetrievalSamples.three_docs 1
           RetrievalSamples.three_scores 1 0 (9 # 10) (2 # 10)).
  - exact ties_ascending_sorts.
  - left. reflexivity.
  - vm_compute. intros [H | []]. discriminate.
  - reflexivity.
  - reflexivity.
Defined.

Lemma retrieve_complete_for_large_top_k_witness :
  List.In (RetrievalSpec.hit_at RetrievalSamples.three_docs RetrievalSamples.three_scores 0)
    (IRBasedQA.retrieve RetrievalSamples.three_docs "shipping time" 3).
Proof.
  apply (retrieve_complete_for_large_top_k RetrievalSamples.three_docs "shipping time" 3
           RetrievalSamples.three_scores 0 (2 # 10)).
  - exact ties_ascending_sorts.
  - reflexivity.
  - reflexivity.
  - vm_compute. discriminate.
  - reflexivity.
  - reflexivity.
Defined.

Lemma retrieve_empty_witness :
  IRBasedQA.retrieve
    (RetrievalSamples.tied_docs (fun _ => 0%Q) RetrievalSamples.ties_ascending) "refund" 3
  = nil.
Proof.
  apply (proj2 (proj2 (retrieve_empty
                         (RetrievalSamples.tied_docs (fun _ => 0%Q)
                            RetrievalSamples.ties_ascending) "refund" 3))
           (0%Q :: 0%Q :: nil)).
  - reflexivity.
  - repeat constructor; vm_compute; discriminate.
Defined.

(** * Further properties of the response generator *)

Section ResponseMapFacts.

Import IntentClassifier ResponseGenerator.

Lemma build_response_map_snoc (l : list intent) (it : intent) :
  _build_response_map (l ++ it :: nil)%list
  = <[tag it := responses it]> (_build_response_map l).
Proof. unfold _build_response_map. now rewrite fold_left_app. Qed.

(** The response map knows exactly the tags of the intent definitions,
    and for a tag defined several times it holds the templates of the
    last definition. *)
Theorem response_map_last_definition (intents : list intent) (t : string) :
  match _build_response_map intents !! t with
  | None => ~ List.In t (map tag intents)
  | Some rs =>
      exists l1 it l2,
        intents = (l1 ++ it :: l2)%list
        /\ tag it = t /\ responses it = rs
        /\ ~ List.In t (map tag l2)
  end.
Proof.
  induction intents as [|it intents IH] using rev_ind.
  - unfold _build_response_map. simpl. rewrite lookup_empty. tauto.
  - rewrite build_response_map_snoc.
    destruct (String.string_dec (tag it) t) as [Heq | Hne].
    + rewrite Heq, lookup_insert_eq. exists intents, it, nil. simpl. tauto.
    + rewrite lookup_insert_ne by exact Hne.
      destruct (_build_response_map intents !! t) as [rs|].
      * destruct IH as (l1 & it1 & l2 & -> & Ht & Hr & Hl2).
        exists l1, it1, (l2 ++ it :: nil)%list.
        rewrite <- app_assoc. simpl. split; [reflexivity|]. split; [exact Ht|].
        split; [exact Hr|]. rewrite map_app, in_app_iff. simpl. tauto.
      * rewrite map_app, in_app_iff. simpl. tauto.
Qed.

End ResponseMapFacts.

Section SubstitutionFacts.

Import ResponseGenerator ReSpec TemplateSpec.

Lemma prefix_append (w s : string) : String.prefix w (w +:+ s) = true.
Proof.
  induction w as [|c w IH]; simpl; [now destruct s|].
  destruct (ascii_dec c c); [exact IH | congruence].
Qed.

Lemma string_app_assoc (s1 s2 s3 : string) :
  (s1 +:+ s2) +:+ s3 = s1 +:+ (s2 +:+ s3).
Proof.
  induction s1 as [|c s1 IH]; [reflexivity|].
  change (String c ((s1 +:+ s2) +:+ s3) = String c (s1 +:+ (s2 +:+ s3))).
  now rewrite IH.
Qed.

Lemma prefix_cons_ne (a b : ascii) (s1 s2 : string) :
  a <> b -> String.prefix (String a s1) (String b s2) = false.
Proof. intros H. simpl. destruct (ascii_dec a b); [contradiction | reflexivity]. Qed.

Lemma replace_go_skip (old new w b : string) :
  replace_go old new (w +:+ b) (String.length w) = replace_go old new b 0.
Proof.
  induction w as [|c w IH]; simpl; [|exact IH].
  destruct b; reflexivity.
Qed.

Lemma replace_go_plain (k new a rest : string) :
  all_chars not_brace a = true ->
  replace_go (String "{" k) new (a +:+ rest) 0
  = a +:+ replace_go (String "{" k) new rest 0.
Proof.
  induction a as [|c a IH]; [reflexivity|].
  cbn [all_chars]. intros H. apply andb_true_iff in H. destruct H as [Hc Ha].
  change (String c a +:+ rest) with (String c (a +:+ rest)).
  change (String c a +:+ replace_go (String "{" k) new rest 0)
    with (String c (a +:+ replace_go (String "{" k) new rest 0)).
  cbn [replace_go]. rewrite prefix_cons_ne.
  - now rewrite IH.
  - intros <-. vm_compute in Hc. discriminate.
Qed.

Lemma replace_go_hit (k new b : string) :
  replace_go (String "{" k) new (String "{" k +:+ b) 0
  = new +:+ replace_go (String "{" k) new b 0.
Proof.
  change (String "{" k +:+ b) with (String "{" (k +:+ b)). cbn [replace_go].
  change (String.prefix (String "{" k) (String "{" (k +:+ b)))
    with (String.prefix (String "{" k) (String "{" k +:+ b)).
  rewrite prefix_append. f_equal.
  change (String.length (String "{" k) - 1)%nat with (String.length k - 0)%nat.
  rewrite Nat.sub_0_r. apply replace_go_skip.
Qed.

Lemma replace_plain (k new a : string) :
  all_chars not_brace a = true -> replace (String "{" k) new a = a.
Proof.
  unfold replace. induction a as [|c a IH]; [reflexivity|].
  cbn [all_chars]. intros H. apply andb_true_iff in H. destruct H as [Hc Ha].
  cbn [replace_go]. rewrite prefix_cons_ne.
  - now rewrite IH.
  - intros <-. vm_compute in Hc. discriminate.
Qed.

Lemma substitute_plain (entities : list (string * string)) (a : string) :
  all_chars not_brace a = true -> substitute entities a = a.
Proof.
  intros H. unfold substitute.
  induction entities as [|[k v] entities IH]; cbn [fold_left fst snd]; [reflexivity|].
  change ("{" +:+ k +:+ "}") with (String "{" (k +:+ "}")).
  now rewrite replace_plain.
Qed.

(** A template with one placeholder between two texts free of braces:
    the entity of that name is put in its place. *)
Theorem generate_fills_placeholder
    (rm : gmap string (list string)) (rnd : nat) (intent : string)
    (responses : list string) (a b key val : string) :
  rm !! intent = Some responses ->
  choice rnd responses = Some (a +:+ "{" +:+ key +:+ "}" +:+ b) ->
  all_chars not_brace a = true ->
  all_chars not_brace b = true ->
  generate rm rnd intent (Some ((key, val) :: nil)) = Return (a +:+ val +:+ b).
Proof.
  intros Hrm Hch Ha Hb. unfold generate. rewrite Hrm, Hch.
  unfold substitute. cbn [fold_left fst snd]. f_equal. unfold replace.
  change ("{" +:+ key +:+ "}") with (String "{" (key +:+ "}")).
  change (a +:+ "{" +:+ key +:+ "}" +:+ b)
    with (a +:+ String "{" (key +:+ "}" +:+ b)).
  rewrite replace_go_plain by exact Ha.
  rewrite <- (string_app_assoc key "}" b).
  change (String "{" ((key +:+ "}") +:+ b)) with (String "{" (key +:+ "}") +:+ b).
  rewrite replace_go_hit. f_equal. f_equal.
  apply (replace_plain (key +:+ "}") val b Hb).
Qed.

(** A template without braces is returned as it is, whatever entities
    are supplied. *)
Theorem generate_keeps_plain_template
    (rm : gmap string (list string)) (rnd : nat) (intent : string)
    (responses : list string) (template : string)
    (entities : option (list (string * string))) :
  rm !! intent = Some responses ->
  choice rnd responses = Some template ->
  all_chars not_brace template = true ->
  generate rm rnd intent entities = Return template.
Proof.
  intros Hrm Hch Hplain. unfold generate. rewrite Hrm, Hch.
  destruct entities as [[|e es]|]; try reflexivity.
  now rewrite substitute_plain.
Qed.

End SubstitutionFacts.

Lemma generate_fills_placeholder_witness :
  ResponseGenerator.generate TemplateSpec.welcome_map 3 "welcome"
    (Some (("name", "Ada") :: nil))
  = Return ("Hello " +:+ "Ada" +:+ ", how can I help?").
Proof.
  apply (generate_fills_placeholder TemplateSpec.welcome_map 3 "welcome"
           ("Hello {name}, how can I help?" :: nil) "Hello " ", how can I help?" "name" "Ada");
    reflexivity.
Defined.

Lemma generate_keeps_plain_template_witness :
  ResponseGenerator.generate
    (DialogueSystem.response_generator DialogueSpec.sample_system) 1 "greeting"
    (Some (("name", "Ada") :: nil))
  = Return "Hi there!".
Proof.
  apply (generate_keeps_plain_template _ 1 "greeting"
           ("Hello! How can I help you today?" :: "Hi there!" :: nil)); reflexivity.
Defined.

(** * Further properties of the dialogue *)

Section DialogueMore.

Import DialogueSystem DialogueSpec ConversationSpec.

Lemma cancel_order_found (oid : string) (orders : OrderTracker.t) (o : OrderTracker.order) :
  OrderTracker.get_order oid orders = Some o ->
  OrderTracker.eligible o = true ->
  exists orders',
    OrderTracker.cancel_order oid orders = (true, orders')
    /\ OrderTracker.get_order oid orders' = Some (OrderTracker.set_status "cancelled" o).
Proof.
  induction orders as [|p rest IH]; simpl; [discriminate|].
  destruct (OrderTracker.same_id p oid) eqn:Hp.
  - intros [= ->] Hel. rewrite Hel. simpl. eexists. split; [reflexivity|].
    simpl. unfold OrderTracker.same_id in *. simpl. now rewrite Hp.
  - intros Hg Hel. simpl. destruct (IH Hg Hel) as (orders' & -> & Hg').
    eexists. split; [reflexivity|]. simpl. now rewrite Hp.
Qed.

(** The reply to a cancellation request tells what happened to the
    store: either it is the refusal and the system is unchanged, or it
    names the id found in the text, the order that the store finds for
    this id was pending or processing, and the store now finds it with
    the status cancelled and its other fields as they were. *)
Theorem cancel_reply_is_truthful (user_input : string) (ds : t) :
  _handle_cancel_item user_input ds = (cannot_cancel_reply, ds)
  \/ exists oid o,
       _extract_order_id user_input = Some oid
       /\ OrderTracker.get_order oid (order_tracker ds) = Some o
       /\ OrderTracker.eligible o = true
       /\ fst (_handle_cancel_item user_input ds)
          = "Order " +:+ oid +:+ " has been cancelled successfully."
       /\ OrderTracker.get_order oid (order_tracker (snd (_handle_cancel_item user_input ds)))
          = Some {| OrderTracker.order_id := OrderTracker.order_id o;
                  OrderTracker.customer_id := OrderTracker.customer_id o;
                  OrderTracker.status := "cancelled";
                  OrderTracker.delivery_date := OrderTracker.delivery_date o |}.
Proof.
  unfold _handle_cancel_item.
  destruct (_extract_order_id user_input) as [oid|] eqn:He; [|now left].
  destruct oid as [|c oid]; [now left|]. cbn [truthy].
  destruct (OrderTracker.get_order (String c oid) (order_tracker ds)) as [o|] eqn:Hg;
    [|now left].
  destruct (OrderTracker.eligible o) eqn:Hel; [|now left].
  right. exists (String c oid), o.
  destruct (cancel_order_found _ _ _ Hg Hel) as (orders' & Hc & Hg').
  rewrite Hc. cbn [fst snd with_orders order_tracker]. auto.
Qed.

Lemma cancel_order_only_cancelled (oid : string) (orders : OrderTracker.t) :
  only_cancelled orders (snd (OrderTracker.cancel_order oid orders)).
Proof.
  unfold only_cancelled. induction orders as [|o rest IH]; simpl; [constructor|].
  destruct (OrderTracker.same_id o oid && OrderTracker.eligible o) eqn:Ho.
  - apply andb_true_iff in Ho. simpl. constructor; [right; tauto|].
    clear. induction rest; constructor; auto.
  - destruct (OrderTracker.cancel_order oid rest) as [r rest']. simpl in *.
    constructor; [now left | exact IH].
Qed.

Lemma only_cancelled_refl (orders : OrderTracker.t) : only_cancelled orders orders.
Proof. unfold only_cancelled. induction orders; constructor; auto. Qed.

Lemma handle_intent_components (rnd : nat) (intent user_input : string) (ds : t) :
  let ds' := snd (_handle_intent rnd intent user_input ds) in
  intent_classifier ds' = intent_classifier ds
  /\ qa_system ds' = qa_system ds
  /\ response_generator ds' = response_generator ds
  /\ conversation_history ds' = conversation_history ds
  /\ user_context ds' = user_context ds
  /\ only_cancelled (order_tracker ds) (order_tracker ds')
  /\ (intent <> "cancel_item" -> order_tracker ds' = order_tracker ds).
Proof.
  unfold _handle_intent.
  destruct (String.eqb intent "track_order");
    [cbn [snd]; repeat split; apply only_cancelled_refl|].
  destruct (String.eqb_spec intent "cancel_item") as [->|Hne].
  - unfold _handle_cancel_item.
    destruct (truthy (_extract_order_id user_input)) as [oid|];
      [|cbn [snd]; repeat split; try apply only_cancelled_refl; congruence].
    destruct (OrderTracker.get_order oid (order_tracker ds)) as [o|];
      [|cbn [snd]; repeat split; try apply only_cancelled_refl; congruence].
    destruct (OrderTracker.eligible o);
      [|cbn [snd]; repeat split; try apply only_cancelled_refl; congruence].
    pose proof (cancel_order_only_cancelled oid (order_tracker ds)) as Hoc.
    destruct (OrderTracker.cancel_order oid (order_tracker ds)) as [r orders'].
    cbn [snd with_orders intent_classifier qa_system response_generator
           conversation_history user_context order_tracker] in *.
    repeat split; [exact Hoc | congruence].
  - destruct (String.eqb intent "greeting");
      cbn [snd]; repeat split; apply only_cancelled_refl.
Qed.

(** One call of [process_input], also one that raises, leaves the intent
    definitions, the index, the response map and the context as they
    were; in the store it can only turn pending or processing orders into
    cancelled ones, and it leaves the store as it was unless the text was
    classified as a cancellation. *)
Theorem process_input_frame
    (now_user now_reply : Z) (rnd : nat) (user_input : string) (ds : t) :
  let ds' := snd (process_input now_user now_reply rnd user_input ds) in
  intent_classifier ds' = intent_classifier ds
  /\ qa_system ds' = qa_system ds
  /\ response_generator ds' = response_generator ds
  /\ user_context ds' = user_context ds
  /\ only_cancelled (order_tracker ds) (order_tracker ds')
  /\ (fst (IntentClassifier.classify (intent_classifier ds) user_input) <> "cancel_item" ->
      order_tracker ds' = order_tracker ds).
Proof.
  unfold process_input.
  set (ds1 := with_history _ ds).
  change (intent_classifier ds1) with (intent_classifier ds).
  destruct (IntentClassifier.classify (intent_classifier ds) user_input)
    as [intent confidence].
  pose proof (handle_intent_components rnd intent user_input ds1)
    as (Hi & Hq & Hr & _ & Hc & Ho & Hn).
  destruct (_handle_intent rnd intent user_input ds1) as [[response|e] ds2];
    cbn [fst snd with_history intent_classifier qa_system response_generator
           user_context order_tracker] in *; auto 10.
Qed.

End DialogueMore.

(** * Order ids in the messages of the API *)

Section ExtractRoundTrip.

Import Re ReSpec ExtractSpec DialogueSystem.

Lemma star_all_greedy {R : Type} (ic : bool) (a : atom) (w : string)
    (k : string -> option R) (x : R) :
  all_chars (atom_match ic a) w = true -> k "" = Some x -> star ic a w k = Some x.
Proof.
  intros Hw Hk. induction w as [|c w IH]; simpl; [exact Hk|].
  simpl in Hw. apply andb_true_iff in Hw. destruct Hw as [Hc Hw].
  now rewrite Hc, (IH Hw).
Qed.

Lemma consumed_all (s : string) : consumed s "" = s.
Proof.
  unfold consumed. simpl. rewrite Nat.sub_0_r.
  induction s as [|c s IH]; simpl; [reflexivity | now rewrite IH].
Qed.

Lemma alnum_not_space (c : ascii) : is_alnum c = true -> PyStr.is_space c = false.
Proof. destruct c as [[] [] [] [] [] [] [] []]; vm_compute; congruence. Qed.

Lemma alnum_not_colon (c : ascii) :
  is_alnum c = true -> atom_match true (Lit ":") c = false.
Proof. destruct c as [[] [] [] [] [] [] [] []]; vm_compute; congruence. Qed.

Lemma run_seq {R : Type} (r1 r2 : regex) (s : string) (cap : option string)
    (k : string -> option string -> option R) :
  run true (Seq r1 r2) s cap k = run true r1 s cap (fun s1 cap1 => run true r2 s1 cap1 k).
Proof. reflexivity. Qed.

Lemma star_space_stop {R : Type} (c : ascii) (w : string) (k : string -> option R) :
  PyStr.is_space c = false -> star true Space (String c w) k = k (String c w).
Proof. intros H. cbn [star atom_match]. now rewrite H. Qed.

Lemma run_star_space_stop {R : Type} (c : ascii) (w : string) (cap : option string)
    (k : string -> option string -> option R) :
  PyStr.is_space c = false ->
  run true (Star Space) (String c w) cap k = k (String c w) cap.
Proof. intros H. cbn [run]. now rewrite star_space_stop. Qed.

Lemma star_step {R : Type} (a : atom) (c : ascii) (s : string) (k : string -> option R) :
  star true a (String c s) k
  = if atom_match true a c
    then match star true a s k with
         | Some r => Some r
         | None => k (String c s)
         end
    else k (String c s).
Proof. reflexivity. Qed.

Lemma run_star_one_space {R : Type} (c : ascii) (w : string) (cap : option string)
    (k : string -> option string -> option R) :
  PyStr.is_space c = false ->
  run true (Star Space) (String " " (String c w)) cap k
  = match k (String c w) cap with
    | Some r => Some r
    | None => k (String " " (String c w)) cap
    end.
Proof.
  intros H.
  change (run true (Star Space) (String " " (String c w)) cap k)
    with (star true Space (String " " (String c w)) (fun s1 => k s1 cap)).
  rewrite star_step. change (atom_match true Space " ") with true. cbv iota.
  now rewrite star_space_stop.
Qed.

Lemma run_opt_colon_skip {R : Type} (c : ascii) (w : string) (cap : option string)
    (k : string -> option string -> option R) :
  atom_match true (Lit ":") c = false ->
  run true (Opt (At (Lit ":"))) (String c w) cap k = k (String c w) cap.
Proof. intros H. cbn [run]. now rewrite H. Qed.

Lemma run_literal_id_fails {R : Type} (s : string) (cap : option string)
    (k : string -> option string -> option R) :
  String.prefix "id" (PyStr.lower s) = false ->
  run true (literal "id") s cap k = None.
Proof.
  intros H. destruct s as [|c w]; [reflexivity|].
  cbn [literal run atom_match].
  change (PyStr.lower_char "i") with "i"%char.
  change (PyStr.lower_char "d") with "d"%char.
  change (PyStr.lower (String c w)) with (String (PyStr.lower_char c) (PyStr.lower w)) in H.
  destruct (Ascii.eqb_spec "i" (PyStr.lower_char c)) as [Hi | _]; [|reflexivity].
  rewrite <- Hi in H.
  destruct w as [|c2 w2]; [reflexivity|].
  change (PyStr.lower (String c2 w2))
    with (String (PyStr.lower_char c2) (PyStr.lower w2)) in H.
  destruct (Ascii.eqb_spec "d" (PyStr.lower_char c2)) as [Hd | _]; [|reflexivity].
  rewrite <- Hd in H. exfalso. revert H. clear.
  destruct (PyStr.lower w2); discriminate.
Qed.

Lemma run_opt_id_skip {R : Type} (s : string) (cap : option string)
    (k : string -> option string -> option R) :
  String.prefix "id" (PyStr.lower s) = false ->
  run true (Opt (literal "id")) s cap k = k s cap.
Proof.
  intros H. change (run true (Opt (literal "id")) s cap k)
    with (match run true (literal "id") s cap k with
          | Some x => Some x
          | None => k s cap
          end).
  now rewrite run_literal_id_fails.
Qed.

Lemma run_group_all (c : ascii) (w : string) (cap : option string) :
  all_chars is_alnum (String c w) = true ->
  run true (Group (Plus (Ranges (("A"%char, "Z"%char) :: ("0"%char, "9"%char) :: nil))))
    (String c w) cap done
  = Some (Some (String c w)).
Proof.
  cbn [all_chars]. intros H. apply andb_true_iff in H. destruct H as [Hc Hw].
  cbn [run]. rewrite ranges_alnum, Hc.
  apply star_all_greedy.
  - rewrite (all_chars_ext _ is_alnum w ranges_alnum). exact Hw.
  - unfold done. now rewrite consumed_all.
Qed.

(** After the word order and one blank, an id made of letters and
    digits that does not begin with id is captured whole. *)
Lemma run_after_order (id : string) :
  id <> "" -> all_chars is_alnum id = true ->
  String.prefix "id" (PyStr.lower id) = false ->
  run true after_order (String " " id) None done = Some (Some id).
Proof.
  intros Hne Hal Hid. destruct id as [|c w]; [congruence|].
  assert (Hc : is_alnum c = true).
  { cbn [all_chars] in Hal. apply andb_true_iff in Hal. tauto. }
  assert (Hrest : run true
                    (Seq (Opt (literal "id"))
                       (Seq (Opt (At (Lit ":")))
                          (Seq (Star Space)
                             (Group (Plus (Ranges (("A"%char, "Z"%char)
                                                   :: ("0"%char, "9"%char) :: nil)))))))
                    (String c w) None done
                  = Some (Some (String c w))).
  { rewrite run_seq, run_opt_id_skip by exact Hid.
    rewrite run_seq, run_opt_colon_skip by now apply alnum_not_colon.
    rewrite run_seq, run_star_space_stop by now apply alnum_not_space.
    now apply run_group_all. }
  unfold after_order.
  rewrite run_seq, run_star_one_space by now apply alnum_not_space.
  now rewrite Hrest.
Qed.

Lemma extract_at_order (id : string) :
  id <> "" -> all_chars is_alnum id = true ->
  String.prefix "id" (PyStr.lower id) = false ->
  _extract_order_id ("order " +:+ id) = Some id.
Proof.
  intros Hne Hal Hid. unfold _extract_order_id.
  assert (Hrun : run true order_id_pattern ("order " +:+ id) None (fun _ cap => Some cap)
                 = Some (Some id)).
  { change (run true after_order (String " " id) None done = Some (Some id)).
    now apply run_after_order. }
  change ("order " +:+ id) with (String "o" ("rder " +:+ id)) in *.
  cbn [search]. now rewrite Hrun.
Qed.

Lemma search_skip (c : ascii) (s : string) :
  atom_match true (Lit "o") c = false ->
  search true order_id_pattern (String c s) = search true order_id_pattern s.
Proof.
  intros H. cbn [search].
  assert (Hrun : run true order_id_pattern (String c s) None (fun _ cap => Some cap) = None).
  { unfold order_id_pattern. cbn [literal]. rewrite !run_seq. cbn [run]. now rewrite H. }
  now rewrite Hrun.
Qed.

Lemma extract_at_track (id : string) :
  id <> "" ->
  all_chars is_alnum id = true ->
  String.prefix "id" (PyStr.lower id) = false ->
  _extract_order_id ("Track my order " +:+ id) = Some id
  /\ _extract_order_id ("Cancel order " +:+ id) = Some id.
Proof.
  intros Hne Hal Hid.
  pose proof (extract_at_order id Hne Hal Hid) as He.
  unfold _extract_order_id in *.
  change ("Track my order " +:+ id)
    with (String "T" (String "r" (String "a" (String "c" (String "k" (String " "
           (String "m" (String "y" (String " " ("order " +:+ id)))))))))).
  change ("Cancel order " +:+ id)
    with (String "C" (String "a" (String "n" (String "c" (String "e" (String "l"
           (String " " ("order " +:+ id)))))))).
  rewrite !search_skip by reflexivity. split; exact He.
Qed.

(** The messages that the API wrapper builds to track or cancel an
    order give the id back: an id of letters and digits that does not
    begin with id (in any case) is extracted whole. *)
Theorem extract_order_id_from_api_message (id : string) :
  id <> "" ->
  all_chars is_alnum id = true ->
  String.prefix "id" (PyStr.lower id) = false ->
  _extract_order_id ("Track my order " +:+ id) = Some id
  /\ _extract_order_id ("Cancel order " +:+ id) = Some id.
Proof. exact (extract_at_track id). Qed.

End ExtractRoundTrip.

Lemma extract_order_id_from_api_message_witness :
  DialogueSystem._extract_order_id ("Track my order " +:+ "ORD001") = Some "ORD001"
  /\ DialogueSystem._extract_order_id ("Cancel order " +:+ "ORD001") = Some "ORD001".
Proof.
  apply (extract_order_id_from_api_message "ORD001"); [discriminate | reflexivity | reflexivity].
Defined.

(** An id that begins with id loses these two letters. *)
Lemma extract_order_id_drops_leading_id :
  DialogueSystem._extract_order_id "Track my order ID123" = Some "123".
Proof. reflexivity. Qed.

(** * Conversations and the API *)

Section ConversationFacts.

Import DialogueSystem DialogueSpec ConversationSpec.

Lemma process_input_two_more
    (now_user now_reply : Z) (rnd : nat) (user_input : string) (ds : t) :
  templates_usable (response_generator ds) ->
  answers_present (qa_system ds) ->
  List.length (conversation_history (snd (process_input now_user now_reply rnd user_input ds)))
  = S (S (List.length (conversation_history ds))).
Proof.
  intros Hu Ha. unfold process_input.
  set (ds1 := with_history _ ds).
  destruct (IntentClassifier.classify (intent_classifier ds1) user_input)
    as [intent confidence].
  destruct (handle_intent_frame rnd intent user_input ds1 Hu Ha)
    as (r & ds2 & -> & _ & Hh & _).
  cbn [snd with_history conversation_history]. rewrite Hh. subst ds1.
  cbn [with_history conversation_history]. rewrite !length_app. simpl. lia.
Qed.

(** Over a whole conversation the history grows by two entries per
    message, with usable templates and non-empty answers in the data. *)
Theorem conversation_history_grows (messages : list message) (ds : t) :
  templates_usable (response_generator ds) ->
  answers_present (qa_system ds) ->
  List.length (conversation_history (converse messages ds))
  = (List.length (conversation_history ds) + 2 * List.length messages)%nat.
Proof.
  unfold converse. revert ds.
  induction messages as [|m messages IH]; intros ds Hu Ha; simpl; [lia|].
  set (ds' := snd (process_input (now_user m) (now_reply m) (rnd m) (text m) ds)).
  assert (Hframe : response_generator ds' = response_generator ds
                   /\ qa_system ds' = qa_system ds).
  { subst ds'. unfold process_input.
    set (ds1 := with_history _ ds).
    destruct (IntentClassifier.classify (intent_classifier ds1) (text m))
      as [intent confidence].
    pose proof (handle_intent_components (rnd m) intent (text m) ds1)
      as (_ & Hq & Hr & _).
    destruct (_handle_intent (rnd m) intent (text m) ds1) as [[response|e] ds2];
      cbn [snd with_history response_generator qa_system] in *; auto. }
  destruct Hframe as [Hr Hq].
  rewrite IH by (rewrite ?Hr, ?Hq; assumption).
  subst ds'. rewrite process_input_two_more by assumption. lia.
Qed.

End ConversationFacts.

Lemma conversation_history_grows_witness :
  List.length
    (DialogueSystem.conversation_history
       (ConversationSpec.converse
          (ConversationSpec.mk_message 0 1 0 "Hi"
           :: ConversationSpec.mk_message 2 3 1 "Track order ORD001" :: nil)
          DialogueSpec.sample_system))
  = (List.length (DialogueSystem.conversation_history DialogueSpec.sample_system)
     + 2 * 2)%nat.
Proof.
  apply (conversation_history_grows
           (ConversationSpec.mk_message 0 1 0 "Hi"
            :: ConversationSpec.mk_message 2 3 1 "Track order ORD001" :: nil)
           DialogueSpec.sample_system).
  - exact sample_templates_usable.
  - exact three_docs_answers_present.
Defined.

Lemma process_input_frame_witness :
  let ds' := snd (DialogueSystem.process_input 0 1 0 "Hello" DialogueSpec.sample_system) in
  DialogueSystem.order_tracker ds' = DialogueSystem.order_tracker DialogueSpec.sample_system.
Proof.
  apply (process_input_frame 0 1 0 "Hello" DialogueSpec.sample_system).
  vm_compute. discriminate.
Defined.

Section ApiFacts.

Import DialogueSystem ChatbotAPIWrapper ReSpec.

Variable digest : string -> Z -> string.

(** Tracking an order through the API: for an id of letters and digits
    that does not begin with id, when the message is classified as
    [track_order], the result is a success whose response gives the status
    and the delivery date of the order the store finds for the id, or the
    request for an id when the store finds none; the store is unchanged. *)
Theorem api_track_order_reports_status
    (w : world) (user_id order_id : string) (chatbot : DialogueSystem.t) :
  order_id <> "" ->
  all_chars is_alnum order_id = true ->
  String.prefix "id" (PyStr.lower order_id) = false ->
  fst (IntentClassifier.classify (intent_classifier chatbot) ("Track my order " +:+ order_id))
  = "track_order" ->
  response_of (fst (track_order digest w user_id order_id chatbot))
  = Some (match OrderTracker.get_order order_id (order_tracker chatbot) with
          | Some order =>
              "Your order " +:+ order_id +:+ " is " +:+ OrderTracker.status order
                +:+ ". Expected delivery: " +:+ OrderTracker.delivery_date order
          | None => not_found_reply
          end)
  /\ order_tracker (snd (track_order digest w user_id order_id chatbot))
     = order_tracker chatbot.
Proof.
  intros Hne Hal Hid Hcl.
  destruct (extract_at_track order_id Hne Hal Hid) as [Het _].
  unfold track_order, process_message, process_input.
  set (ds1 := with_history _ chatbot).
  change (intent_classifier ds1) with (intent_classifier chatbot).
  destruct (IntentClassifier.classify (intent_classifier chatbot)
              ("Track my order " +:+ order_id)) as [intent confidence].
  simpl in Hcl. subst intent.
  unfold _handle_intent. cbn [String.eqb Ascii.eqb Bool.eqb].
  unfold _handle_track_order. rewrite Het.
  destruct order_id as [|c rest]; [congruence|]. cbn [truthy].
  change (order_tracker ds1) with (order_tracker chatbot).
  now destruct (OrderTracker.get_order (String c rest) (order_tracker chatbot)).
Qed.

(** Cancelling an order through the API: for such an id, when the
    message is classified as [cancel_item] and the order the store finds
    is pending or processing, the result is a success that confirms the
    cancellation, and the store then finds the order with the status
    cancelled and its other fields as they were. *)
Theorem api_cancel_order_cancels
    (w : world) (user_id order_id : string) (chatbot : DialogueSystem.t)
    (order : OrderTracker.order) :
  order_id <> "" ->
  all_chars is_alnum order_id = true ->
  String.prefix "id" (PyStr.lower order_id) = false ->
  fst (IntentClassifier.classify (intent_classifier chatbot) ("Cancel order " +:+ order_id))
  = "cancel_item" ->
  OrderTracker.get_order order_id (order_tracker chatbot) = Some order ->
  OrderTracker.eligible order = true ->
  response_of (fst (cancel_order digest w user_id order_id chatbot))
  = Some ("Order " +:+ order_id +:+ " has been cancelled successfully.")
  /\ OrderTracker.get_order order_id
       (order_tracker (snd (cancel_order digest w user_id order_id chatbot)))
     = Some {| OrderTracker.order_id := OrderTracker.order_id order;
             OrderTracker.customer_id := OrderTracker.customer_id order;
             OrderTracker.status := "cancelled";
             OrderTracker.delivery_date := OrderTracker.delivery_date order |}.
Proof.
  intros Hne Hal Hid Hcl Hg Hel.
  destruct (extract_at_track order_id Hne Hal Hid) as [_ Hec].
  unfold cancel_order, process_message, process_input.
  set (ds1 := with_history _ chatbot).
  change (intent_classifier ds1) with (intent_classifier chatbot).
  destruct (IntentClassifier.classify (intent_classifier chatbot)
              ("Cancel order " +:+ order_id)) as [intent confidence].
  simpl in Hcl. subst intent.
  unfold _handle_intent. cbn [String.eqb Ascii.eqb Bool.eqb].
  unfold _handle_cancel_item. rewrite Hec.
  destruct order_id as [|c rest]; [congruence|]. cbn [truthy].
  change (order_tracker ds1) with (order_tracker chatbot). rewrite Hg, Hel.
  destruct (cancel_order_found _ _ _ Hg Hel) as (orders' & -> & Hg').
  cbn [fst snd response_of with_history with_orders order_tracker]. auto.
Qed.

End ApiFacts.

Lemma api_track_order_reports_status_witness :
  let w := ChatbotAPIWrapper.mk_world 0 1 2 3 0 in
  ChatbotAPIWrapper.response_of
    (fst (ChatbotAPIWrapper.track_order (fun u _ => u) w "U1" "ORD001"
            DialogueSpec.sample_system))
  = Some (match OrderTracker.get_order "ORD001"
                  (DialogueSystem.order_tracker DialogueSpec.sample_system) with
          | Some order =>
              "Your order " +:+ "ORD001" +:+ " is " +:+ OrderTracker.status order
                +:+ ". Expected delivery: " +:+ OrderTracker.delivery_date order
          | None => DialogueSystem.not_found_reply
          end)
  /\ DialogueSystem.order_tracker
       (snd (ChatbotAPIWrapper.track_order (fun u _ => u) w "U1" "ORD001"
               DialogueSpec.sample_system))
     = DialogueSystem.order_tracker DialogueSpec.sample_system.
Proof.
  apply (api_track_order_reports_status (fun u _ => u)
           (ChatbotAPIWrapper.mk_world 0 1 2 3 0) "U1" "ORD001" DialogueSpec.sample_system);
    [discriminate | reflexivity | reflexivity | reflexivity].
Defined.

Lemma api_cancel_order_cancels_witness :
  let w := ChatbotAPIWrapper.mk_world 0 1 2 3 0 in
  let order := OrderTracker.mk_order "ORD001" "C1" "pending" "2024-01-10" in
  ChatbotAPIWrapper.response_of
    (fst (ChatbotAPIWrapper.cancel_order (fun u _ => u) w "U1" "ORD001"
            DialogueSpec.sample_system))
  = Some ("Order " +:+ "ORD001" +:+ " has been cancelled successfully.")
  /\ OrderTracker.get_order "ORD001"
       (DialogueSystem.order_tracker
          (snd (ChatbotAPIWrapper.cancel_order (fun u _ => u) w "U1" "ORD001"
                  DialogueSpec.sample_system)))
     = Some {| OrderTracker.order_id := OrderTracker.order_id order;
             OrderTracker.customer_id := OrderTracker.customer_id order;
             OrderTracker.status := "cancelled";
             OrderTracker.delivery_date := OrderTracker.delivery_date order |}.
Proof.
  apply (api_cancel_order_cancels (fun u _ => u)
           (ChatbotAPIWrapper.mk_world 0 1 2 3 0) "U1" "ORD001" DialogueSpec.sample_system
           (OrderTracker.mk_order "ORD001" "C1" "pending" "2024-01-10"));
    [discriminate | reflexivity | reflexivity | reflexivity | reflexivity | reflexivity].
Defined.

(** * The query optimizer *)

Section BatchFacts.

Import QueryOptimizer.

Lemma firstn_plus {X : Type} (a b : nat) (l : list X) :
  firstn (a + b) l = (firstn a l ++ firstn b (skipn a l))%list.
Proof.
  revert l. induction a as [|a IH]; intros l; [reflexivity|].
  destruct l as [|x l]; simpl; [now destruct b | now rewrite IH].
Qed.

Lemma concat_chunks {X : Type} (s q : nat) (l : list X) :
  concat (map (fun i => slice l i (i + s)) (map (fun j => (j * s)%nat) (seq 0 q)))
  = firstn (q * s) l.
Proof.
  induction q as [|q IH]; [reflexivity|].
  rewrite seq_S, !map_app, concat_app, IH. simpl.
  rewrite app_nil_r. unfold slice.
  replace (q * s + s - q * s)%nat with s by lia.
  replace (s + q * s)%nat with (q * s + s)%nat by lia.
  now rewrite firstn_plus.
Qed.

Lemma chunks_cover (n s : nat) : (0 < s)%nat -> (n <= (n + s - 1) / s * s)%nat.
Proof.
  intros Hs. pose proof (Nat.div_mod_eq (n + s - 1) s) as Hd.
  pose proof (Nat.mod_upper_bound (n + s - 1) s ltac:(lia)) as Hm. nia.
Qed.

Lemma chunks_start_inside (n s j : nat) :
  (0 < s)%nat -> (j < (n + s - 1) / s)%nat -> (j * s < n)%nat.
Proof.
  intros Hs Hj. pose proof (Nat.div_mod_eq (n + s - 1) s) as Hd.
  pose proof (Nat.mod_upper_bound (n + s - 1) s ltac:(lia)) as Hm. nia.
Qed.

(** With a positive batch size the batches, put end to end, are the
    list of ids; no batch is empty or longer than the batch size, and
    there are as many batches as the length divided by the batch size,
    rounded up. *)
Theorem batch_order_queries_partitions (order_ids : list string) (batch_size : Z) :
  (0 < batch_size)%Z ->
  exists batches,
    batch_order_queries order_ids batch_size = Some batches
    /\ concat batches = order_ids
    /\ Forall (fun batch => batch <> nil
                 /\ (Z.of_nat (List.length batch) <= batch_size)%Z) batches
    /\ List.length batches
       = ((List.length order_ids + Z.to_nat batch_size - 1) / Z.to_nat batch_size)%nat.
Proof.
  intros Hpos. unfold batch_order_queries, range_from_zero.
  destruct (Z.eqb_spec batch_size 0) as [Hz|_]; [lia|].
  destruct (Z.ltb_spec batch_size 0) as [Hneg|_]; [lia|].
  set (s := Z.to_nat batch_size). set (n := List.length order_ids).
  assert (Hs : (0 < s)%nat) by (subst s; lia).
  eexists. split; [reflexivity|]. split; [|split].
  - rewrite concat_chunks. apply firstn_all2. now apply chunks_cover.
  - rewrite List.Forall_map, List.Forall_map. apply List.Forall_forall.
    intros j Hj. apply in_seq in Hj. unfold slice.
    replace (j * s + s - j * s)%nat with s by lia.
    assert (Hin : (j * s < n)%nat) by (apply chunks_start_inside; lia).
    split.
    + intros Hnil. apply (f_equal (@List.length string)) in Hnil.
      rewrite length_firstn, length_skipn in Hnil. simpl in Hnil. fold n in Hnil. lia.
    + pose proof (firstn_le_length s (skipn (j * s) order_ids)). subst s. lia.
  - now rewrite !length_map, length_seq.
Qed.

(** A batch size of 0 raises (the step of a range cannot be 0); a
    negative one returns no batch at all, whatever the ids. *)
Theorem batch_order_queries_bad_size (order_ids : list string) (batch_size : Z) :
  (batch_size = 0%Z -> batch_order_queries order_ids batch_size = None)
  /\ ((batch_size < 0)%Z -> batch_order_queries order_ids batch_size = Some nil).
Proof.
  unfold batch_order_queries, range_from_zero. split.
  - now intros ->.
  - intros Hneg. destruct (Z.eqb_spec batch_size 0) as [Hz|_]; [lia|].
    destruct (Z.ltb_spec batch_size 0) as [_|Hge]; [reflexivity | lia].
Qed.

End BatchFacts.

Lemma batch_order_queries_partitions_witness :
  exists batches,
    QueryOptimizer.batch_order_queries ("A1" :: "A2" :: "A3" :: "A4" :: "A5" :: nil) 2
    = Some batches
    /\ concat batches = "A1" :: "A2" :: "A3" :: "A4" :: "A5" :: nil
    /\ Forall (fun batch => batch <> nil /\ (Z.of_nat (List.length batch) <= 2)%Z) batches
    /\ List.length batches
       = ((List.length ("A1" :: "A2" :: "A3" :: "A4" :: "A5" :: nil) + Z.to_nat 2 - 1)
          / Z.to_nat 2)%nat.
Proof.
  apply (batch_order_queries_partitions ("A1" :: "A2" :: "A3" :: "A4" :: "A5" :: nil) 2).
  lia.
Defined.

Lemma batch_order_queries_bad_size_witness :
  QueryOptimizer.batch_order_queries ("A1" :: "A2" :: nil) (-3) = Some nil.
Proof.
  apply (proj2 (batch_order_queries_bad_size ("A1" :: "A2" :: nil) (-3))). lia.
Defined.

Section OptimizeFacts.

Import QueryOptimizer StripSpec.

Lemma lower_char_idem (c : ascii) : PyStr.lower_char (PyStr.lower_char c) = PyStr.lower_char c.
Proof. destruct c as [[] [] [] [] [] [] [] []]; reflexivity. Qed.

Lemma is_space_lower_char (c : ascii) : PyStr.is_space (PyStr.lower_char c) = PyStr.is_space c.
Proof. destruct c as [[] [] [] [] [] [] [] []]; reflexivity. Qed.

Lemma lower_idem (s : string) : PyStr.lower (PyStr.lower s) = PyStr.lower s.
Proof.
  unfold PyStr.lower. induction s as [|c s IH]; simpl; [reflexivity|].
  now rewrite lower_char_idem, IH.
Qed.

Lemma length_lower (s : string) : String.length (PyStr.lower s) = String.length s.
Proof.
  unfold PyStr.lower. induction s as [|c s IH]; simpl; [reflexivity | now rewrite IH].
Qed.

Lemma lower_lstrip (s : string) : PyStr.lower (lstrip s) = lstrip (PyStr.lower s).
Proof.
  unfold PyStr.lower. induction s as [|c s IH]; simpl; [reflexivity|].
  rewrite is_space_lower_char. destruct (PyStr.is_space c); [exact IH | reflexivity].
Qed.

Lemma lower_rstrip (s : string) : PyStr.lower (rstrip s) = rstrip (PyStr.lower s).
Proof.
  unfold PyStr.lower. induction s as [|c s IH]; simpl; [reflexivity|].
  rewrite <- IH, is_space_lower_char.
  destruct (rstrip s) as [|d r]; simpl; [now destruct (PyStr.is_space c) | reflexivity].
Qed.

Lemma length_lstrip (s : string) : (String.length (lstrip s) <= String.length s)%nat.
Proof.
  induction s as [|c s IH]; simpl; [lia|].
  destruct (PyStr.is_space c); simpl; lia.
Qed.

Lemma length_rstrip (s : string) : (String.length (rstrip s) <= String.length s)%nat.
Proof.
  induction s as [|c s IH]; simpl; [lia|].
  destruct (rstrip s) as [|d r]; simpl in *; [destruct (PyStr.is_space c); simpl; lia | lia].
Qed.

Lemma rstrip_idem (s : string) : rstrip (rstrip s) = rstrip s.
Proof.
  induction s as [|c s IH]; simpl; [reflexivity|].
  destruct (rstrip s) as [|d r] eqn:Hr.
  - destruct (PyStr.is_space c) eqn:Hc; simpl; [reflexivity | now rewrite Hc].
  - change (rstrip (String c (String d r))) with
      (match rstrip (String d r) with
       | EmptyString => if PyStr.is_space c then EmptyString else String c EmptyString
       | r0 => String c r0
       end).
    now rewrite IH.
Qed.

Lemma clean_head_lstrip (s : string) : clean_head (lstrip s).
Proof.
  induction s as [|c s IH]; simpl; [exact I|].
  destruct (PyStr.is_space c) eqn:Hc; [exact IH | exact Hc].
Qed.

Lemma lstrip_clean (s : string) : clean_head s -> lstrip s = s.
Proof. destruct s as [|c s]; simpl; [reflexivity|]. now intros ->. Qed.

Lemma clean_head_rstrip (s : string) : clean_head s -> clean_head (rstrip s).
Proof.
  destruct s as [|c s]; simpl; [exact id|]. intros Hc.
  destruct (rstrip s); [now rewrite Hc | exact Hc].
Qed.

Lemma strip_idem (s : string) : strip (strip s) = strip s.
Proof.
  unfold strip.
  rewrite (lstrip_clean (rstrip (lstrip s)))
    by apply clean_head_rstrip, clean_head_lstrip.
  apply rstrip_idem.
Qed.

Lemma length_substring_le (n : nat) (s : string) :
  (String.length (String.substring 0 n s) <= n)%nat.
Proof.
  revert s. induction n as [|n IH]; intros s.
  - destruct s; simpl; lia.
  - destruct s as [|c s]; simpl; [lia|]. specialize (IH s). lia.
Qed.

Lemma optimize_length (text : string) (top_k : Z) :
  (String.length (optimize_intent_classification text top_k) <= 500)%nat.
Proof.
  unfold optimize_intent_classification, strip.
  set (t := if (500 <? String.length text)%nat then _ else text).
  assert (Ht : (String.length t <= 500)%nat).
  { subst t. destruct (Nat.ltb_spec 500 (String.length text)); [|lia].
    apply length_substring_le. }
  pose proof (length_rstrip (lstrip (PyStr.lower t))).
  pose proof (length_lstrip (PyStr.lower t)).
  rewrite length_lower in *. lia.
Qed.

(** The text prepared for classification has at most 500 characters, is
    in lower case and has no blank at either end; preparing it again
    changes nothing. *)
Theorem optimize_intent_classification_normalizes (text : string) (top_k top_k' : Z) :
  let prepared := optimize_intent_classification text top_k in
  (String.length prepared <= 500)%nat
  /\ PyStr.lower prepared = prepared
  /\ strip prepared = prepared
  /\ optimize_intent_classification prepared top_k' = prepared.
Proof.
  intros prepared.
  assert (Hlen : (String.length prepared <= 500)%nat) by apply optimize_length.
  assert (Hlow : PyStr.lower prepared = prepared).
  { subst prepared. unfold optimize_intent_classification, strip.
    now rewrite lower_rstrip, lower_lstrip, lower_idem. }
  assert (Hstrip : strip prepared = prepared).
  { subst prepared. unfold optimize_intent_classification. apply strip_idem. }
  repeat split; try assumption.
  unfold optimize_intent_classification at 1.
  destruct (Nat.ltb_spec 500 (String.length prepared)); [lia|].
  now rewrite Hlow.
Qed.

End OptimizeFacts.

(** * The connection pool *)

Section PoolFacts.

Import ConnectionPool PoolSpec.
Local Open Scope Z_scope.

Lemma pop_snoc (l : list value) (x : value) : pop (l ++ x :: nil)%list = Some (x, l).
Proof. unfold pop. rewrite rev_app_distr. simpl. now rewrite rev_involutive. Qed.

Lemma pop_length (l others : list value) (x : value) :
  pop l = Some (x, others) -> List.length l = S (List.length others).
Proof.
  unfold pop. destruct (rev l) as [|y before] eqn:Hr; [discriminate|].
  intros [= <- <-]. rewrite <- (rev_involutive l), Hr. simpl.
  rewrite length_app, !length_rev. simpl. lia.
Qed.

Lemma pop_nil (l : list value) : pop l = None -> l = nil.
Proof.
  unfold pop. destruct (rev l) as [|y before] eqn:Hr; [|discriminate].
  intros _. rewrite <- (rev_involutive l), Hr. reflexivity.
Qed.

Lemma get_connection_within (elapsed : list Q) (timeout : Q) (p : t) :
  within_size p ->
  within_size (snd (get_connection elapsed timeout p))
  /\ pool_size (snd (get_connection elapsed timeout p)) = pool_size p.
Proof.
  intros [Ha Ht]. induction elapsed as [|e later IH]; simpl.
  - now repeat split.
  - destruct (Qlt_le_dec e timeout); [|now repeat split].
    destruct (pop (available_connections p)) as [[c others]|] eqn:Hp; [|exact IH].
    apply pop_length in Hp. unfold within_size. simpl. lia.
Qed.

Lemma release_connection_within (c : value) (p : t) :
  within_size p ->
  within_size (release_connection c p)
  /\ pool_size (release_connection c p) = pool_size p.
Proof.
  intros [Ha Ht]. unfold within_size, release_connection. simpl.
  destruct (Z.ltb_spec 0 (active_connections p));
    destruct (Z.ltb_spec (Z.of_nat (List.length (available_connections p))) (pool_size p));
    rewrite ?length_app; simpl; lia.
Qed.

(** Whatever is acquired and released, a pool created with a size that
    is not negative counts no more connections, available and active
    together, than its size: the number of active ones is never negative
    and never above the size. *)
Theorem pool_stays_within_size (size : Z) (calls : list op) :
  0 <= size ->
  let p := run calls (__init__ size) in
  0 <= active_connections p
  /\ active_connections p <= size
  /\ Z.of_nat (List.length (available_connections p)) <= size
  /\ Z.of_nat (List.length (available_connections p)) + active_connections p <= size.
Proof.
  intros Hsize p.
  assert (H : within_size p /\ pool_size p = size).
  { subst p. unfold run.
    assert (H0 : within_size (__init__ size) /\ pool_size (__init__ size) = size).
    { unfold within_size. simpl. lia. }
    revert H0. generalize (__init__ size).
    induction calls as [|o calls IH]; intros p0 [Hw Hs]; simpl; [now split|].
    apply IH. destruct o as [elapsed timeout|c]; simpl.
    - destruct (get_connection_within elapsed timeout p0 Hw) as [Hw' Hs'].
      split; [exact Hw' | congruence].
    - destruct (release_connection_within c p0 Hw) as [Hw' Hs'].
      split; [exact Hw' | congruence]. }
  destruct H as [[Ha Ht] Hs]. lia.
Qed.

(** A pool with no available connection hands out none and stays as it
    is, whatever the clock reads. *)
Theorem empty_pool_hands_out_nothing (elapsed : list Q) (timeout : Q) (p : t) :
  available_connections p = nil ->
  get_connection elapsed timeout p = (None, p).
Proof.
  intros He. induction elapsed as [|e later IH]; simpl; [reflexivity|].
  destruct (Qlt_le_dec e timeout); [|reflexivity].
  rewrite He. simpl. exact IH.
Qed.

(** A connection released into a pool that has room is the next one
    handed out, if the first test of the loop is within the timeout; the
    available connections are then those of before the release. *)
Theorem release_then_get (c : value) (e : Q) (later : list Q) (timeout : Q) (p : t) :
  Z.of_nat (List.length (available_connections p)) < pool_size p ->
  (e < timeout)%Q ->
  fst (get_connection (e :: later) timeout (release_connection c p)) = Some c
  /\ available_connections (snd (get_connection (e :: later) timeout (release_connection c p)))
     = available_connections p.
Proof.
  intros Hroom He. simpl.
  destruct (Qlt_le_dec e timeout) as [_|Hle];
    [|exfalso; now apply (Qlt_not_le _ _ He)].
  destruct (Z.ltb_spec (Z.of_nat (List.length (available_connections p))) (pool_size p));
    [|lia].
  rewrite pop_snoc. simpl. auto.
Qed.

End PoolFacts.

Lemma pool_stays_within_size_witness :
  let p := ConnectionPool.run
             (ConnectionPool.Release (VStr "c1") :: ConnectionPool.Release (VStr "c2")
              :: ConnectionPool.Acquire ((0 # 1) :: nil) (5 # 1)
              :: ConnectionPool.Release (VStr "c3") :: nil)
             (ConnectionPool.__init__ 1) in
  (0 <= ConnectionPool.active_connections p
   /\ ConnectionPool.active_connections p <= 1
   /\ Z.of_nat (List.length (ConnectionPool.available_connections p)) <= 1
   /\ Z.of_nat (List.length (ConnectionPool.available_connections p))
      + ConnectionPool.active_connections p <= 1)%Z.
Proof.
  apply (pool_stays_within_size 1). lia.
Defined.

Lemma empty_pool_hands_out_nothing_witness :
  ConnectionPool.get_connection ((0 # 1) :: (1 # 10) :: (2 # 10) :: nil) (5 # 1)
    (ConnectionPool.__init__ 10)
  = (None, ConnectionPool.__init__ 10).
Proof.
  apply empty_pool_hands_out_nothing. reflexivity.
Defined.

Lemma release_then_get_witness :
  fst (ConnectionPool.get_connection ((0 # 1) :: nil) (5 # 1)
         (ConnectionPool.release_connection (VStr "c1") (ConnectionPool.__init__ 2)))
  = Some (VStr "c1")
  /\ ConnectionPool.available_connections
       (snd (ConnectionPool.get_connection ((0 # 1) :: nil) (5 # 1)
               (ConnectionPool.release_connection (VStr "c1") (ConnectionPool.__init__ 2))))
     = ConnectionPool.available_connections (ConnectionPool.__init__ 2).
Proof.
  apply (release_then_get (VStr "c1") (0 # 1) nil (5 # 1) (ConnectionPool.__init__ 2)).
  - simpl. lia.
  - reflexivity.
Defined.

(** * The keyword map *)

Section KeywordFacts.

Import IntentClassifier KeywordMap.

Lemma intents_of_add_keyword (name : string) (km : gmap string (list string))
    (keyword w n : string) :
  List.In n (intents_of (add_keyword name km keyword) w)
  <-> List.In n (intents_of km w) \/ (n = name /\ w = keyword).
Proof.
  unfold intents_of, add_keyword.
  destruct (String.string_dec keyword w) as [->|Hne].
  - rewrite lookup_insert_eq. simpl. rewrite in_app_iff. simpl. intuition.
  - rewrite lookup_insert_ne by exact Hne. intuition congruence.
Qed.

Lemma intents_of_add_words (name : string) (words : list string)
    (km : gmap string (list string)) (w n : string) :
  List.In n (intents_of (fold_left (add_keyword name) words km) w)
  <-> List.In n (intents_of km w) \/ (n = name /\ List.In w words).
Proof.
  revert km. induction words as [|k words IH]; intros km; simpl; [tauto|].
  rewrite IH, intents_of_add_keyword. intuition.
Qed.

Lemma intents_of_add_intent (it : intent) (km : gmap string (list string)) (w n : string) :
  List.In n (intents_of (add_intent km it) w)
  <-> List.In n (intents_of km w)
      \/ (n = tag it
          /\ exists p, List.In p (patterns it)
                       /\ List.In w (PyStr.split (PyStr.lower p))).
Proof.
  unfold add_intent. revert km.
  induction (patterns it) as [|p ps IH]; intros km; simpl.
  - split; [tauto | intros [H | (_ & p & [] & _)]; exact H].
  - rewrite IH. unfold add_pattern at 1. rewrite intents_of_add_words.
    split.
    + intros [[H | [Hn Hw]] | (Hn & q & Hq & Hw)]; [tauto | |].
      * right. split; [exact Hn|]. exists p. auto.
      * right. split; [exact Hn|]. exists q. auto.
    + intros [H | (Hn & q & [<- | Hq] & Hw)]; [tauto | tauto |].
      right. split; [exact Hn|]. exists q. auto.
Qed.

(** The keyword map lists an intent under a word exactly when the word
    is one of the words of one of the patterns of that intent, in lower
    case. *)
Theorem keyword_map_lists_pattern_words (intents : list intent) (w n : string) :
  List.In n (intents_of (_build_keyword_map intents) w)
  <-> exists it p,
        List.In it intents /\ tag it = n
        /\ List.In p (patterns it)
        /\ List.In w (PyStr.split (PyStr.lower p)).
Proof.
  unfold _build_keyword_map.
  assert (Hgen : forall km,
             List.In n (intents_of (fold_left add_intent intents km) w)
             <-> List.In n (intents_of km w)
                 \/ exists it p,
                      List.In it intents /\ tag it = n
                      /\ List.In p (patterns it)
                      /\ List.In w (PyStr.split (PyStr.lower p))).
  { induction intents as [|it intents IH]; intros km; simpl.
    - split; [tauto | intros [H | (it & p & [] & _)]; exact H].
    - rewrite IH, intents_of_add_intent. split.
      + intros [[H | (Hn & p & Hp & Hw)] | (it' & p & Hit & Hrest)]; [tauto | |].
        * right. exists it, p. auto.
        * right. exists it', p. tauto.
      + intros [H | (it' & p & [<- | Hit] & Hn & Hp & Hw)]; [tauto | |].
        * left. right. split; [now symmetry|]. exists p. auto.
        * right. exists it', p. auto. }
  rewrite Hgen. unfold intents_of at 1. rewrite lookup_empty. simpl. tauto.
Qed.

End KeywordFacts.

(** * Customers and cancellations *)

Section CustomerFacts.

Import OrderTracker.

(** A cancellation changes no list of a customer's orders but for the
    status of the cancelled order: the same orders, in the same order,
    with the same ids and delivery dates. *)
Theorem cancel_keeps_customer_orders (oid cid : string) (orders : t) :
  map order_id (list_user_orders cid (snd (cancel_order oid orders)))
  = map order_id (list_user_orders cid orders)
  /\ map delivery_date (list_user_orders cid (snd (cancel_order oid orders)))
     = map delivery_date (list_user_orders cid orders)
  /\ (fst (cancel_order oid orders) = false ->
      list_user_orders cid (snd (cancel_order oid orders)) = list_user_orders cid orders).
Proof.
  unfold list_user_orders. induction orders as [|o rest IH]; simpl; [auto|].
  destruct (same_id o oid && eligible o).
  - simpl. destruct (String.eqb (customer_id o) cid); simpl;
      repeat split; try reflexivity; discriminate.
  - destruct (cancel_order oid rest) as [r rest']. simpl in *.
    destruct IH as (Hid & Hdate & Hsame).
    destruct (String.eqb (customer_id o) cid); simpl;
      repeat split; try congruence; intros Hr; now rewrite Hsame.
Qed.

End CustomerFacts.

Lemma cancel_keeps_customer_orders_witness :
  let o := OrderTracker.mk_order "ORD002" "C2" "shipped" "2024-01-12" in
  OrderTracker.list_user_orders "C2" (snd (OrderTracker.cancel_order "ORD002" (o :: nil)))
  = OrderTracker.list_user_orders "C2" (o :: nil).
Proof.
  intros o.
  apply (proj2 (proj2 (cancel_keeps_customer_orders "ORD002" "C2" (o :: nil)))).
  reflexivity.
Defined.

(** * Least recently used *)

Section LruFacts.

Import LRUCache CacheSpec.

Lemma del_absent (k : string) (d : OrderedDict.t) :
  OrderedDict.mem k d = false -> OrderedDict.del k d = d.
Proof.
  induction d as [|[k0 v0] d IH]; simpl; [reflexivity|].
  destruct (String.eqb k0 k); simpl; [discriminate|]. intros H. now rewrite IH.
Qed.

Lemma length_del_nodup (k : string) (d : OrderedDict.t) :
  List.NoDup (OrderedDict.keys d) ->
  OrderedDict.mem k d = true ->
  List.length d = S (List.length (OrderedDict.del k d)).
Proof.
  unfold OrderedDict.keys. induction d as [|[k0 v0] d IH]; simpl; [discriminate|].
  intros Hnd. apply NoDup_cons_iff in Hnd. destruct Hnd as [Hk0 Hnd].
  destruct (String.eqb_spec k0 k) as [->|Hne]; simpl.
  - intros _. rewrite del_absent; [reflexivity|].
    now apply mem_false_not_in.
  - intros H. now rewrite (IH Hnd H).
Qed.

Lemma mem_set_other (k k' : string) (v : value) (d : OrderedDict.t) :
  OrderedDict.mem k d = true -> OrderedDict.mem k (OrderedDict.set k' v d) = true.
Proof.
  induction d as [|[k0 v0] d IH]; simpl; [discriminate|].
  destruct (String.eqb k0 k') eqn:E; simpl.
  - tauto.
  - destruct (String.eqb k0 k); simpl; [reflexivity | exact IH].
Qed.

(** Reading a key makes it the most recently used: when a live key of
    a full cache of two entries or more is read and a new key is then
    put, the put returns, evicts another key and leaves the key that was
    read in the store.  The time-to-live is one that [timedelta] can
    hold. *)
Theorem read_key_survives_eviction
    (now now' stamp : Z) (k k' : string) (v v' : value) (c : t) :
  ttl_valid c ->
  List.NoDup (OrderedDict.keys (cache c)) ->
  OrderedDict.lookup k (cache c) = Some v ->
  timestamps c !! k = Some stamp ->
  (now - stamp <= ttl c)%Z ->
  (2 <= List.length (cache c))%nat ->
  (max_size c <= Z.of_nat (List.length (cache c)))%Z ->
  OrderedDict.mem k' (cache c) = false ->
  fst (get now k c) = Return v
  /\ fst (put now' k' v' (snd (get now k c))) = Return tt
  /\ OrderedDict.mem k (cache (snd (put now' k' v' (snd (get now k c))))) = true
  /\ List.length (cache (snd (put now' k' v' (snd (get now k c)))))
     = List.length (cache c).
Proof.
  intros Hvalid Hnd Hl Hts Hage Hlen Hfull Hfresh.
  assert (Hmem : OrderedDict.mem k (cache c) = true) by (apply mem_lookup; eauto).
  assert (Hkk : k' <> k) by (intros ->; congruence).
  rewrite (get_live now stamp k v c Hl Hts Hvalid Hage). cbn [fst snd].
  split; [reflexivity|].
  pose proof (length_del_nodup k _ Hnd Hmem) as Hdel.
  unfold put. cbn [count_hit with_cache cache max_size].
  unfold OrderedDict.move_to_end. rewrite Hl.
  assert (Hfresh' : OrderedDict.mem k' (OrderedDict.del k (cache c) ++ (k, v) :: nil)%list
                    = false).
  { rewrite mem_app. apply orb_false_iff. split.
    - apply mem_false_lookup. rewrite lookup_del_ne by exact Hkk.
      now apply mem_false_lookup.
    - simpl. destruct (String.eqb_spec k k'); [congruence | reflexivity]. }
  rewrite Hfresh'.
  rewrite length_app. simpl List.length.
  destruct (Z.leb_spec (max_size c)
              (Z.of_nat (List.length (OrderedDict.del k (cache c)) + 1))) as [_|Hroom];
    [|lia].
  unfold evict. cbn [cache with_cache timestamps].
  destruct (OrderedDict.del k (cache c)) as [|kv0 others] eqn:Hd.
  { simpl in Hdel. lia. }
  cbn [app].
  destruct (others ++ (k, v) :: nil)%list as [|[rk rv] rest'] eqn:Hrest.
  { destruct others; discriminate. }
  assert (Hkin : OrderedDict.mem k ((rk, rv) :: rest') = true).
  { rewrite <- Hrest, mem_app. simpl. rewrite String.eqb_refl. apply orb_true_r. }
  assert (Hlen' : List.length ((rk, rv) :: rest') = S (List.length others)).
  { rewrite <- Hrest, length_app. simpl. lia. }
  assert (Hk'rest : OrderedDict.mem k' ((rk, rv) :: rest') = false).
  { rewrite <- Hrest. simpl in Hfresh'. apply orb_false_iff in Hfresh'. tauto. }
  cbn [count_hit with_cache cache timestamps].
  destruct (timestamps c !! rk);
    cbn [fst snd store count_hit with_cache with_timestamps cache];
    (split; [reflexivity|]); (split; [now apply mem_set_other|]);
    rewrite length_set_absent by exact Hk'rest; rewrite Hlen', Hdel; simpl; lia.
Qed.

End LruFacts.

Lemma read_key_survives_eviction_witness :
  let c := snd (LRUCache.put_all 0 (("a", VInt 1) :: ("b", VInt 2) :: nil)
                  (LRUCache.__init__ 2 3600)) in
  fst (LRUCache.get 1 "a" c) = Return (VInt 1)
  /\ fst (LRUCache.put 2 "c" (VInt 3) (snd (LRUCache.get 1 "a" c))) = Return tt
  /\ OrderedDict.mem "a"
       (LRUCache.cache (snd (LRUCache.put 2 "c" (VInt 3) (snd (LRUCache.get 1 "a" c))))) = true
  /\ List.length
       (LRUCache.cache (snd (LRUCache.put 2 "c" (VInt 3) (snd (LRUCache.get 1 "a" c)))))
     = List.length (LRUCache.cache c).
Proof.
  intros c.
  apply (read_key_survives_eviction 1 2 0 "a" "c" (VInt 1) (VInt 3) c).
  - reflexivity.
  - repeat constructor; simpl; intuition discriminate.
  - reflexivity.
  - reflexivity.
  - vm_compute. discriminate.
  - simpl. lia.
  - simpl. lia.
  - reflexivity.
Defined.
